(** * SemanticAIDetect: a shallow embedding of [yt_detect.py]

    The program fetches (or accepts) a video, caches it on disk under the
    identifier found in its URL, uploads it to a hosted file store, waits
    until the store has processed it, and asks two models for a JSON verdict.

    Conventions of the embedding.
    - A Python [str] is a sequence of code points.  The model covers the
      code points U+0000 .. U+00FF: a character is an [ascii] read as such a
      code point and a text is a [string]; the regular-expression engine
      works on [list ascii].  Code points above U+00FF are outside the model.
    - Disk, downloader, file store and models are explicit: the disk is a
      finite map from paths to nodes, every call that leaves the process is
      logged in a trace, and the answers of the outside world are fields of
      an environment record.
    - A Python exception is a value of [exn]; a computation returns
      [Ret v], [Raise e], or [Running] when the fuel given to the one
      unbounded loop of the program is used up.
    - [json.loads] is modelled with the messages and positions of its
      errors and with the two limits of the interpreter it can meet: the
      4300 digits that [int] accepts, and the recursion limit, which
      bounds the nesting of a document and the frames left for raising an
      error.  A stack so full that [json.loads] cannot start is outside the
      model. *)

From Stdlib Require Import Ascii String List NArith ZArith Bool Lia DecimalString.
From stdpp Require Import base option list strings gmap.

Local Open Scope string_scope.
Local Open Scope list_scope.

(** ** Texts *)

Abbreviation chars := list_ascii_of_string.
Abbreviation text := string_of_list_ascii.

(** ** Regular expressions ([re]) *)

Module Re.

(** The fragment of the pattern language that
    [(?:v=|\/)([\w-]{11})(?:\?|&|\/|$)] uses.  A non-capturing group
    [(?:...)] is the tree structure itself. *)
Inductive regex : Type :=
| Chr (c : ascii)                 (* a literal character *)
| Cls (p : ascii -> bool)         (* a character set [...] *)
| Seq (r1 r2 : regex)             (* r1 r2 *)
| Alt (r1 r2 : regex)             (* r1|r2, r1 tried first *)
| Rep (r : regex) (n : nat)       (* r{n} *)
| Group (r : regex)               (* (r), the capturing group 1 *)
| Dollar.                         (* $ without re.MULTILINE *)

(** [\w] on a [str] pattern: alphanumeric code points and the underscore.
    On U+0000 .. U+00FF these are the ASCII letters and digits, [_],
    and the Latin-1 letters and numerics listed below. *)
Definition is_word (c : ascii) : bool :=
  let n := N_of_ascii c in
  ((48 <=? n) && (n <=? 57)             (* 0-9 *)
   || (65 <=? n) && (n <=? 90)          (* A-Z *)
   || (n =? 95)                         (* _ *)
   || (97 <=? n) && (n <=? 122)         (* a-z *)
   || (n =? 170) || (n =? 178) || (n =? 179) || (n =? 181)
   || (n =? 185) || (n =? 186)
   || (188 <=? n) && (n <=? 190)
   || (192 <=? n) && (n <=? 214)
   || (216 <=? n) && (n <=? 246)
   || (248 <=? n) && (n <=? 255))%N.

(** [[\w-]] *)
Definition word_or_dash (c : ascii) : bool :=
  is_word c || Ascii.eqb c "-".

(** [$] matches at the end of the text and just before a newline that is
    the last character of the text. *)
Definition at_dollar (s : list ascii) : bool :=
  match s with
  | [] => true
  | [c] => Ascii.eqb c "010"
  | _ => false
  end.

(** Backtracking matcher.  [s] is the text that remains, [g] the text
    captured by group 1 so far, [k] what is still to be matched after [r].
    Alternatives are tried left to right, the first success wins. *)
Fixpoint run {R : Type} (r : regex) (s : list ascii) (g : option (list ascii))
    (k : list ascii -> option (list ascii) -> option R) {struct r} : option R :=
  match r with
  | Chr c =>
      match s with
      | c' :: s' => if Ascii.eqb c c' then k s' g else None
      | [] => None
      end
  | Cls p =>
      match s with
      | c' :: s' => if p c' then k s' g else None
      | [] => None
      end
  | Seq r1 r2 => run r1 s g (fun s1 g1 => run r2 s1 g1 k)
  | Alt r1 r2 =>
      match run r1 s g k with
      | Some x => Some x
      | None => run r2 s g k
      end
  | Rep r1 n =>
      (fix rep (n : nat) (s : list ascii) (g : option (list ascii)) : option R :=
         match n with
         | O => k s g
         | S n' => run r1 s g (fun s1 g1 => rep n' s1 g1)
         end) n s g
  | Group r1 =>
      run r1 s g (fun s1 _ => k s1 (Some (take (length s - length s1) s)))
  | Dollar => if at_dollar s then k s g else None
  end.

(** A match object: only [group(1)] is read by the program; [None] is a
    group that took no part in the match. *)
Record Match : Type := { group1 : option (list ascii) }.

(** [re.match]-like attempt at the very start of [s]. *)
Definition match_here (r : regex) (s : list ascii) : option Match :=
  run r s None (fun _ g => Some {| group1 := g |}).

(** [re.search]: the first start position, left to right, at which the
    pattern matches; the empty suffix is tried last. *)
Fixpoint search (r : regex) (s : list ascii) : option Match :=
  match match_here r s with
  | Some m => Some m
  | None =>
      match s with
      | [] => None
      | _ :: s' => search r s'
      end
  end.

End Re.

(** ** The identifier pattern of [download_youtube_video] *)

(** [r"(?:v=|\/)([\w-]{11})(?:\?|&|\/|$)"] *)
Definition video_id_pattern : Re.regex :=
  Re.Seq (Re.Alt (Re.Seq (Re.Chr "v") (Re.Chr "=")) (Re.Chr "/"))
    (Re.Seq (Re.Group (Re.Rep (Re.Cls Re.word_or_dash) 11))
       (Re.Alt (Re.Chr "?") (Re.Alt (Re.Chr "&") (Re.Alt (Re.Chr "/") Re.Dollar)))).

(** [video_id_match = re.search(..., url)] *)
Definition video_id_match (url : string) : option Re.Match :=
  Re.search video_id_pattern (chars url).

(** [video_id_match.group(1)] as it is formatted into an f-string: a group
    that took no part prints as [None]. *)
Definition group1_str (m : Re.Match) : string :=
  match Re.group1 m with
  | Some g => text g
  | None => "None"
  end.

(** ** The outside world *)

(** A path on disk names a directory or a file with its bytes. *)
Inductive node : Type :=
| Dir
| File (content : string).

#[global] Instance node_eq_dec : EqDecision node.
Proof. solve_decision. Defined.

(** Python exceptions raised on the paths the program takes. *)
Inductive exn : Type :=
| ValueError (msg : string)
| DownloadError (msg : string)     (* yt_dlp.utils.DownloadError *)
| IsADirectoryError (path : string)
| JSONDecodeError (msg doc : string) (pos : nat)
                                   (* json.JSONDecodeError(msg, doc, pos) *)
| RecursionError (msg : string)
| TypeError (msg : string)
| AttributeError (msg : string)
| MediaFileStorageError (msg : string)
                                   (* streamlit: a media file that cannot be read *)
| APIError (msg : string).         (* raised by the genai client *)

(** The handle of a file in the provider's store ([types.File]); the
    program reads [state], [name], [uri] and [mime_type]. *)
Record FileObj : Type := {
  name : string;
  uri : string;
  mime_type : string;
  state : string
}.

(** Every call that leaves the process, in the order it is made. *)
Inductive event : Type :=
| EExists (path : string)                  (* os.path.exists *)
| EMakedirs (path : string)                (* os.makedirs *)
| EToast (msg : string)                    (* st.toast, the icon left out *)
| EDownload (url outtmpl : string)         (* YoutubeDL(opts).download([url]) *)
| EWrite (path : string)                   (* open(path, "wb") ... write *)
| EPrint (msg : string)                    (* print *)
| EUpload (path : string)                  (* client.files.upload *)
| ESleep (seconds : nat)                   (* time.sleep *)
| EGet (name : string)                     (* client.files.get *)
| EGenerate (model uri mime prompt : string) (* client.models.generate_content *)
| EVideo (path : string)                   (* st.video *)
| EError (msg : string).                   (* st.error *)

(** What the downloader does with a URL: it fails, or it leaves one media
    file whose extension it chooses from the formats on offer. *)
Inductive fetch_outcome : Type :=
| FetchFailed (msg : string)
| FetchSaved (ext : string) (content : string).

(** What a generation request gives back: an exception of the client, or a
    response whose [text] is a string or [None]. *)
Inductive gen_outcome : Type :=
| GenFailed (msg : string)
| GenText (txt : option string).

(** The answers of the external collaborators.  The downloader and the
    models may answer differently over time: they see the trace so far.
    The file store answers the upload, and then the [k]-th status request
    ([k] counted from 0 within one ingestion).

    [nesting] belongs to the interpreter: it is the number of containers,
    one inside the other, that the scanner of [json.loads] can enter where
    the classifiers call it, before the recursion limit is reached.  The
    program leaves the limit at 1000; with the page and the classifier on
    the stack and nothing else that makes 994, and every frame of the
    framework that runs the page makes it one less.  A larger value is read
    as 994 ([json_depth]). *)
Record Env : Type := {
  ydl : list event -> string -> fetch_outcome;
  files_upload : string -> exn + FileObj;
  files_get : nat -> string -> exn + FileObj;
  generate_content : list event -> string -> string -> string -> gen_outcome;
  nesting : nat
}.

Definition json_depth (env : Env) : nat := Nat.min (nesting env) 994.

Record World : Type := {
  disk : gmap string node;
  trace : list event
}.

Definition log (e : event) (w : World) : World :=
  {| disk := disk w; trace := trace w ++ [e] |}.

(** ** Computations *)

Inductive result (A : Type) : Type :=
| Ret (a : A)
| Raise (e : exn)
| Running.
Arguments Ret {A} a.
Arguments Raise {A} e.
Arguments Running {A}.

Definition M (A : Type) : Type := World -> result A * World.

Definition ret {A} (a : A) : M A := fun w => (Ret a, w).
Definition raise {A} (e : exn) : M A := fun w => (Raise e, w).
Definition bind {A B} (c : M A) (k : A -> M B) : M B :=
  fun w =>
    match c w with
    | (Ret a, w') => k a w'
    | (Raise e, w') => (Raise e, w')
    | (Running, w') => (Running, w')
    end.

(** [try: c  except Exception as e: h e] *)
Definition try_except {A} (c : M A) (h : exn -> M A) : M A :=
  fun w =>
    match c w with
    | (Raise e, w') => h e w'
    | r => r
    end.

Notation "x <- c ;; k" := (bind c (fun x => k))
  (at level 100, c at next level, right associativity).
Notation "c ;;; k" := (bind c (fun _ => k))
  (at level 100, right associativity).

Definition emit (e : event) : M unit := fun w => (Ret tt, log e w).

(** [os.path.exists(p)]: true for a file and for a directory. *)
Definition path_exists (p : string) : M bool :=
  fun w => (Ret (bool_decide (is_Some (disk w !! p))), log (EExists p) w).

(** [os.makedirs(p)], called only when [p] does not exist. *)
Definition makedirs (p : string) : M unit :=
  fun w => (Ret tt, {| disk := <[p := Dir]> (disk w);
                       trace := trace w ++ [EMakedirs p] |}).

(** [with open(p, "wb") as f: f.write(bytes)]: creates or truncates [p];
    a directory cannot be opened for writing. *)
Definition write_file (p : string) (bytes : string) : M unit :=
  fun w =>
    match disk w !! p with
    | Some Dir => (Raise (IsADirectoryError p), log (EWrite p) w)
    | _ => (Ret tt, {| disk := <[p := File bytes]> (disk w);
                       trace := trace w ++ [EWrite p] |})
    end.

(** Is [p] a file on the disk of [w]? *)
Definition is_file (w : World) (p : string) : bool :=
  match disk w !! p with
  | Some (File _) => true
  | _ => false
  end.

(** [MediaFileStorageError(f"Error opening '{p}'")] *)
Definition video_error (p : string) : exn :=
  MediaFileStorageError ("Error opening '" +:+ p +:+ "'").

(** [st.video(p)] for the path of a local file: the framework reads the
    file when the call is made, and raises [MediaFileStorageError] when it
    cannot open it as a file. *)
Definition st_video (p : string) : M unit :=
  fun w =>
    if is_file w p then (Ret tt, log (EVideo p) w)
    else (Raise (video_error p), log (EVideo p) w).

Section Program.
Context (env : Env).

(** [with yt_dlp.YoutubeDL(ydl_opts) as ydl: ydl.download([url])] with
    ['outtmpl': f'downloads/{video_id}.%(ext)s']: the downloader fills in
    the extension of the format it picked and leaves the file there, in
    place of whatever had that name; a failure raises.  Which format the
    option ['format'] selects is the downloader's business, hence [ydl]. *)
Definition ydl_download (url video_id : string) : M unit :=
  fun w =>
    let outtmpl := "downloads/" +:+ video_id +:+ ".%(ext)s" in
    match ydl env (trace w) url with
    | FetchFailed msg => (Raise (DownloadError msg), log (EDownload url outtmpl) w)
    | FetchSaved ext content =>
        (Ret tt,
         {| disk := <["downloads/" +:+ video_id +:+ "." +:+ ext := File content]> (disk w);
            trace := trace w ++ [EDownload url outtmpl] |})
    end.

(** [download_youtube_video(url)] *)
Definition download_youtube_video (url : string) : M string :=
  match video_id_match url with
  | None => raise (ValueError "Could not extract video ID from URL")
  | Some video_id_match =>
      let video_id := group1_str video_id_match in
      let output_filename := "downloads/" +:+ video_id +:+ ".mp4" in
      dir_there <- path_exists "downloads" ;;
      (if negb dir_there then makedirs "downloads" else ret tt) ;;;
      file_there <- path_exists output_filename ;;
      if file_there then
        emit (EToast ("Found " +:+ video_id +:+ " in cache. Skipping download!")) ;;;
        ret output_filename
      else
        ydl_download url video_id ;;;
        ret output_filename
  end.

(** The file-upload branch of the page: the bytes go to [temp_upload.mp4]. *)
Definition save_upload (bytes : string) : M string :=
  let target_file_path := "temp_upload.mp4" in
  write_file target_file_path bytes ;;;
  ret target_file_path.

(** The two ways a video reaches the disk. *)
Inductive MediaSource : Type :=
| YouTubeURL (yt_url : string)
| FileUpload (bytes : string).

Definition acquire (source : MediaSource) : M string :=
  match source with
  | YouTubeURL yt_url => download_youtube_video yt_url
  | FileUpload bytes => save_upload bytes
  end.

(** Successive acquisitions of one session; the page reports a failure and
    carries on, so the world is threaded through whatever each call gives. *)
Fixpoint acquire_all (sources : list MediaSource) (w : World) : World :=
  match sources with
  | [] => w
  | s :: rest => acquire_all rest (acquire s w).2
  end.

End Program.

(** ** JSON ([json.loads]) *)

#[local] Set Warnings "-register-all".

Module Json.

(** A decoded document.  An [int] is unbounded; a [float] is kept as the
    numeral it was read from, which determines it; the characters of a
    string are code points, since an escape can name any of them; a [dict]
    keeps its keys in the order they first appeared. *)
Inductive value : Type :=
| Null
| Bool (b : bool)
| Int (z : Z)
| Float (numeral : string)
| Str (s : list N)
| List (xs : list value)
| Dict (items : list (list N * value)).

(** How a scan ends when it gives no value.  A position in the text is
    given by [rem], the number of characters from it to the end; [free] is
    the number of frames that the recursion limit still allows at the
    place where the error is raised. *)
Inductive failure : Type :=
| Stop (rem : nat)                        (* StopIteration(idx): no value starts at idx *)
| Errmsg (msg : string) (rem free : nat)  (* raise_errmsg(msg, s, idx) *)
| Recursed (during : string)              (* the recursion limit is reached *)
| TooLong (digits : nat)                  (* int(numstr) refuses more than 4300 digits *)
| NoFuel.                                 (* the fuel of the model is used up *)

(** The code points of a text. *)
Definition codes (s : string) : list N := N_of_ascii <$> chars s.

Definition is_ws (c : ascii) : bool :=
  Ascii.eqb c " " || Ascii.eqb c "009" || Ascii.eqb c "010" || Ascii.eqb c "013".

Fixpoint skip_ws (s : list ascii) : list ascii :=
  match s with
  | c :: r => if is_ws c then skip_ws r else s
  | [] => []
  end.

Definition is_digit (c : ascii) : bool :=
  ((48 <=? N_of_ascii c) && (N_of_ascii c <=? 57))%N.

Fixpoint span_digits (s : list ascii) : list ascii * list ascii :=
  match s with
  | c :: r =>
      if is_digit c then let '(ds, r') := span_digits r in (c :: ds, r')
      else ([], s)
  | [] => ([], [])
  end.

Definition hex_val (c : ascii) : option N :=
  let n := N_of_ascii c in
  if ((48 <=? n) && (n <=? 57))%N then Some (n - 48)%N
  else if ((65 <=? n) && (n <=? 70))%N then Some (n - 55)%N
  else if ((97 <=? n) && (n <=? 102))%N then Some (n - 87)%N
  else None.

Definition hex4 (a b c d : ascii) : option N :=
  match hex_val a, hex_val b, hex_val c, hex_val d with
  | Some x, Some y, Some z, Some t => Some (4096 * x + 256 * y + 16 * z + t)%N
  | _, _, _, _ => None
  end.

Definition is_high_surrogate (u : N) : bool := ((55296 <=? u) && (u <=? 56319))%N.
Definition is_low_surrogate (u : N) : bool := ((56320 <=? u) && (u <=? 57343))%N.
Definition join_surrogates (hi lo : N) : N :=
  (65536 + ((hi - 55296) * 1024 + (lo - 56320)))%N.

(** The one-character escapes. *)
Definition simple_escape (c : ascii) : option N :=
  if Ascii.eqb c "034" then Some 34%N
  else if Ascii.eqb c "092" then Some 92%N
  else if Ascii.eqb c "/" then Some 47%N
  else if Ascii.eqb c "b" then Some 8%N
  else if Ascii.eqb c "f" then Some 12%N
  else if Ascii.eqb c "n" then Some 10%N
  else if Ascii.eqb c "r" then Some 13%N
  else if Ascii.eqb c "t" then Some 9%N
  else None.

(** The body of a string after its opening quote, in strict mode: up to the
    closing quote.  [begin] is the position of the opening quote.  A raw
    control character is an error at that character, an unknown escape at
    its backslash, and a [\u] escape at its [u] when its four digits are
    not hexadecimal or when fewer than five characters follow the [u].  A
    high surrogate escape followed by a low surrogate escape and by at
    least one more character is one code point. *)
Fixpoint scan_string (begin free : nat) (s : list ascii)
  : failure + (list N * list ascii) :=
  match s with
  | [] => inl (Errmsg "Unterminated string starting at" begin free)
  | c :: r =>
      if Ascii.eqb c "034" then inr ([], r)
      else if Ascii.eqb c "092" then
        match r with
        | [] => inl (Errmsg "Unterminated string starting at" begin free)
        | e :: r1 =>
            if Ascii.eqb e "u" then
              match r1 with
              | h1 :: h2 :: h3 :: h4 :: ((_ :: _) as r5) =>
                  match hex4 h1 h2 h3 h4 with
                  | None => inl (Errmsg "Invalid \uXXXX escape" (length r) free)
                  | Some u =>
                      let single :=
                        match scan_string begin free r5 with
                        | inr (cs, rest) => inr (u :: cs, rest)
                        | inl f => inl f
                        end in
                      if is_high_surrogate u then
                        match r5 with
                        | b :: ((v :: l1 :: l2 :: l3 :: l4 :: ((_ :: _) as r11)) as r6) =>
                            if Ascii.eqb b "092" && Ascii.eqb v "u" then
                              match hex4 l1 l2 l3 l4 with
                              | None => inl (Errmsg "Invalid \uXXXX escape" (length r6) free)
                              | Some u2 =>
                                  if is_low_surrogate u2 then
                                    match scan_string begin free r11 with
                                    | inr (cs, rest) => inr (join_surrogates u u2 :: cs, rest)
                                    | inl f => inl f
                                    end
                                  else single
                              end
                            else single
                        | _ => single
                        end
                      else single
                  end
              | _ => inl (Errmsg "Invalid \uXXXX escape" (length r) free)
              end
            else
              match simple_escape e with
              | None => inl (Errmsg "Invalid \escape" (length s) free)
              | Some n =>
                  match scan_string begin free r1 with
                  | inr (cs, rest) => inr (n :: cs, rest)
                  | inl f => inl f
                  end
              end
        end
      else if (N_of_ascii c <=? 31)%N then
        inl (Errmsg "Invalid control character at" (length s) free)
      else
        match scan_string begin free r with
        | inr (cs, rest) => inr (N_of_ascii c :: cs, rest)
        | inl f => inl f
        end
  end.

(** [int(numstr)] on a run of decimal digits. *)
Definition digits_value (ds : list ascii) : Z :=
  fold_left (fun acc d => (10 * acc + Z.of_N (N_of_ascii d - 48))%Z) ds 0%Z.

(** [sys.get_int_max_str_digits()], which the program leaves at its
    default: [int] refuses a numeral with more digits. *)
Definition int_max_str_digits : nat := 4300.

(** A number: an optional minus sign and either a lone zero or a run of
    digits that starts with a non-zero one; then a fraction if a digit
    follows the point; then an exponent if a digit follows the [e] and its
    sign.  With a fraction or an exponent it is a float, otherwise an int,
    which [int] converts if it has no more digits than it accepts. *)
Definition scan_number (s : list ascii) : failure + (value * list ascii) :=
  let '(neg, s1) :=
    match s with
    | c :: r => if Ascii.eqb c "-" then (true, r) else (false, s)
    | [] => (false, s)
    end in
  let int_part :=
    match s1 with
    | c :: r =>
        if Ascii.eqb c "0" then Some ([c], r)
        else if is_digit c then
          let '(ds, r') := span_digits r in Some (c :: ds, r')
        else None
    | [] => None
    end in
  match int_part with
  | None => inl (Stop (length s))
  | Some (ip, s2) =>
      let '(frac, s3) :=
        match s2 with
        | p :: d :: r =>
            if Ascii.eqb p "." && is_digit d then
              let '(ds, r') := span_digits r in ("."%char :: d :: ds, r')
            else ([], s2)
        | _ => ([], s2)
        end in
      let '(expo, s4) :=
        match s3 with
        | e :: r =>
            if Ascii.eqb e "e" || Ascii.eqb e "E" then
              let '(sign, r1) :=
                match r with
                | g :: r' =>
                    if Ascii.eqb g "-" || Ascii.eqb g "+" then ([g], r') else ([], r)
                | [] => ([], r)
                end in
              match span_digits r1 with
              | ([], _) => ([], s3)
              | (ds, r2) => (e :: sign ++ ds, r2)
              end
            else ([], s3)
        | [] => ([], s3)
        end in
      let minus := if neg then ["-"%char] else [] in
      match frac, expo with
      | [], [] =>
          if (int_max_str_digits <? length ip)%nat then inl (TooLong (length ip))
          else inr (Int (if neg then - digits_value ip else digits_value ip)%Z, s4)
      | _, _ => inr (Float (text (minus ++ ip ++ frac ++ expo)), s4)
      end
  end.

(** [d[key] = v] on the items of a dict. *)
Fixpoint dict_set (key : list N) (v : value) (items : list (list N * value))
  : list (list N * value) :=
  match items with
  | [] => [(key, v)]
  | (k, x) :: rest =>
      if decide (k = key) then (k, v) :: rest else (k, x) :: dict_set key v rest
  end.

(** [d.get(key)] on the items of a dict. *)
Fixpoint dict_lookup (key : list N) (items : list (list N * value)) : option value :=
  match items with
  | [] => None
  | (k, x) :: rest => if decide (k = key) then Some x else dict_lookup key rest
  end.

(** Does [s] start with the characters of [w]?  If so, what follows. *)
Fixpoint strip_prefix (w s : list ascii) : option (list ascii) :=
  match w, s with
  | [], _ => Some s
  | a :: w', b :: s' => if Ascii.eqb a b then strip_prefix w' s' else None
  | _ :: _, [] => None
  end.

(** [parse_constant(name)] for [NaN], [Infinity] and [-Infinity]: the
    scanner calls a Python object, which takes a frame. *)
Definition parse_constant (free : nat) (name : string) (rest : list ascii)
  : failure + (value * list ascii) :=
  match free with
  | O => inl (Recursed " while calling a Python object")
  | S _ => inr (Float name, rest)
  end.

(** A value that is neither a string, an object nor an array: one of the
    constants, tried in this order, or else a number. *)
Definition scan_literal (free : nat) (s : list ascii) : failure + (value * list ascii) :=
  match strip_prefix (chars "null") s, strip_prefix (chars "true") s,
        strip_prefix (chars "false") s, strip_prefix (chars "NaN") s,
        strip_prefix (chars "Infinity") s, strip_prefix (chars "-Infinity") s with
  | Some rest, _, _, _, _, _ => inr (Null, rest)
  | _, Some rest, _, _, _, _ => inr (Bool true, rest)
  | _, _, Some rest, _, _, _ => inr (Bool false, rest)
  | _, _, _, Some rest, _, _ => parse_constant free "NaN" rest
  | _, _, _, _, Some rest, _ => parse_constant free "Infinity" rest
  | _, _, _, _, _, Some rest => parse_constant free "-Infinity" rest
  | _, _, _, _, _, _ => scan_number s
  end.

(** The scanner: one value at the head of [s], and what follows it.
    Entering an object or an array takes one of the [free] frames; with
    none left the scan ends there.  Every call takes one unit of fuel. *)
Fixpoint scan_once (fuel free : nat) (s : list ascii) : failure + (value * list ascii) :=
  match fuel with
  | O => inl NoFuel
  | S fuel =>
      match s with
      | [] => inl (Stop 0)
      | c :: r =>
          if Ascii.eqb c "034" then
            match scan_string (length s) free r with
            | inr (cs, rest) => inr (Str cs, rest)
            | inl f => inl f
            end
          else if Ascii.eqb c "{" then
            match free with
            | O => inl (Recursed " while decoding a JSON object from a unicode string")
            | S free =>
                match skip_ws r with
                | c1 :: r1 =>
                    if Ascii.eqb c1 "}" then inr (Dict [], r1)
                    else scan_members fuel free (c1 :: r1) []
                | [] =>
                    inl (Errmsg "Expecting property name enclosed in double quotes" 0 free)
                end
            end
          else if Ascii.eqb c "[" then
            match free with
            | O => inl (Recursed " while decoding a JSON array from a unicode string")
            | S free =>
                match skip_ws r with
                | c1 :: r1 =>
                    if Ascii.eqb c1 "]" then inr (List [], r1)
                    else scan_elements fuel free (c1 :: r1) []
                | [] => inl (Stop 0)
                end
            end
          else scan_literal free s
      end
  end

(** The pairs of an object, [s] where the quote of the next key should be. *)
with scan_members (fuel free : nat) (s : list ascii) (acc : list (list N * value))
  : failure + (value * list ascii) :=
  match fuel with
  | O => inl NoFuel
  | S fuel =>
      let no_key :=
        inl (Errmsg "Expecting property name enclosed in double quotes" (length s) free) in
      match s with
      | q :: r =>
          if Ascii.eqb q "034" then
            match scan_string (length s) free r with
            | inl f => inl f
            | inr (key, r1) =>
                match skip_ws r1 with
                | colon :: r2 =>
                    if Ascii.eqb colon ":" then
                      match scan_once fuel free (skip_ws r2) with
                      | inl f => inl f
                      | inr (v, r3) =>
                          let acc' := dict_set key v acc in
                          match skip_ws r3 with
                          | d :: r4 =>
                              if Ascii.eqb d "}" then inr (Dict acc', r4)
                              else if Ascii.eqb d "," then
                                scan_members fuel free (skip_ws r4) acc'
                              else inl (Errmsg "Expecting ',' delimiter" (length (d :: r4)) free)
                          | [] => inl (Errmsg "Expecting ',' delimiter" 0 free)
                          end
                      end
                    else inl (Errmsg "Expecting ':' delimiter" (length (colon :: r2)) free)
                | [] => inl (Errmsg "Expecting ':' delimiter" 0 free)
                end
            end
          else no_key
      | [] => no_key
      end
  end

(** The items of an array, [s] at the start of the next item. *)
with scan_elements (fuel free : nat) (s : list ascii) (acc : list value)
  : failure + (value * list ascii) :=
  match fuel with
  | O => inl NoFuel
  | S fuel =>
      match scan_once fuel free s with
      | inl f => inl f
      | inr (v, r1) =>
          match skip_ws r1 with
          | d :: r2 =>
              if Ascii.eqb d "]" then inr (List (acc ++ [v]), r2)
              else if Ascii.eqb d "," then scan_elements fuel free (skip_ws r2) (acc ++ [v])
              else inl (Errmsg "Expecting ',' delimiter" (length (d :: r2)) free)
          | [] => inl (Errmsg "Expecting ',' delimiter" 0 free)
          end
      end
  end.

(** [JSONDecodeError(msg, doc, pos)] raised with [free] frames left.  The
    call of the class, its [__init__] and the call of [ValueError.__init__]
    in it take a frame each: with fewer than three left the interpreter
    raises [RecursionError] at the one that does not fit. *)
Definition raise_errmsg (free : nat) (msg doc : string) (pos : nat) : exn :=
  match free with
  | 0 | 2 => RecursionError "maximum recursion depth exceeded while calling a Python object"
  | 1 => RecursionError "maximum recursion depth exceeded"
  | _ => JSONDecodeError msg doc pos
  end.

(** [str(n)] for a natural number. *)
Definition decimal (n : nat) : string := NilZero.string_of_uint (Nat.to_uint n).

(** [json.loads(s)], called where the scanner can go [depth] containers
    deep: one value between optional white space, and nothing else.  A
    position is counted from the start of the text.  [StopIteration] is
    turned into [Expecting value] by [raw_decode], one frame above the
    scanner, and [Extra data] is raised by [decode], two frames above.
    Two units of fuel per character are enough for any text
    ([loads_ends] below). *)
Definition loads (depth : nat) (s : string) : result value :=
  let cs := chars s in
  let pos rem := length cs - rem in
  match scan_once (2 * length cs + 2) depth (skip_ws cs) with
  | inr (v, rest) =>
      match skip_ws rest with
      | [] => Ret v
      | r => Raise (raise_errmsg (depth + 2) "Extra data" s (pos (length r)))
      end
  | inl (Stop rem) => Raise (raise_errmsg (depth + 1) "Expecting value" s (pos rem))
  | inl (Errmsg msg rem free) => Raise (raise_errmsg free msg s (pos rem))
  | inl (Recursed during) =>
      Raise (RecursionError ("maximum recursion depth exceeded" +:+ during))
  | inl (TooLong digits) =>
      Raise (ValueError ("Exceeds the limit (" +:+ decimal int_max_str_digits
                         +:+ " digits) for integer string conversion: value has "
                         +:+ decimal digits
                         +:+ " digits; use sys.set_int_max_str_digits() to increase the limit"))
  | inl NoFuel => Running
  end.

End Json.

(** ** Response schemas *)

(** The schema dictionaries handed to the model, as trees. *)
Inductive schema : Type :=
| INTEGER (description : string)
| STRING (enum : list string)            (* [[]]: no enumeration *)
| ARRAY (items : schema)
| OBJECT (properties : list (string * schema)).

Definition visual_schema : schema :=
  OBJECT [
    ("visual_score", INTEGER "0-100 authenticity score.");
    ("visual_verdict", STRING ["Real"; "Fake"; "Uncertain"]);
    ("visual_anomalies",
      ARRAY (OBJECT [("time", STRING []); ("desc", STRING [])]))
  ].

Definition audio_schema : schema :=
  OBJECT [
    ("audio_score", INTEGER "0-100 authenticity score.");
    ("audio_verdict", STRING ["Natural"; "Synthetic"; "Mixed/Edited"]);
    ("acoustic_analysis", STRING []);
    ("detected_issues", ARRAY (STRING []))
  ].

(** What it means for a decoded document to follow a schema, in the two
    readings of the specification: every declared property that is present
    has the declared type (and, for an enumerated string, one of the
    listed values); with [required], every declared property is present
    too.  The program has no such check: this is the yardstick the
    classifiers are measured against. *)
Fixpoint conforms (required : bool) (sch : schema) (v : Json.value) {struct sch} : bool :=
  match sch, v with
  | INTEGER _, Json.Int _ => true
  | STRING enum, Json.Str s =>
      match enum with
      | [] => true
      | _ => existsb (fun e => bool_decide (Json.codes e = s)) enum
      end
  | ARRAY items, Json.List xs => forallb (conforms required items) xs
  | OBJECT properties, Json.Dict kvs =>
      (fix props (ps : list (string * schema)) : bool :=
         match ps with
         | [] => true
         | (k, sub) :: ps' =>
             match Json.dict_lookup (Json.codes k) kvs with
             | Some x => conforms required sub x
             | None => negb required
             end && props ps'
         end) properties
  | _, _ => false
  end.

(** ** Ingestion and classification *)

Definition VIDEO_MODEL_ID : string := "gemini-2.5-pro".
Definition AUDIO_MODEL_ID : string := "gemini-2.0-flash".

Definition visual_prompt : string :=
  "Analyze frame-by-frame for deepfake artifacts, unnatural blinking, and shadow errors.".
Definition audio_prompt : string :=
  "Listen for AI voice artifacts: metallic robotic ends of words, flat pitch, lack of breath.".

(** The line and the column of a position in a text, as [JSONDecodeError]
    counts them: both from 1, and a newline ends its line. *)
Definition line_col (doc : string) (pos : nat) : nat * nat :=
  fold_left (fun lc ch => if Ascii.eqb ch "010" then (S lc.1, 1) else (lc.1, S lc.2))
            (take pos (chars doc)) (1, 1).

(** [str(e)], the text that the page shows for an exception. *)
Definition exn_str (e : exn) : string :=
  match e with
  | ValueError msg | DownloadError msg | RecursionError msg | TypeError msg
  | AttributeError msg | MediaFileStorageError msg | APIError msg => msg
  | IsADirectoryError path => "[Errno 21] Is a directory: '" +:+ path +:+ "'"
  | JSONDecodeError msg doc pos =>
      msg +:+ ": line " +:+ Json.decimal (line_col doc pos).1
      +:+ " column " +:+ Json.decimal (line_col doc pos).2
      +:+ " (char " +:+ Json.decimal pos +:+ ")"
  end.

(** The loop has used up its fuel and is still polling. *)
Definition running {A} : M A := fun w => (Running, w).

Section Pipeline.
Context (env : Env).

(** [client.files.upload(file=file_path)] *)
Definition client_files_upload (file_path : string) : M FileObj :=
  fun w =>
    match files_upload env file_path with
    | inl e => (Raise e, log (EUpload file_path) w)
    | inr f => (Ret f, log (EUpload file_path) w)
    end.

(** [client.files.get(name=...)], the [k]-th status request. *)
Definition client_files_get (k : nat) (file_name : string) : M FileObj :=
  fun w =>
    match files_get env k file_name with
    | inl e => (Raise e, log (EGet file_name) w)
    | inr f => (Ret f, log (EGet file_name) w)
    end.

(** [while video_file.state == "PROCESSING": time.sleep(1);
    video_file = client.files.get(name=video_file.name)], with [k] status
    requests made so far.  One unit of fuel per turn of the loop. *)
Fixpoint poll (fuel : nat) (k : nat) (video_file : FileObj) : M FileObj :=
  if String.eqb (state video_file) "PROCESSING" then
    match fuel with
    | O => running
    | S fuel' =>
        emit (ESleep 1) ;;;
        video_file' <- client_files_get k (name video_file) ;;
        poll fuel' (S k) video_file'
    end
  else ret video_file.

(** [upload_to_gemini(file_path, mime_type="video/mp4")]; the body does not
    use [mime_type]. *)
Definition upload_to_gemini (fuel : nat) (file_path : string) (mime_type : string)
  : M FileObj :=
  emit (EPrint ("Uploading " +:+ file_path +:+ "...")) ;;;
  video_file <- client_files_upload file_path ;;
  video_file <- poll fuel 0 video_file ;;
  if String.eqb (state video_file) "FAILED" then
    raise (ValueError "Video processing failed at Google's end.")
  else ret video_file.

(** [client.models.generate_content(model=..., contents=[file part, text
    part], config=JSON with the schema)], then [response.text]. *)
Definition generate_text (model : string) (file_obj : FileObj) (prompt : string)
  : M (option string) :=
  fun w =>
    let e := EGenerate model (uri file_obj) (mime_type file_obj) prompt in
    match generate_content env (trace w) model (uri file_obj) prompt with
    | GenFailed msg => (Raise (APIError msg), log e w)
    | GenText txt => (Ret txt, log e w)
    end.

(** [json.loads(response.text)] *)
Definition json_loads (txt : option string) : M Json.value :=
  match txt with
  | None => raise (TypeError "the JSON object must be str, bytes or bytearray, not NoneType")
  | Some t => fun w => (Json.loads (json_depth env) t, w)
  end.

Definition analyze_visuals (file_obj : FileObj) : M Json.value :=
  txt <- generate_text VIDEO_MODEL_ID file_obj visual_prompt ;;
  json_loads txt.

Definition analyze_audio (file_obj : FileObj) : M Json.value :=
  txt <- generate_text AUDIO_MODEL_ID file_obj audio_prompt ;;
  json_loads txt.

(** The body of the [try] of the analysis block up to the dashboard: the
    file is uploaded and the two analyses run one after the other. *)
Definition gather (fuel : nat) (target_file_path : string)
  : M (Json.value * Json.value) :=
  gemini_file <- upload_to_gemini fuel target_file_path "video/mp4" ;;
  visual_res <- analyze_visuals gemini_file ;;
  audio_res <- analyze_audio gemini_file ;;
  ret (visual_res, audio_res).

(** The analysis block of the page, up to the point where both results are
    in hand: the video is shown, outside the [try], so that an exception of
    [st.video] ends the run; then the [try], in which any exception is
    reported with [st.error].  Drawing the two results comes with
    [analysis_block] below. *)
Definition analysis_logic (fuel : nat) (target_file_path : string)
  : M (option (Json.value * Json.value)) :=
  st_video target_file_path ;;;
  try_except
    (results <- gather fuel target_file_path ;; ret (Some results))
    (fun e => emit (EError ("Analysis failed: " +:+ exn_str e)) ;;; ret None).

(** The input block of the page: a URL is downloaded inside [try]; an
    upload is written to disk.  The result is [target_file_path] when
    [process_trigger] is set. *)
Definition input_logic (source : MediaSource) : M (option string) :=
  match source with
  | YouTubeURL yt_url =>
      if String.eqb yt_url EmptyString then ret None
      else
        try_except
          (p <- download_youtube_video env yt_url ;; ret (Some p))
          (fun e => emit (EError ("Could not download video: " +:+ exn_str e)) ;;; ret None)
  | FileUpload bytes =>
      p <- save_upload bytes ;; ret (Some p)
  end.

(** One run of the page. *)
Definition page (fuel : nat) (source : MediaSource)
  : M (option (Json.value * Json.value)) :=
  target <- input_logic source ;;
  match target with
  | Some target_file_path => analysis_logic fuel target_file_path
  | None => ret None
  end.

End Pipeline.

(** [type(v).__name__] of a decoded value. *)
Definition type_name (v : Json.value) : string :=
  match v with
  | Json.Null => "NoneType"
  | Json.Bool _ => "bool"
  | Json.Int _ => "int"
  | Json.Float _ => "float"
  | Json.Str _ => "str"
  | Json.List _ => "list"
  | Json.Dict _ => "dict"
  end.

(** [res.get(key, default)] as the dashboard calls it on a result: only a
    [dict] has the method. *)
Definition py_get (res : Json.value) (key : string) (default : Json.value)
  : exn + Json.value :=
  match res with
  | Json.Dict items =>
      match Json.dict_lookup (Json.codes key) items with
      | Some v => inr v
      | None => inr default
      end
  | _ => inl (AttributeError ("'" +:+ type_name res +:+ "' object has no attribute 'get'"))
  end.

(** [v_score = visual_res.get("visual_score", 0)] *)
Definition v_score (visual_res : Json.value) : exn + Json.value :=
  py_get visual_res "visual_score" (Json.Int 0).

(** [a_score = audio_res.get("audio_score", 0)] *)
Definition a_score (audio_res : Json.value) : exn + Json.value :=
  py_get audio_res "audio_score" (Json.Int 0).

(** ** Vocabulary of the properties *)

(** The key and the path that [download_youtube_video] works with:
    [video_id] and [output_filename]. *)
Definition derived_key (url : string) : option string :=
  group1_str <$> video_id_match url.

Definition cache_path (video_id : string) : string :=
  "downloads/" +:+ video_id +:+ ".mp4".

(** The key of a source: that of its URL; an upload has none. *)
Definition source_key (source : MediaSource) : option string :=
  match source with
  | YouTubeURL yt_url => derived_key yt_url
  | FileUpload _ => None
  end.

(** A downloader that stores what it fetches under the extension [mp4]. *)
Definition stores_mp4 (env : Env) : Prop :=
  forall tr url ext content, ydl env tr url = FetchSaved ext content -> ext = "mp4".

(** How many acquisitions of a sequence change what the disk holds at [p]. *)
Fixpoint changes_at (env : Env) (p : string) (sources : list MediaSource) (w : World) : nat :=
  match sources with
  | [] => 0
  | s :: rest =>
      let w' := (acquire env s w).2 in
      (if decide (disk w' !! p = disk w !! p) then 0 else 1) + changes_at env p rest w'
  end.

(** What may follow the identifier, as the pattern has it. *)
Definition ends_id (rest : list ascii) : bool :=
  match rest with
  | [] => true
  | c :: r =>
      Ascii.eqb c "?" || Ascii.eqb c "&" || Ascii.eqb c "/"
      || (Ascii.eqb c "010" && bool_decide (r = []))
  end.

(** The pattern read as a statement about the text [s]: at offset [pos]
    stands [v=] or [/], then the eleven characters [id] of the set
    [[\w-]], then an end as above. *)
Definition pattern_at (s : list ascii) (pos : nat) (id : list ascii) : Prop :=
  exists pre sep rest,
    s = pre ++ sep ++ id ++ rest /\ length pre = pos
    /\ (sep = chars "v=" \/ sep = chars "/")
    /\ length id = 11 /\ forallb Re.word_or_dash id = true
    /\ ends_id rest = true.

(** The narrower description given in prose: the characters are ASCII
    letters, digits, underscore or hyphen, and the identifier is followed
    by [?], [&], [/] or nothing. *)
Definition is_id_char (c : ascii) : bool :=
  let n := N_of_ascii c in
  ((48 <=? n) && (n <=? 57) || (65 <=? n) && (n <=? 90)
   || (97 <=? n) && (n <=? 122) || (n =? 95) || (n =? 45))%N.

Definition prose_end (rest : list ascii) : bool :=
  match rest with
  | [] => true
  | c :: _ => Ascii.eqb c "?" || Ascii.eqb c "&" || Ascii.eqb c "/"
  end.

Definition token_at (url : string) (pos : nat) (id : string) : Prop :=
  exists pre sep rest,
    chars url = pre ++ sep ++ chars id ++ rest /\ length pre = pos
    /\ (sep = chars "v=" \/ sep = chars "/")
    /\ length (chars id) = 11 /\ forallb is_id_char (chars id) = true
    /\ prose_end rest = true.

(** The attempt of the pattern at the head of [s], written out. *)
Definition id_here (s : list ascii) : option (list ascii) :=
  let after_sep :=
    match s with
    | c :: r =>
        if Ascii.eqb c "/" then Some r
        else if Ascii.eqb c "v" then
          match r with
          | d :: r' => if Ascii.eqb d "=" then Some r' else None
          | [] => None
          end
        else None
    | [] => None
    end in
  match after_sep with
  | Some r =>
      if (11 <=? length r)%nat && forallb Re.word_or_dash (take 11 r)
         && ends_id (drop 11 r)
      then Some (take 11 r) else None
  | None => None
  end.

(** Fetches in a trace whose output template is that of [video_id]. *)
Definition is_fetch_of (video_id : string) (e : event) : bool :=
  match e with
  | EDownload _ outtmpl => String.eqb outtmpl ("downloads/" +:+ video_id +:+ ".%(ext)s")
  | _ => false
  end.

Definition fetch_count (video_id : string) (tr : list event) : nat :=
  length (filter (fun e => is_fetch_of video_id e = true) tr).

Definition is_generate (e : event) : bool :=
  match e with EGenerate _ _ _ _ => true | _ => false end.

(** The handle in hand after [n] status requests, starting from the handle
    [f] with [k] requests made before; [inl] when a request raised. *)
Fixpoint observe (env : Env) (k : nat) (f : FileObj) (n : nat) : exn + FileObj :=
  match n with
  | O => inr f
  | S n' =>
      match files_get env k (name f) with
      | inl e => inl e
      | inr f' => observe env (S k) f' n'
      end
  end.

(** The events of [n] turns of the polling loop from [f]. *)
Fixpoint poll_events (env : Env) (k : nat) (f : FileObj) (n : nat) : list event :=
  match n with
  | O => []
  | S n' =>
      ESleep 1 :: EGet (name f) ::
      match files_get env k (name f) with
      | inl _ => []
      | inr f' => poll_events env (S k) f' n'
      end
  end.

(** A file store that follows a script: the upload answers with a handle in
    state [first], the [k]-th status request with one in state
    [nth k later "PROCESSING"]. *)
Definition handle_in (st : string) : FileObj :=
  {| name := "files/video"; uri := "https://store.example/files/video";
     mime_type := "video/mp4"; state := st |}.

Definition scripted_env (first : string) (later : list string)
    (dl : fetch_outcome) (answers : string -> gen_outcome) : Env :=
  {| ydl := fun _ _ => dl;
     files_upload := fun _ => inr (handle_in first);
     files_get := fun k _ => inr (handle_in (nth k later "PROCESSING"));
     generate_content := fun _ model _ _ => answers model;
     nesting := 994 |}.

Definition empty_world : World := {| disk := ∅; trace := [] |}.

(** A decidable test for "the pattern matches nowhere before [pos]". *)
Definition none_before (s : list ascii) (pos : nat) : bool :=
  forallb (fun j => bool_decide (id_here (drop j s) = None)) (seq 0 pos).

(** Up to the [n]-th status request every handle seen is still being
    processed. *)
Definition still_processing (env : Env) (k : nat) (f : FileObj) (n : nat) : Prop :=
  forall i, i < n -> exists h, observe env k f i = inr h /\ state h = "PROCESSING".

(** The world after the events [evs], the disk untouched. *)
Definition extend (w : World) (evs : list event) : World :=
  {| disk := disk w; trace := trace w ++ evs |}.

(** The two events with which [upload_to_gemini] starts. *)
Definition upload_events (file_path : string) : list event :=
  [EPrint ("Uploading " +:+ file_path +:+ "..."); EUpload file_path].

(** [ValueError("Video processing failed at Google's end.")] *)
Definition failed_error : exn := ValueError "Video processing failed at Google's end.".

(** The two generation requests for the handle [f]. *)
Definition visual_call (f : FileObj) : event :=
  EGenerate VIDEO_MODEL_ID (uri f) (mime_type f) visual_prompt.
Definition audio_call (f : FileObj) : event :=
  EGenerate AUDIO_MODEL_ID (uri f) (mime_type f) audio_prompt.

(** What [json.loads(response.text)] makes of an answer, where the scanner
    can go [depth] containers deep. *)
Definition decoded (depth : nat) (g : gen_outcome) : result Json.value :=
  match g with
  | GenFailed msg => Raise (APIError msg)
  | GenText None =>
      Raise (TypeError "the JSON object must be str, bytes or bytearray, not NoneType")
  | GenText (Some t) => Json.loads depth t
  end.

(** Sample collaborators and disks. *)
Definition failing_env : Env :=
  scripted_env "PROCESSING" [] (FetchFailed "Video unavailable") (fun _ => GenFailed "offline").
Definition webm_env : Env :=
  scripted_env "PROCESSING" [] (FetchSaved "webm" "webm bytes") (fun _ => GenFailed "offline").
Definition mp4_env : Env :=
  scripted_env "PROCESSING" [] (FetchSaved "mp4" "mp4 bytes") (fun _ => GenFailed "offline").
Definition unspecified_env : Env :=
  scripted_env "STATE_UNSPECIFIED" [] (FetchFailed "offline") (fun _ => GenText (Some "{}")).

(** [s] between double quotes. *)
Definition quoted (s : string) : string :=
  String "034" (s +:+ String "034" EmptyString).

(** A model that answers the visual request with a score that is a string
    and the audio request with an empty object. *)
Definition sloppy_env : Env :=
  scripted_env "ACTIVE" [] (FetchFailed "offline")
    (fun model =>
       if String.eqb model VIDEO_MODEL_ID
       then GenText (Some ("{" +:+ quoted "visual_score" +:+ ": " +:+ quoted "high" +:+ "}"))
       else GenText (Some "{}")).

Definition cached_world : World :=
  {| disk := <["downloads/dQw4w9WgXcQ.mp4" := File "old bytes"]> (<["downloads" := Dir]> ∅);
     trace := [] |}.

(** For the scanner of JSON: with two units of fuel per character, and
    one or two more, the fuel is not used up, more of it changes nothing,
    and a successful scan consumes at least one character. *)
Definition once_ok (s : list ascii) : Prop :=
  forall free f1 f2, 2 * length s + 1 <= f1 -> 2 * length s + 1 <= f2 ->
    Json.scan_once f1 free s = Json.scan_once f2 free s
    /\ Json.scan_once f1 free s <> inl Json.NoFuel
    /\ forall v r, Json.scan_once f1 free s = inr (v, r) -> length r < length s.

Definition members_ok (s : list ascii) : Prop :=
  forall free acc f1 f2, 2 * length s + 2 <= f1 -> 2 * length s + 2 <= f2 ->
    Json.scan_members f1 free s acc = Json.scan_members f2 free s acc
    /\ Json.scan_members f1 free s acc <> inl Json.NoFuel
    /\ forall v r, Json.scan_members f1 free s acc = inr (v, r) -> length r < length s.

Definition elements_ok (s : list ascii) : Prop :=
  forall free acc f1 f2, 2 * length s + 2 <= f1 -> 2 * length s + 2 <= f2 ->
    Json.scan_elements f1 free s acc = Json.scan_elements f2 free s acc
    /\ Json.scan_elements f1 free s acc <> inl Json.NoFuel
    /\ forall v r, Json.scan_elements f1 free s acc = inr (v, r) -> length r < length s.

(** ** The results dashboard *)

(** An exception raised while the dashboard is drawn: one of [exn], or a
    [KeyError] for a key that a dict does not have. *)
Inductive raised : Type :=
| Exn (e : exn)
| KeyError (key : string).

(** [str(e)] *)
Definition raised_str (e : raised) : string :=
  match e with
  | Exn e => exn_str e
  | KeyError key => "'" +:+ key +:+ "'"
  end.

(** What the program asks of a [float]: whether the double read from a
    numeral exceeds an integer, and whether it is non-zero.  Doubles are
    not modelled, so both are taken as given. *)
Record Floats : Type := {
  float_gt : string -> Z -> bool;
  float_truth : string -> bool
}.

(** [bool(v)], as [if v:] takes it. *)
Definition truthy (fl : Floats) (v : Json.value) : bool :=
  match v with
  | Json.Null => false
  | Json.Bool b => b
  | Json.Int z => negb (z =? 0)%Z
  | Json.Float numeral => float_truth fl numeral
  | Json.Str s => negb (bool_decide (s = []))
  | Json.List xs => match xs with [] => false | _ => true end
  | Json.Dict items => match items with [] => false | _ => true end
  end.

(** [v > n] for an [int] literal [n]: numbers compare, [True] and [False]
    count as 1 and 0, anything else is a [TypeError]. *)
Definition gt (fl : Floats) (v : Json.value) (n : Z) : raised + bool :=
  match v with
  | Json.Int z => inr (n <? z)%Z
  | Json.Bool b => inr (n <? (if b then 1 else 0))%Z
  | Json.Float numeral => inr (float_gt fl numeral n)
  | _ => inl (Exn (TypeError ("'>' not supported between instances of '"
                              +:+ type_name v +:+ "' and 'int'")))
  end.

(** The items that [for x in v] goes through: the elements of a list, the
    characters of a string, the keys of a dict; nothing else iterates. *)
Definition iterate (v : Json.value) : raised + list Json.value :=
  match v with
  | Json.List xs => inr xs
  | Json.Str s => inr ((fun c => Json.Str [c]) <$> s)
  | Json.Dict items => inr ((fun kv => Json.Str kv.1) <$> items)
  | _ => inl (Exn (TypeError ("'" +:+ type_name v +:+ "' object is not iterable")))
  end.

(** [v[key]] for a string [key]. *)
Definition subscript (v : Json.value) (key : string) : raised + Json.value :=
  match v with
  | Json.Dict items =>
      match Json.dict_lookup (Json.codes key) items with
      | Some x => inr x
      | None => inl (KeyError key)
      end
  | Json.Str _ => inl (Exn (TypeError "string indices must be integers, not 'str'"))
  | Json.List _ => inl (Exn (TypeError "list indices must be integers or slices, not str"))
  | _ => inl (Exn (TypeError ("'" +:+ type_name v +:+ "' object is not subscriptable")))
  end.

(** What the dashboard puts on the page.  A widget records the values
    that go into its text, not the text: how Python prints a value is not
    modelled. *)
Inductive widget : Type :=
| Divider                                        (* st.divider() *)
| Columns (n : nat)                              (* st.columns(n) *)
| ScoreLine (title color : string) (score : Json.value)
    (* st.markdown(f"### ... <title>: <span style='color:{color}'>{score}/100</span>",
                   unsafe_allow_html=True) *)
| Caption (verdict : Json.value)                 (* st.caption(verdict) *)
| Warning (time desc : Json.value)               (* st.warning(f"**{time}**: {desc}") *)
| Success (msg : string)                         (* st.success(msg) *)
| Info (analysis : Json.value)                   (* st.info(f"**Analysis:** {analysis}") *)
| Issue (issue : Json.value).                    (* st.error(f"Detected: {issue}") *)

(** Drawing: the widgets put on the page so far, then a value or the
    exception that stopped the drawing. *)
Definition Dash (A : Type) : Type := list widget * (raised + A).

Definition dret {A} (a : A) : Dash A := ([], inr a).
Definition dbind {A B} (c : Dash A) (k : A -> Dash B) : Dash B :=
  match c with
  | (ws, inl e) => (ws, inl e)
  | (ws, inr a) => let '(ws', r) := k a in (ws ++ ws', r)
  end.
Definition show (x : widget) : Dash unit := ([x], inr tt).
Definition eval {A} (x : raised + A) : Dash A := ([], x).
Definition eval_exn {A} (x : exn + A) : Dash A :=
  ([], match x with inl e => inl (Exn e) | inr a => inr a end).

Notation "x <~ c ;; k" := (dbind c (fun x => k))
  (at level 100, c at next level, right associativity).
Notation "c ~;; k" := (dbind c (fun _ => k))
  (at level 100, right associativity).

(** [for x in items: body(x)] *)
Fixpoint for_each (items : list Json.value) (body : Json.value -> Dash unit) : Dash unit :=
  match items with
  | [] => dret tt
  | x :: rest => body x ~;; for_each rest body
  end.

(** The body of [with col1:], the visual report. *)
Definition visual_report (fl : Floats) (visual_res : Json.value) : Dash unit :=
  score <~ eval_exn (v_score visual_res) ;;
  above <~ eval (gt fl score 80) ;;
  let v_color := if above then "green" else "red" in
  show (ScoreLine "Visual" v_color score) ~;;
  verdict <~ eval_exn (py_get visual_res "visual_verdict" Json.Null) ;;
  show (Caption verdict) ~;;
  anomalies <~ eval_exn (py_get visual_res "visual_anomalies" (Json.List [])) ;;
  if truthy fl anomalies then
    items <~ eval (iterate anomalies) ;;
    for_each items (fun a =>
      time <~ eval (subscript a "time") ;;
      desc <~ eval (subscript a "desc") ;;
      show (Warning time desc))
  else
    show (Success "No visual anomalies detected.").

(** The body of [with col2:], the audio report. *)
Definition audio_report (fl : Floats) (audio_res : Json.value) : Dash unit :=
  score <~ eval_exn (a_score audio_res) ;;
  above <~ eval (gt fl score 80) ;;
  let a_color := if above then "green" else "red" in
  show (ScoreLine "Audio" a_color score) ~;;
  verdict <~ eval_exn (py_get audio_res "audio_verdict" Json.Null) ;;
  show (Caption verdict) ~;;
  analysis <~ eval_exn (py_get audio_res "acoustic_analysis" Json.Null) ;;
  show (Info analysis) ~;;
  issues <~ eval_exn (py_get audio_res "detected_issues" (Json.List [])) ;;
  items <~ eval (iterate issues) ;;
  for_each items (fun issue => show (Issue issue)).

(** The results dashboard: a divider, two columns, the visual report in
    the first and the audio report in the second. *)
Definition results_dashboard (fl : Floats) (visual_res audio_res : Json.value) : Dash unit :=
  show Divider ~;;
  show (Columns 2) ~;;
  visual_report fl visual_res ~;;
  audio_report fl audio_res.

(** The analysis block of the page with the dashboard in it: [st.video],
    then the whole of the [try], and the [except] that reports whatever
    was raised in it.  The result is the world and the widgets of the
    dashboard; the computation is [Running] only when the polling loop is,
    and it raises only what [st.video] raises. *)
Definition analysis_block (fl : Floats) (env : Env) (fuel : nat) (target_file_path : string)
    (w : World) : result unit * World * list widget :=
  match st_video target_file_path w with
  | (Ret _, w0) =>
      match gather env fuel target_file_path w0 with
      | (Ret (visual_res, audio_res), w1) =>
          match results_dashboard fl visual_res audio_res with
          | (ws, inr _) => (Ret tt, w1, ws)
          | (ws, inl e) =>
              (Ret tt, log (EError ("Analysis failed: " +:+ raised_str e)) w1, ws)
          end
      | (Raise e, w1) => (Ret tt, log (EError ("Analysis failed: " +:+ exn_str e)) w1, [])
      | (Running, w1) => (Running, w1, [])
      end
  | (Raise e, w0) => (Raise e, w0, [])
  | (Running, w0) => (Running, w0, [])
  end.

(** Sample values. *)
Definition no_floats : Floats :=
  {| float_gt := fun _ _ => false; float_truth := fun _ => true |}.

Definition anomaly (time desc : string) : Json.value :=
  Json.Dict [(Json.codes "time", Json.Str (Json.codes time));
             (Json.codes "desc", Json.Str (Json.codes desc))].

(** The score of a score line is a number: an [int], a [bool] or a
    [float], never a string or a container. *)
Definition numeric (v : Json.value) : bool :=
  match v with
  | Json.Int _ | Json.Bool _ | Json.Float _ => true
  | _ => false
  end.

Definition score_is_numeric (x : widget) : bool :=
  match x with
  | ScoreLine _ _ score => numeric score
  | _ => true
  end.

(** Status requests in a trace. *)
Definition is_get (e : event) : bool :=
  match e with EGet _ => true | _ => false end.

(** A character that opens what may follow an identifier: [?], [&], [/]. *)
Definition starts_tail (c : ascii) : bool :=
  Ascii.eqb c "?" || Ascii.eqb c "&" || Ascii.eqb c "/".

(** The widget of one anomaly, or what its two subscripts raise. *)
Definition warning_of (a : Json.value) : raised + widget :=
  match subscript a "time" with
  | inl e => inl e
  | inr t =>
      match subscript a "desc" with
      | inl e => inl e
      | inr d => inr (Warning t d)
      end
  end.

(** The loop of the visual report over the anomalies. *)
Definition anomaly_loop (items : list Json.value) : Dash unit :=
  for_each items (fun a =>
    time <~ eval (subscript a "time") ;;
    desc <~ eval (subscript a "desc") ;;
    show (Warning time desc)).

(** More sample collaborators and disks. *)
Definition flaky_env : Env :=
  {| ydl := fun _ _ => FetchFailed "offline";
     files_upload := fun _ => inr (handle_in "PROCESSING");
     files_get := fun k _ =>
       match k with
       | 0 => inr (handle_in "PROCESSING")
       | _ => inl (APIError "503 Service Unavailable")
       end;
     generate_content := fun _ _ _ _ => GenFailed "offline";
     nesting := 994 |}.

Definition audio_down_env : Env :=
  scripted_env "ACTIVE" [] (FetchFailed "offline")
    (fun model =>
       if String.eqb model VIDEO_MODEL_ID then GenText (Some "{}")
       else GenFailed "429 quota exceeded").

(** A model that answers with two objects in a row. *)
Definition garbled_env : Env :=
  scripted_env "ACTIVE" [] (FetchFailed "offline") (fun _ => GenText (Some "{} {}")).

Definition blocked_world : World :=
  {| disk := <["temp_upload.mp4" := Dir]> ∅; trace := [] |}.

(** * Properties *)

(** ** The regular-expression engine on the identifier pattern *)

Section RegexFacts.

Lemma run_rep_cls {R} (p : ascii -> bool) (n : nat) :
  forall (s : list ascii) g (k : list ascii -> option (list ascii) -> option R),
    Re.run (Re.Rep (Re.Cls p) n) s g k
    = if (n <=? length s)%nat && forallb p (take n s)
      then k (drop n s) g else None.
Proof.
  induction n as [|n IH]; intros s g k.
  - reflexivity.
  - destruct s as [|c s]; [reflexivity|].
    simpl Re.run. simpl in IH. rewrite IH.
    simpl. destruct (p c); simpl.
    + reflexivity.
    + rewrite andb_false_r. reflexivity.
Qed.

Lemma run_chr {R} a (s : list ascii) g (k : list ascii -> option (list ascii) -> option R) :
  Re.run (Re.Chr a) s g k
  = match s with c :: r => if Ascii.eqb c a then k r g else None | [] => None end.
Proof. destruct s; [reflexivity|]. simpl. rewrite Ascii.eqb_sym. reflexivity. Qed.

Lemma run_alt {R} a b (s : list ascii) g (k : list ascii -> option (list ascii) -> option R) :
  Re.run (Re.Alt a b) s g k
  = match Re.run a s g k with Some x => Some x | None => Re.run b s g k end.
Proof. reflexivity. Qed.

Lemma run_seq {R} a b (s : list ascii) g (k : list ascii -> option (list ascii) -> option R) :
  Re.run (Re.Seq a b) s g k = Re.run a s g (fun s1 g1 => Re.run b s1 g1 k).
Proof. reflexivity. Qed.

Lemma run_group {R} a (s : list ascii) g (k : list ascii -> option (list ascii) -> option R) :
  Re.run (Re.Group a) s g k
  = Re.run a s g (fun s1 _ => k s1 (Some (take (length s - length s1) s))).
Proof. reflexivity. Qed.

Lemma run_dollar {R} (s : list ascii) g (k : list ascii -> option (list ascii) -> option R) :
  Re.run Re.Dollar s g k = if Re.at_dollar s then k s g else None.
Proof. reflexivity. Qed.

Lemma ends_run {R} (s : list ascii) g (k : list ascii -> option (list ascii) -> option R) (x : R) :
  (forall s', k s' g = Some x) ->
  Re.run (Re.Alt (Re.Chr "?") (Re.Alt (Re.Chr "&") (Re.Alt (Re.Chr "/") Re.Dollar))) s g k
  = if ends_id s then Some x else None.
Proof.
  intros Hk.
  rewrite !run_alt, !run_chr, run_dollar.
  destruct s as [|c r]; [simpl; apply Hk|].
  unfold ends_id, Re.at_dollar. rewrite !Hk.
  destruct (Ascii.eqb c "?"); [reflexivity|].
  destruct (Ascii.eqb c "&"); [reflexivity|].
  destruct (Ascii.eqb c "/"); [reflexivity|].
  destruct r as [|c2 r]; simpl.
  - rewrite (Ascii.eqb_sym c). destruct (Ascii.eqb "010" c); reflexivity.
  - rewrite andb_false_r. reflexivity.
Qed.

Lemma match_here_id (s : list ascii) :
  Re.match_here video_id_pattern s
  = (fun id => {| Re.group1 := Some id |}) <$> id_here s.
Proof.
  unfold Re.match_here, video_id_pattern, id_here.
  assert (Tail : forall r : list ascii,
    Re.run (Re.Seq (Re.Group (Re.Rep (Re.Cls Re.word_or_dash) 11))
       (Re.Alt (Re.Chr "?") (Re.Alt (Re.Chr "&") (Re.Alt (Re.Chr "/") Re.Dollar))))
       r None (fun _ g => Some {| Re.group1 := g |})
    = (fun id => {| Re.group1 := Some id |}) <$>
      (if (11 <=? length r)%nat && forallb Re.word_or_dash (take 11 r)
          && ends_id (drop 11 r) then Some (take 11 r) else None)).
  { intros r. rewrite run_seq, run_group, run_rep_cls.
    destruct (11 <=? length r)%nat eqn:E; [|reflexivity].
    apply Nat.leb_le in E.
    destruct (forallb Re.word_or_dash (take 11 r)); [|reflexivity].
    cbv beta. rewrite (ends_run _ _ _ {| Re.group1 := Some (take (length r - length (drop 11 r)) r) |}) by reflexivity.
    rewrite length_drop.
    replace (length r - (length r - 11)) with 11 by lia.
    simpl andb. destruct (ends_id (drop 11 r)); reflexivity. }
  rewrite run_seq, run_alt, run_seq, !run_chr.
  destruct s as [|c r]; [reflexivity|].
  destruct (Ascii.eqb c "/") eqn:E1.
  - apply Ascii.eqb_eq in E1. subst c. simpl (Ascii.eqb "/" "v").
    cbv iota. rewrite Tail. reflexivity.
  - destruct (Ascii.eqb c "v") eqn:E2; [|reflexivity].
    rewrite run_chr.
    destruct r as [|d r']; [reflexivity|].
    destruct (Ascii.eqb d "="); [|reflexivity].
    rewrite Tail.
    match goal with |- match ?x with _ => _ end = _ => destruct x; reflexivity end.
Qed.

Lemma search_none (r : Re.regex) (s : list ascii) :
  Re.search r s = None <->
  forall pos, pos <= length s -> Re.match_here r (drop pos s) = None.
Proof.
  induction s as [|c s IH]; simpl.
  - split.
    + intros H pos _. rewrite drop_nil. destruct (Re.match_here r []); [discriminate|reflexivity].
    + intros H. specialize (H 0 (Nat.le_refl _)). rewrite drop_0 in H. rewrite H. reflexivity.
  - destruct (Re.match_here r (c :: s)) eqn:E.
    + split; [discriminate|]. intros H. specialize (H 0 (Nat.le_0_l _)).
      rewrite drop_0 in H. congruence.
    + rewrite IH. split.
      * intros H [|pos] Hp; [exact E|]. simpl. apply H. lia.
      * intros H pos Hp. apply (H (S pos)). lia.
Qed.

Lemma search_some (r : Re.regex) (s : list ascii) (m : Re.Match) :
  Re.search r s = Some m <->
  exists pos, pos <= length s /\ Re.match_here r (drop pos s) = Some m
    /\ forall j, j < pos -> Re.match_here r (drop j s) = None.
Proof.
  induction s as [|c s IH]; simpl.
  - split.
    + intros H. exists 0. rewrite drop_0. split; [lia|]. split; [|intros; lia].
      destruct (Re.match_here r []); congruence.
    + intros (pos & _ & H & _). rewrite drop_nil in H. rewrite H. reflexivity.
  - destruct (Re.match_here r (c :: s)) eqn:E.
    + split.
      * intros H. exists 0. rewrite drop_0. split; [lia|]. split; [congruence|intros; lia].
      * intros (pos & _ & H & Hj). destruct pos as [|pos].
        -- rewrite drop_0 in H. congruence.
        -- specialize (Hj 0 (Nat.lt_0_succ _)). rewrite drop_0 in Hj. congruence.
    + rewrite IH. split.
      * intros (pos & Hp & H & Hj). exists (S pos). split; [lia|]. split; [exact H|].
        intros [|j] Hlt; [exact E|]. simpl. apply Hj. lia.
      * intros (pos & Hp & H & Hj). destruct pos as [|pos].
        -- rewrite drop_0 in H. congruence.
        -- exists pos. split; [lia|]. split; [exact H|].
           intros j Hlt. apply (Hj (S j)). lia.
Qed.

Lemma id_here_pattern (s id : list ascii) :
  id_here s = Some id <-> pattern_at s 0 id.
Proof.
  split.
  - unfold id_here. intros H.
    assert (exists sep r, s = sep ++ r /\ (sep = chars "v=" \/ sep = chars "/") /\
      (if (11 <=? length r)%nat && forallb Re.word_or_dash (take 11 r)
          && ends_id (drop 11 r) then Some (take 11 r) else None) = Some id)
      as (sep & r & -> & Hsep & Hr).
    { destruct s as [|c r]; [discriminate|].
      destruct (Ascii.eqb c "/") eqn:E1.
      - apply Ascii.eqb_eq in E1. subst c. exists (chars "/"), r. auto.
      - destruct (Ascii.eqb c "v") eqn:E2; [|discriminate].
        destruct r as [|d r']; [discriminate|].
        destruct (Ascii.eqb d "=") eqn:E3; [|discriminate].
        apply Ascii.eqb_eq in E2, E3. subst c d. exists (chars "v="), r'. auto. }
    destruct (_ && _) eqn:E in Hr; [|discriminate].
    injection Hr as <-.
    apply andb_prop in E as [E E3]. apply andb_prop in E as [E1 E2].
    apply Nat.leb_le in E1.
    exists [], sep, (drop 11 r). rewrite take_drop.
    split; [reflexivity|]. split; [reflexivity|]. split; [exact Hsep|].
    split; [rewrite length_take; lia|]. split; assumption.
  - intros (pre & sep & rest & -> & Hpre & Hsep & Hlen & Hw & He).
    destruct pre; [|discriminate]. simpl app.
    unfold id_here.
    assert (Hr : (if (11 <=? length (id ++ rest))%nat
                     && forallb Re.word_or_dash (take 11 (id ++ rest))
                     && ends_id (drop 11 (id ++ rest))
                  then Some (take 11 (id ++ rest)) else None) = Some id).
    { assert (take 11 (id ++ rest) = id) as -> by (rewrite <- Hlen; apply take_app_length).
      assert (drop 11 (id ++ rest) = rest) as -> by (rewrite <- Hlen; apply drop_app_length).
      rewrite Hw, He. rewrite (proj2 (Nat.leb_le _ _)); [reflexivity|].
      rewrite length_app. lia. }
    destruct Hsep as [-> | ->]; simpl; exact Hr.
Qed.

Lemma pattern_at_drop (s : list ascii) (pos : nat) (id : list ascii) :
  pattern_at s pos id <-> pos <= length s /\ pattern_at (drop pos s) 0 id.
Proof.
  split.
  - intros (pre & sep & rest & -> & Hpre & H). subst pos. split.
    + rewrite length_app. lia.
    + rewrite drop_app_length. exists [], sep, rest. split; [reflexivity|].
      split; [reflexivity|]. exact H.
  - intros (Hle & pre & sep & rest & Hs & Hpre & H).
    destruct pre; [|discriminate]. simpl in Hs.
    exists (take pos s), sep, rest. split.
    + rewrite <- Hs. symmetry. apply take_drop.
    + split; [rewrite length_take; lia|exact H].
Qed.

Lemma match_at_pattern (s : list ascii) (pos : nat) (m : Re.Match) :
  pos <= length s ->
  (Re.match_here video_id_pattern (drop pos s) = Some m <->
   exists id, m = {| Re.group1 := Some id |} /\ pattern_at s pos id).
Proof.
  intros Hle. rewrite match_here_id. split.
  - destruct (id_here (drop pos s)) as [id|] eqn:E; [|discriminate].
    intros [= <-]. exists id. split; [reflexivity|].
    apply pattern_at_drop. split; [exact Hle|]. apply id_here_pattern, E.
  - intros (id & -> & H). apply pattern_at_drop in H as [_ H].
    apply id_here_pattern in H. rewrite H. reflexivity.
Qed.

Lemma no_match_at (s : list ascii) (pos : nat) :
  Re.match_here video_id_pattern (drop pos s) = None <->
  forall id, ~ pattern_at s pos id.
Proof.
  split.
  - intros H id Hp. pose proof Hp as Hp'. apply pattern_at_drop in Hp' as [Hle _].
    assert (Re.match_here video_id_pattern (drop pos s) = Some {| Re.group1 := Some id |}) as E
        by (apply match_at_pattern; eauto).
    congruence.
  - intros H. destruct (Re.match_here _ _) as [m|] eqn:E; [|reflexivity].
    destruct (decide (pos <= length s)) as [Hle|Hgt].
    + apply match_at_pattern in E as (id & _ & Hp); [|exact Hle]. destruct (H id Hp).
    + rewrite drop_ge in E by lia. discriminate E.
Qed.

(** No position of the text carries the pattern: no key. *)
Lemma derived_key_none (url : string) :
  derived_key url = None <-> forall pos id, ~ pattern_at (chars url) pos id.
Proof.
  unfold derived_key, video_id_match.
  destruct (Re.search video_id_pattern (chars url)) as [m|] eqn:E; simpl.
  - split; [discriminate|]. intros H.
    apply search_some in E as (pos & Hle & Hm & _).
    apply match_at_pattern in Hm as (id & _ & Hp); [|exact Hle].
    destruct (H pos id Hp).
  - split; [|reflexivity]. intros _ pos id Hp.
    pose proof Hp as Hp'. apply pattern_at_drop in Hp' as [Hle _].
    pose proof (proj1 (search_none _ _) E pos Hle) as Hn.
    exact (proj1 (no_match_at _ _) Hn id Hp).
Qed.

(** The key is the identifier at the leftmost position that carries the
    pattern. *)
Lemma derived_key_some (url : string) (key : string) :
  derived_key url = Some key <->
  exists pos id, key = text id /\ pattern_at (chars url) pos id
    /\ forall j id', j < pos -> ~ pattern_at (chars url) j id'.
Proof.
  unfold derived_key, video_id_match. split.
  - destruct (Re.search video_id_pattern (chars url)) as [m|] eqn:E; [|discriminate].
    simpl. intros [= <-].
    apply search_some in E as (pos & Hle & Hm & Hj).
    apply match_at_pattern in Hm as (id & -> & Hp); [|exact Hle].
    exists pos, id. split; [reflexivity|]. split; [exact Hp|].
    intros j id' Hlt. exact (proj1 (no_match_at _ _) (Hj j Hlt) id').
  - intros (pos & id & -> & Hp & Hj).
    pose proof Hp as Hp'. apply pattern_at_drop in Hp' as [Hle _].
    assert (Re.search video_id_pattern (chars url) = Some {| Re.group1 := Some id |}) as ->.
    { apply search_some. exists pos. split; [exact Hle|]. split.
      - apply match_at_pattern; eauto.
      - intros j Hlt. apply (proj2 (no_match_at _ _)). intros id'. apply Hj, Hlt. }
    reflexivity.
Qed.

Lemma is_id_char_word (c : ascii) : is_id_char c = true -> Re.word_or_dash c = true.
Proof.
  destruct c as [[] [] [] [] [] [] [] []]; vm_compute; intros H; first [reflexivity | discriminate H].
Qed.

Lemma prose_end_ends (rest : list ascii) : prose_end rest = true -> ends_id rest = true.
Proof.
  destruct rest as [|c r]; [reflexivity|]. simpl. intros ->. reflexivity.
Qed.

Lemma token_pattern (url : string) (pos : nat) (id : string) :
  token_at url pos id -> pattern_at (chars url) pos (chars id).
Proof.
  intros (pre & sep & rest & Hs & Hpre & Hsep & Hlen & Hc & He).
  exists pre, sep, rest. repeat split; try assumption.
  - apply forallb_forall. intros c Hin. apply is_id_char_word.
    revert c Hin. apply forallb_forall. exact Hc.
  - apply prose_end_ends, He.
Qed.

End RegexFacts.

(** ** Texts and paths *)

Lemma text_chars (s : string) : text (chars s) = s.
Proof. apply string_of_list_ascii_of_string. Qed.

Lemma chars_text (l : list ascii) : chars (text l) = l.
Proof. apply list_ascii_of_string_of_list_ascii. Qed.

Lemma pattern_at_unique (s : list ascii) (pos : nat) (id1 id2 : list ascii) :
  pattern_at s pos id1 -> pattern_at s pos id2 -> id1 = id2.
Proof.
  intros H1 H2.
  apply pattern_at_drop in H1 as [_ H1]. apply pattern_at_drop in H2 as [_ H2].
  apply id_here_pattern in H1, H2. congruence.
Qed.

Lemma none_before_sound (s : list ascii) (pos : nat) :
  none_before s pos = true ->
  forall j id, j < pos -> ~ pattern_at s j id.
Proof.
  unfold none_before. intros H j id Hlt Hp.
  rewrite forallb_forall in H.
  specialize (H j). rewrite in_seq in H.
  assert (Hj : bool_decide (id_here (drop j s) = None) = true) by (apply H; lia).
  apply bool_decide_eq_true in Hj.
  apply pattern_at_drop in Hp as [_ Hp]. apply id_here_pattern in Hp. congruence.
Qed.

Lemma no_pattern_sound (url : string) :
  video_id_match url = None -> forall pos id, ~ pattern_at (chars url) pos id.
Proof.
  intros H. apply derived_key_none. unfold derived_key. rewrite H. reflexivity.
Qed.

Lemma append_same_length (a b s t : string) :
  String.length a = String.length b -> a +:+ s = b +:+ t -> a = b /\ s = t.
Proof.
  revert b. induction a as [|c a IH]; intros [|d b] Hl H; try discriminate Hl.
  - split; [reflexivity|exact H].
  - simpl in H. injection H as -> H. injection Hl as Hl.
    destruct (IH b Hl H) as [-> ->]. split; reflexivity.
Qed.

Lemma length_append (a b : string) :
  String.length (a +:+ b) = String.length a + String.length b.
Proof. induction a as [|c a IH]; simpl; [reflexivity|]. rewrite IH. reflexivity. Qed.

Lemma append_inv_tail (a b s : string) : a +:+ s = b +:+ s -> a = b.
Proof.
  intros H. apply (append_same_length a b s s); [|exact H].
  apply (f_equal String.length) in H. rewrite !length_append in H. lia.
Qed.

Lemma append_inv_head (p a b : string) : p +:+ a = p +:+ b -> a = b.
Proof. induction p as [|c p IH]; simpl; [auto|]. intros [= H]. auto. Qed.

Lemma length_text (l : list ascii) : String.length (text l) = length l.
Proof. induction l as [|c l IH]; simpl; [reflexivity|]. rewrite IH. reflexivity. Qed.

Lemma derived_key_length (url key : string) :
  derived_key url = Some key -> String.length key = 11.
Proof.
  intros H. apply derived_key_some in H as (pos & id & -> & (pre & sep & rest & _ & _ & _ & Hl & _) & _).
  rewrite length_text. exact Hl.
Qed.

Lemma is_fetch_of_template (id id' url : string) :
  is_fetch_of id (EDownload url ("downloads/" +:+ id' +:+ ".%(ext)s")) = true -> id' = id.
Proof.
  unfold is_fetch_of. intros H. apply String.eqb_eq in H.
  apply append_inv_head, append_inv_tail in H. exact H.
Qed.

Lemma fetch_count_app (id : string) (tr1 tr2 : list event) :
  fetch_count id (tr1 ++ tr2) = fetch_count id tr1 + fetch_count id tr2.
Proof. unfold fetch_count. rewrite filter_app, length_app. reflexivity. Qed.

(** ** [download_youtube_video] *)

Section DownloadFacts.
Context (env : Env).

Lemma download_no_key (url : string) (w : World) :
  derived_key url = None ->
  download_youtube_video env url w
  = (Raise (ValueError "Could not extract video ID from URL"), w).
Proof.
  unfold derived_key, download_youtube_video.
  destruct (video_id_match url); [discriminate|reflexivity].
Qed.

Lemma cache_path_not_dir (id : string) : cache_path id <> "downloads".
Proof. unfold cache_path. simpl. discriminate. Qed.

(** The run of [download_youtube_video] on a URL with a key, written out. *)
Lemma download_run (url id : string) (w : World) :
  derived_key url = Some id ->
  let dir_there := bool_decide (is_Some (disk w !! "downloads")) in
  let d1 := if dir_there then disk w else <["downloads" := Dir]> (disk w) in
  let tr1 := (trace w ++ [EExists "downloads"])
               ++ (if dir_there then [] else [EMakedirs "downloads"])
               ++ [EExists (cache_path id)] in
  let outtmpl := "downloads/" +:+ id +:+ ".%(ext)s" in
  download_youtube_video env url w =
    if bool_decide (is_Some (disk w !! cache_path id)) then
      (Ret (cache_path id),
       {| disk := d1;
          trace := tr1 ++ [EToast ("Found " +:+ id +:+ " in cache. Skipping download!")] |})
    else
      match ydl env tr1 url with
      | FetchFailed msg =>
          (Raise (DownloadError msg), {| disk := d1; trace := tr1 ++ [EDownload url outtmpl] |})
      | FetchSaved ext content =>
          (Ret (cache_path id),
           {| disk := <["downloads/" +:+ id +:+ "." +:+ ext := File content]> d1;
              trace := tr1 ++ [EDownload url outtmpl] |})
      end.
Proof.
  unfold derived_key, download_youtube_video. intros H.
  destruct (video_id_match url) as [m|]; [|discriminate].
  injection H as H. rewrite H. clear H m.
  fold (cache_path id).
  unfold bind, path_exists, makedirs, ret, emit, ydl_download, log. simpl.
  destruct (bool_decide (is_Some (disk w !! "downloads"))) eqn:E; simpl.
  - destruct (bool_decide (is_Some (disk w !! cache_path id))) eqn:E2; simpl.
    + rewrite <- !app_assoc. reflexivity.
    + rewrite <- !app_assoc. simpl. destruct (ydl env _ url); reflexivity.
  - rewrite lookup_insert_ne by (apply not_eq_sym, cache_path_not_dir).
    destruct (bool_decide (is_Some (disk w !! cache_path id))) eqn:E2; simpl.
    + rewrite <- !app_assoc. reflexivity.
    + rewrite <- !app_assoc. simpl. destruct (ydl env _ url); reflexivity.
Qed.

End DownloadFacts.

Lemma download_path (env : Env) (url : string) (w w' : World) (p : string) :
  download_youtube_video env url w = (Ret p, w') ->
  exists id, derived_key url = Some id /\ p = cache_path id.
Proof.
  destruct (derived_key url) as [id|] eqn:E.
  - rewrite (download_run env url id w E). intros H. exists id. split; [reflexivity|].
    destruct (bool_decide _); [congruence|].
    destruct (ydl env _ url); congruence.
  - rewrite (download_no_key env url w E). discriminate.
Qed.

Section CacheFacts.
Context (env : Env).

(** While the canonical file of [id] and its directory are on disk, an
    acquisition keeps them there and fetches nothing for [id]. *)
Lemma acquire_keeps_entry (source : MediaSource) (id : string) (w : World) :
  is_Some (disk w !! "downloads") ->
  is_Some (disk w !! cache_path id) ->
  let w' := (acquire env source w).2 in
  is_Some (disk w' !! "downloads") /\ is_Some (disk w' !! cache_path id)
  /\ fetch_count id (trace w') = fetch_count id (trace w).
Proof.
  intros Hd Hf. destruct source as [url|bytes]; simpl.
  - destruct (derived_key url) as [id'|] eqn:E.
    + rewrite (download_run env url id' w E).
      rewrite (bool_decide_eq_true_2 _ Hd).
      destruct (bool_decide (is_Some (disk w !! cache_path id'))) eqn:E2; simpl.
      * split; [exact Hd|]. split; [exact Hf|].
        rewrite !fetch_count_app. simpl. unfold fetch_count. simpl. lia.
      * apply bool_decide_eq_false in E2.
        assert (id' <> id) as Hne by (intros ->; contradiction).
        assert (Hc : forall tr, fetch_count id
                   (tr ++ [EDownload url ("downloads/" +:+ id' +:+ ".%(ext)s")])
                   = fetch_count id tr).
        { intros tr. rewrite fetch_count_app. unfold fetch_count at 2. simpl.
          rewrite filter_cons_False, filter_nil; [simpl; lia|].
          intros Hx. apply Hne. eapply is_fetch_of_template, Hx. }
        destruct (ydl env _ url); simpl.
        -- split; [exact Hd|]. split; [exact Hf|]. rewrite Hc.
           rewrite !fetch_count_app. unfold fetch_count. simpl. lia.
        -- split; [rewrite lookup_insert_is_Some'; tauto|].
           split; [rewrite lookup_insert_is_Some'; tauto|]. rewrite Hc.
           rewrite !fetch_count_app. unfold fetch_count. simpl. lia.
    + rewrite (download_no_key env url w E). simpl. auto.
  - unfold save_upload, bind, write_file, ret, log.
    destruct (disk w !! "temp_upload.mp4") as [[|c]|] eqn:E; simpl;
      (split; [try rewrite lookup_insert_is_Some'; tauto|]);
      (split; [try rewrite lookup_insert_is_Some'; tauto|]);
      rewrite fetch_count_app; unfold fetch_count; simpl; lia.
Qed.

Lemma acquire_all_keeps_entry (sources : list MediaSource) (id : string) (w : World) :
  is_Some (disk w !! "downloads") ->
  is_Some (disk w !! cache_path id) ->
  fetch_count id (trace (acquire_all env sources w)) = fetch_count id (trace w).
Proof.
  revert w. induction sources as [|s rest IH]; intros w Hd Hf; simpl; [reflexivity|].
  destruct (acquire_keeps_entry s id w Hd Hf) as (Hd' & Hf' & Hc).
  rewrite IH by assumption. exact Hc.
Qed.

(** The paths an acquisition may touch. *)
Lemma acquire_touches (source : MediaSource) (w : World) (p : string) :
  disk (acquire env source w).2 !! p <> disk w !! p ->
  p = "downloads" \/ p = "temp_upload.mp4"
  \/ exists url id ext, source = YouTubeURL url /\ derived_key url = Some id
       /\ disk w !! cache_path id = None
       /\ p = "downloads/" +:+ id +:+ "." +:+ ext.
Proof.
  destruct source as [url|bytes]; simpl.
  - destruct (derived_key url) as [id|] eqn:E.
    + rewrite (download_run env url id w E).
      assert (D1 : (if bool_decide (is_Some (disk w !! "downloads")) then disk w
                    else <["downloads":=Dir]> (disk w)) !! p <> disk w !! p -> p = "downloads").
      { destruct (bool_decide _); [congruence|].
        destruct (decide (p = "downloads")) as [|Hne]; [auto|].
        rewrite lookup_insert_ne by congruence. congruence. }
      destruct (bool_decide (is_Some (disk w !! cache_path id))) eqn:E2; simpl.
      * intros H. left. apply D1, H.
      * apply bool_decide_eq_false in E2.
        destruct (ydl env _ url) as [msg|ext content]; simpl.
        -- intros H. left. apply D1, H.
        -- intros H.
           destruct (decide (p = "downloads/" +:+ id +:+ "." +:+ ext)) as [->|Hne].
           ++ right; right. exists url, id, ext.
              split; [reflexivity|]. split; [exact E|]. split; [|reflexivity].
              destruct (disk w !! cache_path id) eqn:E3; [|reflexivity].
              exfalso. apply E2. eauto.
           ++ left. apply D1. rewrite lookup_insert_ne in H by congruence. exact H.
    + rewrite (download_no_key env url w E). simpl. congruence.
  - unfold save_upload, bind, write_file, ret, log.
    destruct (disk w !! "temp_upload.mp4") as [[|c]|] eqn:E; simpl; try congruence;
      intros H; right; left;
      (destruct (decide (p = "temp_upload.mp4")) as [|Hne]; [assumption|]);
      rewrite lookup_insert_ne in H by congruence; congruence.
Qed.

Lemma acquire_keeps_cache_entry (source : MediaSource) (k : string) (n : node) (w : World) :
  String.length k = 11 ->
  disk w !! cache_path k = Some n ->
  disk (acquire env source w).2 !! cache_path k = Some n.
Proof.
  intros Hk Hn.
  destruct (decide (disk (acquire env source w).2 !! cache_path k = disk w !! cache_path k))
    as [->|Hne]; [exact Hn|].
  exfalso. apply acquire_touches in Hne as [H|[H|(url & id & ext & _ & Hkey & Hmiss & H)]].
  - unfold cache_path in H. simpl in H. discriminate H.
  - unfold cache_path in H. simpl in H. discriminate H.
  - unfold cache_path in H. apply append_inv_head in H.
    apply append_same_length in H as [-> _].
    + congruence.
    + rewrite Hk. symmetry. eapply derived_key_length, Hkey.
Qed.

End CacheFacts.


(** ** The polling loop and [upload_to_gemini] *)

Lemma extend_nil (w : World) : extend w [] = w.
Proof. destruct w. unfold extend. simpl. rewrite app_nil_r. reflexivity. Qed.

Lemma extend_extend (w : World) (a b : list event) :
  extend (extend w a) b = extend w (a ++ b).
Proof. unfold extend. simpl. rewrite app_assoc. reflexivity. Qed.

Section PollFacts.
Context (env : Env).

Lemma still_processing_step (k : nat) (f f' : FileObj) (n : nat) :
  files_get env k (name f) = inr f' ->
  still_processing env k f (S n) ->
  state f = "PROCESSING" /\ still_processing env (S k) f' n.
Proof.
  intros G H. split.
  - destruct (H 0 (Nat.lt_0_succ _)) as (h & [= <-] & Hs). exact Hs.
  - intros i Hi. destruct (H (S i)) as (h & Ho & Hs); [lia|].
    simpl in Ho. rewrite G in Ho. eauto.
Qed.

Lemma poll_step (fuel k : nat) (f : FileObj) (w : World) :
  state f = "PROCESSING" ->
  poll env (S fuel) k f w
  = match files_get env k (name f) with
    | inl e => (Raise e, extend w [ESleep 1; EGet (name f)])
    | inr f' => poll env fuel (S k) f' (extend w [ESleep 1; EGet (name f)])
    end.
Proof.
  intros Hs. simpl. rewrite Hs. simpl.
  unfold bind, emit, client_files_get, log, extend. simpl.
  rewrite <- app_assoc. simpl.
  destruct (files_get env k (name f)); reflexivity.
Qed.

Lemma poll_stop (fuel k : nat) (f : FileObj) (w : World) :
  state f <> "PROCESSING" -> poll env fuel k f w = (Ret f, w).
Proof.
  intros Hs. apply String.eqb_neq in Hs.
  destruct fuel; simpl; rewrite Hs; reflexivity.
Qed.

(** The loop ends with the first handle that is no longer being processed. *)
Lemma poll_done (n : nat) :
  forall fuel k f w h,
    still_processing env k f n ->
    observe env k f n = inr h ->
    state h <> "PROCESSING" ->
    n <= fuel ->
    poll env fuel k f w = (Ret h, extend w (poll_events env k f n)).
Proof.
  induction n as [|n IH]; intros fuel k f w h Hp Ho Hs Hle.
  - injection Ho as ->. simpl. rewrite extend_nil. apply poll_stop, Hs.
  - destruct fuel as [|fuel]; [lia|].
    simpl in Ho. simpl poll_events.
    destruct (files_get env k (name f)) as [e|f'] eqn:G; [discriminate|].
    destruct (still_processing_step k f f' n G Hp) as [Hf Hp'].
    rewrite (poll_step fuel k f w Hf), G.
    rewrite (IH fuel (S k) f' _ h Hp' Ho Hs) by lia.
    rewrite extend_extend. reflexivity.
Qed.

(** While every answer is PROCESSING the loop uses up any fuel. *)
Lemma poll_running (fuel : nat) :
  forall k f w,
    still_processing env k f (S fuel) ->
    poll env fuel k f w = (Running, extend w (poll_events env k f fuel)).
Proof.
  induction fuel as [|fuel IH]; intros k f w Hp.
  - destruct (Hp 0 (Nat.lt_0_succ _)) as (h & [= <-] & Hs).
    simpl. rewrite Hs. simpl. rewrite extend_nil. reflexivity.
  - destruct (Hp 1) as (h1 & Ho1 & _); [lia|]. simpl in Ho1.
    destruct (files_get env k (name f)) as [e|f'] eqn:G; [discriminate|].
    destruct (still_processing_step k f f' (S fuel) G Hp) as [Hf Hp'].
    rewrite (poll_step fuel k f w Hf), G.
    rewrite (IH (S k) f' _ Hp'). simpl poll_events. rewrite G.
    rewrite extend_extend. reflexivity.
Qed.

(** However the loop ends, it ends on a handle that left PROCESSING or on
    an exception of a status request. *)
Lemma poll_result (fuel : nat) :
  forall k f w r w',
    poll env fuel k f w = (r, w') ->
    match r with
    | Ret h => state h <> "PROCESSING"
    | Raise e => exists k' nm, files_get env k' nm = inl e
    | Running => True
    end.
Proof.
  induction fuel as [|fuel IH]; intros k f w r w' H.
  - simpl in H. destruct (String.eqb (state f) "PROCESSING") eqn:E.
    + injection H as <- _. exact I.
    + injection H as <- _. apply String.eqb_neq, E.
  - destruct (String.eqb (state f) "PROCESSING") eqn:E.
    + apply String.eqb_eq in E. rewrite (poll_step fuel k f w E) in H.
      destruct (files_get env k (name f)) as [e|f'] eqn:G.
      * injection H as <- _. eauto.
      * eapply IH, H.
    + apply String.eqb_neq in E. rewrite (poll_stop _ _ _ _ E) in H.
      injection H as <- _. exact E.
Qed.

Lemma poll_events_shape (n : nat) :
  forall k f, still_processing env k f (S n) ->
    exists names, length names = n
      /\ poll_events env k f n = flat_map (fun nm => [ESleep 1; EGet nm]) names.
Proof.
  induction n as [|n IH]; intros k f Hp.
  - exists []. split; reflexivity.
  - destruct (Hp 1) as (h1 & Ho1 & _); [lia|]. simpl in Ho1.
    destruct (files_get env k (name f)) as [e|f'] eqn:G; [discriminate|].
    destruct (still_processing_step k f f' (S n) G Hp) as [Hf Hp'].
    destruct (IH (S k) f' Hp') as (names & Hl & He).
    exists (name f :: names). split; [simpl; lia|].
    simpl. rewrite G, He. reflexivity.
Qed.

(** [upload_to_gemini] once the upload has answered. *)
Lemma upload_run (fuel : nat) (file_path mt : string) (w : World) (f0 : FileObj) :
  files_upload env file_path = inr f0 ->
  upload_to_gemini env fuel file_path mt w
  = match poll env fuel 0 f0
            (extend w [EPrint ("Uploading " +:+ file_path +:+ "..."); EUpload file_path]) with
    | (Ret h, w') =>
        if String.eqb (state h) "FAILED"
        then (Raise (ValueError "Video processing failed at Google's end."), w')
        else (Ret h, w')
    | (Raise e, w') => (Raise e, w')
    | (Running, w') => (Running, w')
    end.
Proof.
  intros U. unfold upload_to_gemini, bind at 1 2, emit, client_files_upload, log. simpl.
  rewrite U. unfold extend. simpl. rewrite <- app_assoc. simpl.
  unfold bind.
  destruct (poll env fuel 0 f0 _) as [[h|e|] w']; try reflexivity.
  destruct (String.eqb (state h) "FAILED"); reflexivity.
Qed.

Lemma upload_failed_call (fuel : nat) (file_path mt : string) (w : World) (e : exn) :
  files_upload env file_path = inl e ->
  upload_to_gemini env fuel file_path mt w
  = (Raise e, extend w [EPrint ("Uploading " +:+ file_path +:+ "..."); EUpload file_path]).
Proof.
  intros U. unfold upload_to_gemini, bind at 1 2, emit, client_files_upload, log. simpl.
  rewrite U. unfold extend. simpl. rewrite <- app_assoc. reflexivity.
Qed.

End PollFacts.

(** The upload answered with [f0], the answers stayed PROCESSING for [n]
    status requests and then brought [h], which is neither PROCESSING nor
    FAILED: with fuel for [n] turns [upload_to_gemini] returns [h]. *)
Lemma upload_done
    (env : Env) (fuel : nat) (file_path mt : string) (w : World)
    (f0 h : FileObj) (n : nat) :
  files_upload env file_path = inr f0 ->
  still_processing env 0 f0 n ->
  observe env 0 f0 n = inr h ->
  state h <> "PROCESSING" ->
  state h <> "FAILED" ->
  n <= fuel ->
  upload_to_gemini env fuel file_path mt w
  = (Ret h, extend w (upload_events file_path ++ poll_events env 0 f0 n)).
Proof.
  intros U Hp Ho Hs Hf Hle.
  rewrite (upload_run env fuel file_path mt w f0 U).
  rewrite (poll_done env n fuel 0 f0 _ h Hp Ho Hs Hle).
  apply String.eqb_neq in Hf. rewrite Hf. rewrite extend_extend. reflexivity.
Qed.

(** However [upload_to_gemini] ends, it ends on a handle that is neither
    PROCESSING nor FAILED, on the failure it raises for FAILED, or on an
    exception of the client. *)
Lemma upload_result (env : Env) (fuel : nat) (file_path mt : string) (w w' : World)
    (r : result FileObj) :
  upload_to_gemini env fuel file_path mt w = (r, w') ->
  match r with
  | Ret h => state h <> "PROCESSING" /\ state h <> "FAILED"
  | Raise e =>
      e = failed_error
      \/ files_upload env file_path = inl e
      \/ exists k nm, files_get env k nm = inl e
  | Running => True
  end.
Proof.
  intros H.
  destruct (files_upload env file_path) as [e|f0] eqn:U.
  - rewrite (upload_failed_call env fuel file_path mt w e U) in H.
    injection H as <- _. auto.
  - rewrite (upload_run env fuel file_path mt w f0 U) in H.
    destruct (poll env fuel 0 f0 _) as [[h|e|] w1] eqn:P.
    + pose proof (poll_result env fuel _ _ _ _ _ P) as Hs. simpl in Hs.
      destruct (String.eqb (state h) "FAILED") eqn:F; injection H as <- _.
      * left. reflexivity.
      * split; [exact Hs|]. apply String.eqb_neq, F.
    + pose proof (poll_result env fuel _ _ _ _ _ P) as Hs. simpl in Hs.
      injection H as <- _. auto.
    + injection H as <- _. exact I.
Qed.

(** ** The JSON scanner: enough fuel *)

Module JsonFacts.
Import Json.

Lemma skip_ws_length (s : list ascii) : length (skip_ws s) <= length s.
Proof.
  induction s as [|c s IH]; simpl; [lia|]. destruct (is_ws c); simpl; lia.
Qed.

Lemma span_digits_length (s : list ascii) : length (span_digits s).2 <= length s.
Proof.
  induction s as [|c s IH]; simpl; [lia|].
  destruct (is_digit c); simpl; [|lia].
  destruct (span_digits s) as [ds r']. simpl in *. lia.
Qed.

Lemma strip_prefix_length (w s r : list ascii) :
  strip_prefix w s = Some r -> length r + length w = length s.
Proof.
  revert s. induction w as [|a w IH]; intros [|b s] H; simpl in *; try discriminate.
  - injection H as <-. reflexivity.
  - injection H as <-. simpl. lia.
  - destruct (Ascii.eqb a b); [|discriminate]. apply IH in H. lia.
Qed.

Lemma scan_string_length (begin free n : nat) :
  forall s cs r, length s < n -> scan_string begin free s = inr (cs, r) -> length r < length s.
Proof.
  induction n as [|n IH]; intros s cs r Hn H; [lia|].
  destruct s as [|c s]; [discriminate|].
  simpl in H. simpl in Hn.
  destruct (Ascii.eqb c "034"); [injection H as <- <-; simpl; lia|].
  destruct (Ascii.eqb c "092").
  - destruct s as [|e r1]; [discriminate|].
    destruct (Ascii.eqb e "u").
    + destruct r1 as [|h1 [|h2 [|h3 [|h4 [|x r5]]]]]; try discriminate.
      destruct (hex4 h1 h2 h3 h4) as [u|]; [|discriminate].
      assert (Single : forall cs r,
        match scan_string begin free (x :: r5) with
        | inr (cs0, rest) => inr (u :: cs0, rest)
        | inl f => inl f
        end = inr (cs, r) -> length r < length (c :: e :: h1 :: h2 :: h3 :: h4 :: x :: r5)).
      { intros cs' r' Hs.
        destruct (scan_string begin free (x :: r5)) as [f|[cs0 rest]] eqn:E; [discriminate|].
        injection Hs as <- <-. apply IH in E; simpl in *; lia. }
      destruct (is_high_surrogate u); [|eapply Single, H].
      destruct r5 as [|v [|l1 [|l2 [|l3 [|l4 [|y r11]]]]]]; try (eapply Single, H).
      destruct (Ascii.eqb x "092" && Ascii.eqb v "u"); [|eapply Single, H].
      destruct (hex4 l1 l2 l3 l4) as [u2|]; [|discriminate].
      destruct (is_low_surrogate u2); [|eapply Single, H].
      destruct (scan_string begin free (y :: r11)) as [f|[cs0 rest]] eqn:E; [discriminate|].
      injection H as <- <-. apply IH in E; simpl in *; lia.
    + destruct (simple_escape e); [|discriminate].
      destruct (scan_string begin free r1) as [f|[cs0 rest]] eqn:E; [discriminate|].
      injection H as <- <-. apply IH in E; simpl in *; lia.
  - destruct (N_of_ascii c <=? 31)%N; [discriminate|].
    destruct (scan_string begin free s) as [f|[cs0 rest]] eqn:E; [discriminate|].
    injection H as <- <-. apply IH in E; simpl in *; lia.
Qed.

Lemma scan_string_fuel (begin free : nat) (s : list ascii) :
  scan_string begin free s <> inl NoFuel.
Proof.
  remember (S (length s)) as n eqn:Hn.
  assert (Hlt : length s < n) by lia. clear Hn.
  revert s Hlt. induction n as [|n IH]; intros s Hlt; [lia|].
  destruct s as [|c s]; [discriminate|].
  simpl in Hlt. simpl scan_string.
  destruct (Ascii.eqb c "034"); [discriminate|].
  destruct (Ascii.eqb c "092").
  - destruct s as [|e r1]; [discriminate|].
    destruct (Ascii.eqb e "u").
    + destruct r1 as [|h1 [|h2 [|h3 [|h4 [|x r5]]]]]; try discriminate.
      destruct (hex4 h1 h2 h3 h4) as [u|]; [|discriminate].
      assert (Single :
        match scan_string begin free (x :: r5) with
        | inr (cs0, rest) => inr (u :: cs0, rest)
        | inl f => inl f
        end <> inl NoFuel).
      { pose proof (IH (x :: r5)) as E.
        destruct (scan_string begin free (x :: r5)) as [f|[cs0 rest]]; [|discriminate].
        intros [= ->]. apply E; [simpl in *; lia|reflexivity]. }
      destruct (is_high_surrogate u); [|exact Single].
      destruct r5 as [|v [|l1 [|l2 [|l3 [|l4 [|y r11]]]]]]; try exact Single.
      destruct (Ascii.eqb x "092" && Ascii.eqb v "u"); [|exact Single].
      destruct (hex4 l1 l2 l3 l4) as [u2|]; [|discriminate].
      destruct (is_low_surrogate u2); [|exact Single].
      pose proof (IH (y :: r11)) as E.
      destruct (scan_string begin free (y :: r11)) as [f|[cs0 rest]]; [|discriminate].
      intros [= ->]. apply E; [simpl in *; lia|reflexivity].
    + destruct (simple_escape e); [|discriminate].
      pose proof (IH r1) as E.
      destruct (scan_string begin free r1) as [f|[cs0 rest]]; [|discriminate].
      intros [= ->]. apply E; [simpl in *; lia|reflexivity].
  - destruct (N_of_ascii c <=? 31)%N; [discriminate|].
    pose proof (IH s) as E.
    destruct (scan_string begin free s) as [f|[cs0 rest]]; [|discriminate].
    intros [= ->]. apply E; [lia|reflexivity].
Qed.

Lemma scan_number_length (s : list ascii) (v : value) (r : list ascii) :
  scan_number s = inr (v, r) -> length r < length s.
Proof.
  unfold scan_number. intros H.
  set (p := match s with
            | c :: r0 => if Ascii.eqb c "-" then (true, r0) else (false, s)
            | [] => (false, s) end) in H.
  assert (Hp : length p.2 <= length s).
  { subst p. destruct s as [|c r0]; simpl; [lia|]. destruct (Ascii.eqb c "-"); simpl; lia. }
  destruct p as [neg s1]. simpl in Hp.
  set (ip := match s1 with
             | c :: r0 =>
                 if Ascii.eqb c "0" then Some ([c], r0)
                 else if is_digit c then
                   let '(ds, r') := span_digits r0 in Some (c :: ds, r')
                 else None
             | [] => None end) in H.
  assert (Hip : forall i s2, ip = Some (i, s2) -> length s2 < length s1).
  { subst ip. intros i s2 Hi. destruct s1 as [|c r0]; [discriminate|].
    destruct (Ascii.eqb c "0"); [injection Hi as <- <-; simpl; lia|].
    destruct (is_digit c); [|discriminate].
    pose proof (span_digits_length r0) as Hl.
    destruct (span_digits r0) as [ds r']. injection Hi as <- <-. simpl in *. lia. }
  destruct ip as [[i s2]|]; [|discriminate].
  specialize (Hip i s2 eq_refl).
  set (fr := match s2 with
             | p0 :: d :: r0 =>
                 if Ascii.eqb p0 "." && is_digit d
                 then let '(ds, r') := span_digits r0 in ("."%char :: d :: ds, r')
                 else ([], s2)
             | _ => ([], s2) end) in H.
  assert (Hfr : length fr.2 <= length s2).
  { subst fr. destruct s2 as [|p0 [|d r0]]; simpl; try lia.
    destruct (Ascii.eqb p0 "." && is_digit d); simpl; [|lia].
    pose proof (span_digits_length r0) as Hl.
    destruct (span_digits r0) as [ds r']. simpl in *. lia. }
  destruct fr as [frac s3]. simpl in Hfr.
  match type of H with
  | (let '(expo, s4) := ?e in _) = _ => set (ex := e) in H
  end.
  assert (Hex : length ex.2 <= length s3).
  { subst ex. destruct s3 as [|e r0]; simpl; [lia|].
    destruct (Ascii.eqb e "e" || Ascii.eqb e "E"); simpl; [|lia].
    set (sg := match r0 with
               | g :: r' => if Ascii.eqb g "-" || Ascii.eqb g "+" then ([g], r') else ([], r0)
               | [] => ([], r0) end).
    assert (Hsg : length sg.2 <= length r0).
    { subst sg. destruct r0 as [|g r']; simpl; [lia|].
      destruct (Ascii.eqb g "-" || Ascii.eqb g "+"); simpl; lia. }
    destruct sg as [sign r1]. simpl in Hsg.
    pose proof (span_digits_length r1) as Hl.
    destruct (span_digits r1) as [[|d ds] r2]; simpl in *; lia. }
  destruct ex as [expo s4]. simpl in Hex.
  destruct frac, expo; try (injection H as <- <-; lia).
  destruct (int_max_str_digits <? length i)%nat; [discriminate|].
  injection H as <- <-; lia.
Qed.

Lemma scan_number_fuel (s : list ascii) : scan_number s <> inl NoFuel.
Proof.
  unfold scan_number.
  destruct (match s with
            | c :: r0 => if Ascii.eqb c "-" then (true, r0) else (false, s)
            | [] => (false, s) end) as [neg s1].
  destruct (match s1 with
            | c :: r0 =>
                if Ascii.eqb c "0" then Some ([c], r0)
                else if is_digit c then
                  let '(ds, r') := span_digits r0 in Some (c :: ds, r')
                else None
            | [] => None end) as [[i s2]|]; [|discriminate].
  destruct (match s2 with
            | p0 :: d :: r0 =>
                if Ascii.eqb p0 "." && is_digit d
                then let '(ds, r') := span_digits r0 in ("."%char :: d :: ds, r')
                else ([], s2)
            | _ => ([], s2) end) as [frac s3].
  match goal with
  | |- (let '(expo, s4) := ?e in _) <> _ => destruct e as [expo s4]
  end.
  destruct frac, expo; try discriminate.
  destruct (int_max_str_digits <? length i)%nat; discriminate.
Qed.

Lemma scan_literal_length (free : nat) (s : list ascii) (v : value) (r : list ascii) :
  scan_literal free s = inr (v, r) -> length r < length s.
Proof.
  unfold scan_literal, parse_constant. intros H.
  repeat match type of H with
  | context [strip_prefix ?w s] =>
      let E := fresh "E" in
      destruct (strip_prefix w s) eqn:E;
      [apply strip_prefix_length in E; simpl in E;
       try (destruct free; [discriminate|]); injection H as <- <-; lia|]
  end.
  eapply scan_number_length, H.
Qed.

Lemma scan_literal_fuel (free : nat) (s : list ascii) : scan_literal free s <> inl NoFuel.
Proof.
  unfold scan_literal, parse_constant.
  repeat match goal with
  | |- context [strip_prefix ?w s] =>
      destruct (strip_prefix w s); [try (destruct free); discriminate|]
  end.
  apply scan_number_fuel.
Qed.

Lemma once_step (s : list ascii) :
  (forall t, length t < length s -> members_ok t /\ elements_ok t) ->
  once_ok s.
Proof.
  intros IH free f1 f2 H1 H2.
  destruct f1 as [|f1]; [lia|]. destruct f2 as [|f2]; [lia|].
  destruct s as [|c r]; [split; [reflexivity|split; discriminate]|].
  simpl in H1, H2.
  simpl scan_once.
  destruct (Ascii.eqb c "034").
  { split; [reflexivity|]. split.
    - pose proof (scan_string_fuel (S (length r)) free r) as F.
      destruct (scan_string _ free r) as [f|[cs rest]]; [|discriminate].
      intros [= ->]. apply F. reflexivity.
    - intros v r0 H.
      destruct (scan_string _ free r) as [f|[cs rest]] eqn:E; [discriminate|].
      injection H as <- <-. apply (scan_string_length _ _ (S (length r))) in E; simpl; lia. }
  destruct (Ascii.eqb c "{").
  { destruct free as [|free]; [split; [reflexivity|split; discriminate]|].
    pose proof (skip_ws_length r) as Hw.
    destruct (skip_ws r) as [|c1 r1]; [split; [reflexivity|split; discriminate]|].
    simpl in Hw.
    destruct (Ascii.eqb c1 "}").
    - split; [reflexivity|]. split; [discriminate|]. intros v r0 [= <- <-]. simpl. lia.
    - destruct (IH (c1 :: r1)) as [Hm _]; [simpl; lia|].
      destruct (Hm free [] f1 f2) as (He & Hf & Hl); [simpl; lia..|].
      split; [exact He|]. split; [exact Hf|].
      intros v r0 H. apply Hl in H. simpl in *. lia. }
  destruct (Ascii.eqb c "[").
  { destruct free as [|free]; [split; [reflexivity|split; discriminate]|].
    pose proof (skip_ws_length r) as Hw.
    destruct (skip_ws r) as [|c1 r1]; [split; [reflexivity|split; discriminate]|].
    simpl in Hw.
    destruct (Ascii.eqb c1 "]").
    - split; [reflexivity|]. split; [discriminate|]. intros v r0 [= <- <-]. simpl. lia.
    - destruct (IH (c1 :: r1)) as [_ Hm]; [simpl; lia|].
      destruct (Hm free [] f1 f2) as (He & Hf & Hl); [simpl; lia..|].
      split; [exact He|]. split; [exact Hf|].
      intros v r0 H. apply Hl in H. simpl in *. lia. }
  split; [reflexivity|]. split; [apply scan_literal_fuel|].
  intros v r0 H. apply scan_literal_length in H. exact H.
Qed.

Lemma members_step (s : list ascii) :
  (forall t, length t < length s -> once_ok t /\ members_ok t) ->
  members_ok s.
Proof.
  intros IH free acc f1 f2 H1 H2.
  destruct f1 as [|f1]; [lia|]. destruct f2 as [|f2]; [lia|].
  simpl scan_members.
  destruct s as [|q r]; [split; [reflexivity|split; discriminate]|].
  simpl in H1, H2.
  destruct (Ascii.eqb q "034"); [|split; [reflexivity|split; discriminate]].
  pose proof (scan_string_fuel (length (q :: r)) free r) as F.
  destruct (scan_string (length (q :: r)) free r) as [f|[key r1]] eqn:E.
  { split; [reflexivity|]. split; [|discriminate]. intros [= ->]. apply F. reflexivity. }
  clear F. apply (scan_string_length _ _ (S (length r))) in E; [|lia].
  pose proof (skip_ws_length r1) as Hw1.
  destruct (skip_ws r1) as [|colon r2]; [split; [reflexivity|split; discriminate]|].
  simpl in Hw1.
  destruct (Ascii.eqb colon ":"); [|split; [reflexivity|split; discriminate]].
  pose proof (skip_ws_length r2) as Hw2.
  destruct (IH (skip_ws r2)) as [Ho _]; [simpl; lia|].
  destruct (Ho free f1 f2) as (He & Hf & Hl); [lia..|].
  rewrite <- He.
  destruct (scan_once f1 free (skip_ws r2)) as [f|[v r3]].
  { split; [reflexivity|]. split; [|discriminate]. intros [= ->]. apply Hf. reflexivity. }
  specialize (Hl v r3 eq_refl).
  pose proof (skip_ws_length r3) as Hw3.
  destruct (skip_ws r3) as [|d r4]; [split; [reflexivity|split; discriminate]|].
  simpl in Hw3.
  destruct (Ascii.eqb d "}").
  { split; [reflexivity|]. split; [discriminate|]. intros v0 r0 [= <- <-]. simpl. lia. }
  destruct (Ascii.eqb d ","); [|split; [reflexivity|split; discriminate]].
  pose proof (skip_ws_length r4) as Hw4.
  destruct (IH (skip_ws r4)) as [_ Hm]; [simpl; lia|].
  destruct (Hm free (dict_set key v acc) f1 f2) as (He' & Hf' & Hl'); [lia..|].
  split; [exact He'|]. split; [exact Hf'|]. intros v0 r0 H. apply Hl' in H. simpl. lia.
Qed.

Lemma elements_step (s : list ascii) :
  once_ok s ->
  (forall t, length t < length s -> elements_ok t) ->
  elements_ok s.
Proof.
  intros Ho IH free acc f1 f2 H1 H2.
  destruct f1 as [|f1]; [lia|]. destruct f2 as [|f2]; [lia|].
  simpl scan_elements.
  destruct (Ho free f1 f2) as (He & Hf & Hl); [lia..|].
  rewrite <- He.
  destruct (scan_once f1 free s) as [f|[v r1]].
  { split; [reflexivity|]. split; [|discriminate]. intros [= ->]. apply Hf. reflexivity. }
  specialize (Hl v r1 eq_refl).
  pose proof (skip_ws_length r1) as Hw1.
  destruct (skip_ws r1) as [|d r2]; [split; [reflexivity|split; discriminate]|].
  simpl in Hw1.
  destruct (Ascii.eqb d "]").
  { split; [reflexivity|]. split; [discriminate|]. intros v0 r0 [= <- <-]. lia. }
  destruct (Ascii.eqb d ","); [|split; [reflexivity|split; discriminate]].
  pose proof (skip_ws_length r2) as Hw2.
  assert (Hlt : length (skip_ws r2) < length s) by lia.
  destruct (IH (skip_ws r2) Hlt free (acc ++ [v]) f1 f2) as (He' & Hf' & Hl'); [lia..|].
  split; [exact He'|]. split; [exact Hf'|]. intros v0 r0 H. apply Hl' in H. lia.
Qed.

Lemma scan_ok (n : nat) :
  forall s, length s < n -> once_ok s /\ members_ok s /\ elements_ok s.
Proof.
  induction n as [|n IH]; intros s Hn; [lia|].
  assert (Ho : once_ok s).
  { apply once_step. intros t Ht. destruct (IH t) as (_ & ? & ?); [lia|]. auto. }
  split; [exact Ho|]. split.
  - apply members_step. intros t Ht. destruct (IH t) as (? & ? & _); [lia|]. auto.
  - apply elements_step; [exact Ho|]. intros t Ht. destruct (IH t) as (_ & _ & ?); [lia|]. auto.
Qed.

(** The fuel that [loads] gives is enough: more fuel would give the same
    result, an error included. *)
Lemma loads_fuel (depth : nat) (s : string) (extra : nat) :
  scan_once (2 * length (chars s) + 2 + extra) depth (skip_ws (chars s))
  = scan_once (2 * length (chars s) + 2) depth (skip_ws (chars s)).
Proof.
  pose proof (skip_ws_length (chars s)) as Hw.
  destruct (scan_ok (S (length (skip_ws (chars s)))) (skip_ws (chars s))) as [Ho _]; [lia|].
  apply Ho; lia.
Qed.

(** [json.loads] always ends: it returns a value or raises. *)
Lemma loads_ends (depth : nat) (s : string) : loads depth s <> Running.
Proof.
  unfold loads.
  pose proof (skip_ws_length (chars s)) as Hw.
  destruct (scan_ok (S (length (skip_ws (chars s)))) (skip_ws (chars s))) as [Ho _]; [lia|].
  destruct (Ho depth (2 * length (chars s) + 2) (2 * length (chars s) + 2))
    as (_ & Hf & _); [lia..|].
  destruct (scan_once _ depth (skip_ws (chars s))) as [[rem|msg rem free|during|digits|]|[v rest]];
    try discriminate.
  - exfalso. apply Hf. reflexivity.
  - destruct (skip_ws rest); discriminate.
Qed.

(** What [json.loads] raises: [JSONDecodeError] for the text it was given,
    [ValueError] or [RecursionError]. *)
Lemma loads_raises (depth : nat) (s : string) (e : exn) :
  loads depth s = Raise e ->
  (exists msg pos, e = JSONDecodeError msg s pos)
  \/ (exists msg, e = ValueError msg)
  \/ (exists msg, e = RecursionError msg).
Proof.
  assert (R : forall free msg pos,
    (exists msg' pos', raise_errmsg free msg s pos = JSONDecodeError msg' s pos')
    \/ (exists msg', raise_errmsg free msg s pos = ValueError msg')
    \/ (exists msg', raise_errmsg free msg s pos = RecursionError msg')).
  { intros [|[|[|free]]] msg pos; simpl; eauto. }
  unfold loads.
  destruct (scan_once _ depth (skip_ws (chars s))) as [[rem|msg rem free|during|digits|]|[v rest]];
    try discriminate.
  - intros [= <-]. apply R.
  - intros [= <-]. apply R.
  - intros [= <-]. eauto.
  - intros [= <-]. eauto.
  - destruct (skip_ws rest); [discriminate|]. intros [= <-]. apply R.
Qed.

End JsonFacts.

(** ** The classifiers *)

Section ClassifierFacts.
Context (env : Env).

Lemma analyze_visuals_run (f : FileObj) (w : World) :
  analyze_visuals env f w
  = (decoded (json_depth env)
       (generate_content env (trace w) VIDEO_MODEL_ID (uri f) visual_prompt),
     extend w [visual_call f]).
Proof.
  unfold analyze_visuals, bind, generate_text, json_loads, decoded, raise, ret.
  destruct (generate_content env _ _ _ _) as [msg|[t|]]; reflexivity.
Qed.

Lemma analyze_audio_run (f : FileObj) (w : World) :
  analyze_audio env f w
  = (decoded (json_depth env)
       (generate_content env (trace w) AUDIO_MODEL_ID (uri f) audio_prompt),
     extend w [audio_call f]).
Proof.
  unfold analyze_audio, bind, generate_text, json_loads, decoded, raise, ret.
  destruct (generate_content env _ _ _ _) as [msg|[t|]]; reflexivity.
Qed.

(** A classifier ends: nothing in it waits or loops. *)
Lemma decoded_ends (depth : nat) (g : gen_outcome) : decoded depth g <> Running.
Proof.
  destruct g as [msg|[t|]]; simpl; try discriminate. apply JsonFacts.loads_ends.
Qed.

Lemma poll_trace (fuel : nat) :
  forall k f w, exists evs,
    (poll env fuel k f w).2 = extend w evs /\ List.filter is_generate evs = [].
Proof.
  induction fuel as [|fuel IH]; intros k f w.
  - exists []. rewrite extend_nil. split; [|reflexivity].
    simpl. destruct (String.eqb _ _); reflexivity.
  - destruct (String.eqb (state f) "PROCESSING") eqn:E.
    + apply String.eqb_eq in E. rewrite (poll_step env fuel k f w E).
      destruct (files_get env k (name f)) as [e|f'].
      * exists [ESleep 1; EGet (name f)]. split; reflexivity.
      * destruct (IH (S k) f' (extend w [ESleep 1; EGet (name f)])) as (evs & -> & Hg).
        exists ([ESleep 1; EGet (name f)] ++ evs). rewrite extend_extend.
        split; [reflexivity|]. simpl. exact Hg.
    + apply String.eqb_neq in E. rewrite (poll_stop env _ _ _ _ E).
      exists []. rewrite extend_nil. split; reflexivity.
Qed.

Lemma upload_trace (fuel : nat) (file_path mt : string) (w : World) :
  exists evs,
    (upload_to_gemini env fuel file_path mt w).2 = extend w evs
    /\ List.filter is_generate evs = [].
Proof.
  destruct (files_upload env file_path) as [e|f0] eqn:U.
  - rewrite (upload_failed_call env fuel file_path mt w e U).
    eexists. split; reflexivity.
  - rewrite (upload_run env fuel file_path mt w f0 U).
    destruct (poll_trace fuel 0 f0
                (extend w [EPrint ("Uploading " +:+ file_path +:+ "..."); EUpload file_path]))
      as (evs & He & Hg).
    destruct (poll env fuel 0 f0 _) as [[h|e|] w1]; simpl in He; subst w1.
    + exists ([EPrint ("Uploading " +:+ file_path +:+ "..."); EUpload file_path] ++ evs).
      rewrite <- extend_extend. split; [|exact Hg].
      destruct (String.eqb (state h) "FAILED"); reflexivity.
    + exists ([EPrint ("Uploading " +:+ file_path +:+ "..."); EUpload file_path] ++ evs).
      rewrite <- extend_extend. split; [reflexivity|exact Hg].
    + exists ([EPrint ("Uploading " +:+ file_path +:+ "..."); EUpload file_path] ++ evs).
      rewrite <- extend_extend. split; [reflexivity|exact Hg].
Qed.

End ClassifierFacts.

(** ** Sequences of acquisitions *)

Lemma cache_path_inj (id id' : string) : cache_path id = cache_path id' -> id = id'.
Proof.
  unfold cache_path. intros H. apply append_inv_head in H.
  eapply append_inv_tail, H.
Qed.

Section SequenceFacts.
Context (env : Env).

(** A call that finds the file of the key absent fetches exactly once. *)
Lemma miss_fetches_once (url id : string) (w : World) :
  derived_key url = Some id ->
  disk w !! cache_path id = None ->
  fetch_count id (trace (download_youtube_video env url w).2)
  = fetch_count id (trace w) + 1.
Proof.
  intros K Hn. rewrite (download_run env url id w K).
  rewrite (bool_decide_eq_false_2 (is_Some (disk w !! cache_path id)))
    by (rewrite Hn; apply is_Some_None).
  assert (Hone : fetch_count id [EDownload url ("downloads/" +:+ id +:+ ".%(ext)s")] = 1).
  { unfold fetch_count. rewrite filter_cons_True; [reflexivity|].
    unfold is_fetch_of. apply String.eqb_refl. }
  destruct (ydl env _ url); simpl; rewrite !fetch_count_app, Hone;
    unfold fetch_count; destruct (bool_decide _); simpl; lia.
Qed.

(** With a downloader that stores [mp4] files, the paths an acquisition
    may touch. *)
Lemma acquire_touches_mp4 (source : MediaSource) (w : World) (p : string) :
  stores_mp4 env ->
  disk (acquire env source w).2 !! p <> disk w !! p ->
  p = "downloads" \/ p = "temp_upload.mp4"
  \/ exists id, source_key source = Some id /\ p = cache_path id.
Proof.
  intros Hmp4 H.
  destruct source as [url|bytes].
  - simpl in H |- *. destruct (derived_key url) as [id|] eqn:E.
    + rewrite (download_run env url id w E) in H.
      assert (D1 : (if bool_decide (is_Some (disk w !! "downloads")) then disk w
                    else <["downloads":=Dir]> (disk w)) !! p <> disk w !! p -> p = "downloads").
      { clear H. destruct (bool_decide _); [congruence|].
        destruct (decide (p = "downloads")) as [|Hne]; [auto|].
        rewrite lookup_insert_ne by congruence. congruence. }
      destruct (bool_decide (is_Some (disk w !! cache_path id))); simpl in H.
      * left. apply D1, H.
      * destruct (ydl env _ url) as [msg|ext content] eqn:Y; simpl in H.
        -- left. apply D1, H.
        -- apply Hmp4 in Y. subst ext.
           change ("downloads/" +:+ id +:+ "." +:+ "mp4") with (cache_path id) in H.
           destruct (decide (p = cache_path id)) as [->|Hne].
           ++ right; right. exists id. split; reflexivity.
           ++ left. apply D1. rewrite lookup_insert_ne in H by congruence. exact H.
    + rewrite (download_no_key env url w E) in H. simpl in H. congruence.
  - apply acquire_touches in H as [H|[H|(url & id & ext & Hs & _)]]; [auto|auto|discriminate].
Qed.

Lemma acquire_all_touches_mp4 (sources : list MediaSource) (w : World) (p : string) :
  stores_mp4 env ->
  disk (acquire_all env sources w) !! p <> disk w !! p ->
  p = "downloads" \/ p = "temp_upload.mp4"
  \/ exists source id, In source sources /\ source_key source = Some id /\ p = cache_path id.
Proof.
  intros Hmp4. revert w. induction sources as [|s rest IH]; intros w H; simpl in H.
  - congruence.
  - destruct (decide (disk (acquire env s w).2 !! p = disk w !! p)) as [Heq|Hne].
    + rewrite <- Heq in H. apply IH in H as [H|[H|(src & id & Hin & Hk & Hp)]]; [auto|auto|].
      right; right. exists src, id. split; [right; exact Hin|]. auto.
    + apply (acquire_touches_mp4 s w p Hmp4) in Hne as [Hp|[Hp|(id & Hk & Hp)]]; [auto|auto|].
      right; right. exists s, id. split; [left; reflexivity|]. auto.
Qed.

(** The file of a key, once on disk, is changed by no later acquisition. *)
Lemma changes_present (sources : list MediaSource) (id : string) (n : node) (w : World) :
  String.length id = 11 ->
  disk w !! cache_path id = Some n ->
  changes_at env (cache_path id) sources w = 0.
Proof.
  intros Hk. revert w. induction sources as [|s rest IH]; intros w Hn; simpl; [reflexivity|].
  pose proof (acquire_keeps_cache_entry env s id n w Hk Hn) as Hn'.
  rewrite decide_True by congruence. rewrite (IH _ Hn'). reflexivity.
Qed.

Lemma changes_at_most_once (sources : list MediaSource) (id : string) (w : World) :
  String.length id = 11 ->
  changes_at env (cache_path id) sources w <= 1.
Proof.
  intros Hk. revert w. induction sources as [|s rest IH]; intros w; simpl; [lia|].
  destruct (decide (disk (acquire env s w).2 !! cache_path id = disk w !! cache_path id))
    as [Heq|Hne].
  - specialize (IH (acquire env s w).2). lia.
  - destruct (disk (acquire env s w).2 !! cache_path id) as [n|] eqn:E.
    + rewrite (changes_present rest id n _ Hk E). lia.
    + destruct (disk w !! cache_path id) as [n|] eqn:E0; [|congruence].
      rewrite (acquire_keeps_cache_entry env s id n w Hk E0) in E. discriminate.
Qed.

(** An acquisition that returns the path of a key leaves something at
    that path when the downloader stores [mp4] files. *)
Lemma acquired_is_there (url p : string) (w w' : World) :
  stores_mp4 env ->
  download_youtube_video env url w = (Ret p, w') ->
  is_Some (disk w' !! p).
Proof.
  intros Hmp4 D. pose proof D as D'. apply download_path in D' as (id' & K & ->).
  rewrite (download_run env url id' w K) in D.
  destruct (bool_decide (is_Some (disk w !! cache_path id'))) eqn:E.
  - apply bool_decide_eq_true in E. injection D as <-. simpl.
    destruct (bool_decide _); [exact E|].
    rewrite lookup_insert_ne by (apply not_eq_sym, cache_path_not_dir). exact E.
  - destruct (ydl env _ url) as [msg|ext content] eqn:Y; [discriminate|].
    apply Hmp4 in Y. subst ext. injection D as <-. simpl.
    change ("downloads/" +:+ id' +:+ "." +:+ "mp4") with (cache_path id').
    rewrite lookup_insert_eq. eauto.
Qed.

End SequenceFacts.

(** ** The analysis block and the page *)

Lemma st_video_file (p : string) (w : World) :
  is_file w p = true -> st_video p w = (Ret tt, extend w [EVideo p]).
Proof. unfold st_video. intros ->. reflexivity. Qed.

Lemma st_video_no_file (p : string) (w : World) :
  is_file w p = false -> st_video p w = (Raise (video_error p), extend w [EVideo p]).
Proof. unfold st_video. intros ->. reflexivity. Qed.

Lemma is_file_written (p bytes : string) (d : gmap string node) (tr : list event) :
  is_file {| disk := <[p := File bytes]> d; trace := tr |} p = true.
Proof. unfold is_file. simpl. rewrite lookup_insert_eq. reflexivity. Qed.

Lemma is_file_extend (w : World) (evs : list event) (p : string) :
  is_file (extend w evs) p = is_file w p.
Proof. reflexivity. Qed.

(** The body of the [try] up to the two results, written out. *)
Lemma gather_run (env : Env) (fuel : nat) (p : string) (w0 : World) :
  gather env fuel p w0
  = match upload_to_gemini env fuel p "video/mp4" w0 with
    | (Ret f, w1) =>
        match decoded (json_depth env)
                (generate_content env (trace w1) VIDEO_MODEL_ID (uri f) visual_prompt) with
        | Ret v =>
            match decoded (json_depth env)
                    (generate_content env (trace w1 ++ [visual_call f])
                       AUDIO_MODEL_ID (uri f) audio_prompt) with
            | Ret a => (Ret (v, a), extend w1 [visual_call f; audio_call f])
            | Raise e => (Raise e, extend w1 [visual_call f; audio_call f])
            | Running => (Running, extend w1 [visual_call f; audio_call f])
            end
        | Raise e => (Raise e, extend w1 [visual_call f])
        | Running => (Running, extend w1 [visual_call f])
        end
    | (Raise e, w1) => (Raise e, w1)
    | (Running, w1) => (Running, w1)
    end.
Proof.
  unfold gather, bind at 1.
  destruct (upload_to_gemini env fuel p "video/mp4" w0) as [[f|e|] w1]; try reflexivity.
  unfold bind at 1. rewrite analyze_visuals_run.
  destruct (decoded _ _) as [v|e|]; try reflexivity.
  unfold bind at 1. rewrite analyze_audio_run. simpl trace.
  destruct (decoded _ _) as [a|e|]; unfold ret; rewrite ?extend_extend; reflexivity.
Qed.

Lemma analysis_logic_run (env : Env) (fuel : nat) (p : string) (w : World) :
  analysis_logic env fuel p w
  = if is_file w p then
      match gather env fuel p (extend w [EVideo p]) with
      | (Ret results, w1) => (Ret (Some results), w1)
      | (Raise e, w1) => (Ret None, extend w1 [EError ("Analysis failed: " +:+ exn_str e)])
      | (Running, w1) => (Running, w1)
      end
    else (Raise (video_error p), extend w [EVideo p]).
Proof.
  unfold analysis_logic, bind at 1, st_video.
  destruct (is_file w p); [|reflexivity].
  change (log (EVideo p) w) with (extend w [EVideo p]).
  unfold try_except, bind at 1.
  destruct (gather env fuel p (extend w [EVideo p])) as [[results|e|] w1]; reflexivity.
Qed.

Lemma analysis_block_run (fl : Floats) (env : Env) (fuel : nat) (p : string) (w : World) :
  analysis_block fl env fuel p w
  = if is_file w p then
      match gather env fuel p (extend w [EVideo p]) with
      | (Ret (v, a), w1) =>
          match results_dashboard fl v a with
          | (ws, inr _) => (Ret tt, w1, ws)
          | (ws, inl e) =>
              (Ret tt, extend w1 [EError ("Analysis failed: " +:+ raised_str e)], ws)
          end
      | (Raise e, w1) => (Ret tt, extend w1 [EError ("Analysis failed: " +:+ exn_str e)], [])
      | (Running, w1) => (Running, w1, [])
      end
    else (Raise (video_error p), extend w [EVideo p], []).
Proof.
  unfold analysis_block, st_video. destruct (is_file w p); reflexivity.
Qed.

Lemma gather_disk (env : Env) (fuel : nat) (p : string) (w0 : World) :
  disk (gather env fuel p w0).2 = disk w0.
Proof.
  rewrite gather_run.
  destruct (upload_trace env fuel p "video/mp4" w0) as (evs & He & _).
  destruct (upload_to_gemini env fuel p "video/mp4" w0) as [[f|e|] w1];
    simpl in He; subst w1; try reflexivity.
  destruct (decoded _ _) as [v|e|]; try reflexivity.
  destruct (decoded _ _) as [a|e|]; reflexivity.
Qed.

Lemma analysis_disk (env : Env) (fuel : nat) (p : string) (w : World) :
  disk (analysis_logic env fuel p w).2 = disk w.
Proof.
  rewrite analysis_logic_run. destruct (is_file w p); [|reflexivity].
  pose proof (gather_disk env fuel p (extend w [EVideo p])) as D.
  destruct (gather env fuel p (extend w [EVideo p])) as [[results|e|] w1]; exact D.
Qed.

Lemma page_after_download (env : Env) (fuel : nat) (url p : string) (w w1 : World) :
  download_youtube_video env url w = (Ret p, w1) ->
  page env fuel (YouTubeURL url) w = analysis_logic env fuel p w1.
Proof.
  intros D.
  assert (Hne : String.eqb url EmptyString = false).
  { apply String.eqb_neq. intros ->. discriminate D. }
  unfold page, input_logic, bind at 1. rewrite Hne.
  unfold try_except, bind at 1. rewrite D. reflexivity.
Qed.

Lemma page_after_upload (env : Env) (fuel : nat) (bytes : string) (w : World) :
  page env fuel (FileUpload bytes) w
  = match disk w !! "temp_upload.mp4" with
    | Some Dir =>
        (Raise (IsADirectoryError "temp_upload.mp4"), extend w [EWrite "temp_upload.mp4"])
    | _ =>
        analysis_logic env fuel "temp_upload.mp4"
          {| disk := <["temp_upload.mp4" := File bytes]> (disk w);
             trace := trace w ++ [EWrite "temp_upload.mp4"] |}
    end.
Proof.
  unfold page, input_logic, bind at 1 2, save_upload, bind, write_file, ret.
  destruct (disk w !! "temp_upload.mp4") as [[|c]|]; reflexivity.
Qed.


(** * The claims *)

(** ** Sanity checks of the model against the libraries it stands for *)

Example video_id_watch :
  derived_key "https://www.youtube.com/watch?v=dQw4w9WgXcQ" = Some "dQw4w9WgXcQ".
Proof. reflexivity. Qed.

Example video_id_short_link :
  derived_key "https://youtu.be/dQw4w9WgXcQ?t=10" = Some "dQw4w9WgXcQ".
Proof. reflexivity. Qed.

Example video_id_fragment :
  derived_key "https://www.youtube.com/watch?v=dQw4w9WgXcQ#t=1" = None.
Proof. reflexivity. Qed.

Example video_id_twelve :
  derived_key "v=abcdefghijkl" = None.
Proof. reflexivity. Qed.

Example video_id_newline :
  derived_key (text (chars "v=abcdefghijk" ++ ["010"%char])) = Some "abcdefghijk".
Proof. reflexivity. Qed.

Example video_id_latin1 :
  derived_key (text (chars "v=caf" ++ ["233"%char] ++ chars "caf" ++ ["233"%char] ++ chars "abc"))
  = Some (text (chars "caf" ++ ["233"%char] ++ chars "caf" ++ ["233"%char] ++ chars "abc")).
Proof. reflexivity. Qed.

Example video_id_two_newlines :
  derived_key (text (chars "v=abcdefghijk" ++ ["010"%char; "010"%char])) = None.
Proof. reflexivity. Qed.

Example loads_empty_object : Json.loads 994 "{}" = Ret (Json.Dict []).
Proof. reflexivity. Qed.

Example loads_padded_array :
  Json.loads 994 " [1, -20, true, null, [ ]] "
  = Ret (Json.List [Json.Int 1; Json.Int (-20); Json.Bool true; Json.Null; Json.List []]).
Proof. reflexivity. Qed.

Example loads_float : Json.loads 994 "-1.25e-2" = Ret (Json.Float "-1.25e-2").
Proof. reflexivity. Qed.

Example loads_trailing_comma :
  Json.loads 994 "[1,]" = Raise (JSONDecodeError "Expecting value" "[1,]" 3)
  /\ exn_str (JSONDecodeError "Expecting value" "[1,]" 3)
     = "Expecting value: line 1 column 4 (char 3)".
Proof. split; reflexivity. Qed.

Example loads_leading_zero :
  Json.loads 994 "01" = Raise (JSONDecodeError "Extra data" "01" 1).
Proof. reflexivity. Qed.

Example loads_extra_data :
  Json.loads 994 "{} {}" = Raise (JSONDecodeError "Extra data" "{} {}" 3)
  /\ exn_str (JSONDecodeError "Extra data" "{} {}" 3)
     = "Extra data: line 1 column 4 (char 3)".
Proof. split; reflexivity. Qed.

Example loads_bare_key :
  Json.loads 994 "{a: 1}"
  = Raise (JSONDecodeError "Expecting property name enclosed in double quotes" "{a: 1}" 1).
Proof. reflexivity. Qed.

Example loads_second_line :
  exists e,
    Json.loads 994 (text (chars ("{" +:+ quoted "a" +:+ ": 1,") ++ ["010"%char]
                          ++ chars (" " +:+ quoted "b" +:+ " 2}"))) = Raise e
    /\ exn_str e = "Expecting ':' delimiter: line 2 column 6 (char 14)".
Proof. eexists. split; reflexivity. Qed.

Example loads_open_string :
  exists e,
    Json.loads 994 (String "034" "abc") = Raise e
    /\ exn_str e = "Unterminated string starting at: line 1 column 1 (char 0)".
Proof. eexists. split; reflexivity. Qed.

Example loads_duplicate_key :
  Json.loads 994
    ("{" +:+ quoted "a" +:+ ": 1, " +:+ quoted "b" +:+ ": 2, " +:+ quoted "a" +:+ ": 3}")
  = Ret (Json.Dict [(Json.codes "a", Json.Int 3); (Json.codes "b", Json.Int 2)]).
Proof. reflexivity. Qed.

Example loads_surrogate_pair :
  Json.loads 994 (quoted "\ud83d\ude00") = Ret (Json.Str [128512%N]).
Proof. reflexivity. Qed.

Example loads_visual_answer :
  Json.loads 994
    ("{" +:+ quoted "visual_score" +:+ ": 92, " +:+ quoted "visual_verdict" +:+ ": "
     +:+ quoted "Real" +:+ ", " +:+ quoted "visual_anomalies" +:+ ": []}")
  = Ret (Json.Dict [(Json.codes "visual_score", Json.Int 92);
                    (Json.codes "visual_verdict", Json.Str (Json.codes "Real"));
                    (Json.codes "visual_anomalies", Json.List [])])
  /\ conforms true visual_schema
       (Json.Dict [(Json.codes "visual_score", Json.Int 92);
                   (Json.codes "visual_verdict", Json.Str (Json.codes "Real"));
                   (Json.codes "visual_anomalies", Json.List [])]) = true.
Proof. split; reflexivity. Qed.

(** The two limits of the interpreter: an integer of 4301 digits, and
    arrays nested deeper than the stack allows. *)
Example loads_long_integer :
  Json.loads 994 (text (repeat "7"%char 4300))
  = Ret (Json.Int (Json.digits_value (repeat "7"%char 4300)))
  /\ Json.loads 994 (text (repeat "7"%char 4301))
     = Raise (ValueError ("Exceeds the limit (4300 digits) for integer string conversion: "
                          +:+ "value has 4301 digits; "
                          +:+ "use sys.set_int_max_str_digits() to increase the limit")).
Proof. split; vm_compute; reflexivity. Qed.

Example loads_deep_nesting :
  Json.loads 994 (text (repeat "["%char 994 ++ repeat "]"%char 994))
  = Ret (Nat.iter 993 (fun v => Json.List [v]) (Json.List []))
  /\ Json.loads 994 (text (repeat "["%char 2000 ++ repeat "]"%char 2000))
     = Raise (RecursionError
                "maximum recursion depth exceeded while decoding a JSON array from a unicode string").
Proof. split; vm_compute; reflexivity. Qed.

(** ** Acquisition *)

(** C1, as amended.  The key is the identifier of the leftmost place where
    the pattern matches: two URLs that carry the same identifier [id] at
    their leftmost match both derive the key [id], and every path that
    [download_youtube_video] returns for them is [downloads/id.mp4].  The
    URL [https://www.youtube.com/watch?v=dQw4w9WgXcQ] yields the key
    [dQw4w9WgXcQ] and the path [downloads/dQw4w9WgXcQ.mp4]. *)
Theorem key_of_leftmost_occurrence :
  (forall (url1 url2 id : string) (p1 p2 : nat),
      token_at url1 p1 id ->
      (forall j id', j < p1 -> ~ pattern_at (chars url1) j id') ->
      token_at url2 p2 id ->
      (forall j id', j < p2 -> ~ pattern_at (chars url2) j id') ->
      derived_key url1 = Some id /\ derived_key url2 = Some id
      /\ forall env w1 w1' w2 w2' q1 q2,
           download_youtube_video env url1 w1 = (Ret q1, w1') ->
           download_youtube_video env url2 w2 = (Ret q2, w2') ->
           q1 = cache_path id /\ q2 = cache_path id)
  /\ derived_key "https://www.youtube.com/watch?v=dQw4w9WgXcQ" = Some "dQw4w9WgXcQ"
  /\ cache_path "dQw4w9WgXcQ" = "downloads/dQw4w9WgXcQ.mp4".
Proof.
  split; [|split; reflexivity].
  intros url1 url2 id p1 p2 T1 L1 T2 L2.
  assert (K : forall url p, token_at url p id ->
            (forall j id', j < p -> ~ pattern_at (chars url) j id') ->
            derived_key url = Some id).
  { intros url p T L. apply derived_key_some. exists p, (chars id).
    split; [symmetry; apply text_chars|]. split; [apply token_pattern, T|exact L]. }
  pose proof (K _ _ T1 L1) as K1. pose proof (K _ _ T2 L2) as K2.
  split; [exact K1|]. split; [exact K2|].
  intros env w1 w1' w2 w2' q1 q2 D1 D2.
  apply download_path in D1 as (i1 & E1 & ->). apply download_path in D2 as (i2 & E2 & ->).
  split; congruence.
Qed.

(** C1, witness: a short link and a watch link with a further parameter. *)
Lemma key_of_leftmost_occurrence_witness :
  derived_key "https://youtu.be/dQw4w9WgXcQ" = Some "dQw4w9WgXcQ"
  /\ derived_key "https://www.youtube.com/watch?v=dQw4w9WgXcQ&t=42" = Some "dQw4w9WgXcQ".
Proof.
  destruct (proj1 key_of_leftmost_occurrence
              "https://youtu.be/dQw4w9WgXcQ"
              "https://www.youtube.com/watch?v=dQw4w9WgXcQ&t=42"
              "dQw4w9WgXcQ" 16 30) as (K1 & K2 & _).
  - exists (chars "https://youtu.be"), (chars "/"), [].
    repeat split; try reflexivity. right; reflexivity.
  - apply none_before_sound. vm_compute. reflexivity.
  - exists (chars "https://www.youtube.com/watch?"), (chars "v="), (chars "&t=42").
    repeat split; try reflexivity. left; reflexivity.
  - apply none_before_sound. vm_compute. reflexivity.
  - split; assumption.
Defined.

(** C1, counterexample to the claim as stated: both URLs carry the
    identifier [dQw4w9WgXcQ] in an accepted position, the second after
    [v=] and up to the end of the text, yet the second derives the key
    [SomeChannel], the path segment that matches first. *)
Lemma key_differs_for_same_identifier :
  token_at "https://youtu.be/dQw4w9WgXcQ" 16 "dQw4w9WgXcQ"
  /\ token_at "https://www.youtube.com/c/SomeChannel/watch?v=dQw4w9WgXcQ" 44 "dQw4w9WgXcQ"
  /\ derived_key "https://youtu.be/dQw4w9WgXcQ" = Some "dQw4w9WgXcQ"
  /\ derived_key "https://www.youtube.com/c/SomeChannel/watch?v=dQw4w9WgXcQ" = Some "SomeChannel".
Proof.
  split; [|split; [|split; reflexivity]].
  - exists (chars "https://youtu.be"), (chars "/"), [].
    repeat split; try reflexivity. right; reflexivity.
  - exists (chars "https://www.youtube.com/c/SomeChannel/watch?"), (chars "v="), [].
    repeat split; try reflexivity. left; reflexivity.
Qed.

(** C2, as amended.  For a source whose key has its file [downloads/key.mp4]
    (and with it the directory) on disk, the acquisition returns that
    path, leaves the disk as it is and makes two existence checks and a
    toast: no directory creation, no write, no fetch.  Consequently, once
    an acquisition for a key has left that file on disk, by a hit or by a
    fetch, which is then the only one it made, no later acquisition of the
    session fetches for that key again.  An acquisition whose fetch failed
    leaves no file, and the next one with the same key fetches again. *)
Theorem cache_hit_skips_fetch :
  (forall env source id w,
      source_key source = Some id ->
      is_Some (disk w !! "downloads") ->
      is_Some (disk w !! cache_path id) ->
      acquire env source w
      = (Ret (cache_path id),
         extend w [EExists "downloads"; EExists (cache_path id);
                   EToast ("Found " +:+ id +:+ " in cache. Skipping download!")]))
  /\ (forall env source id w sources,
      source_key source = Some id ->
      let w' := (acquire env source w).2 in
      is_Some (disk w' !! cache_path id) ->
      fetch_count id (trace w') <= fetch_count id (trace w) + 1
      /\ fetch_count id (trace (acquire_all env sources w')) = fetch_count id (trace w'))
  /\ (forall env source id w msg,
      source_key source = Some id ->
      (acquire env source w).1 = Raise (DownloadError msg) ->
      let w' := (acquire env source w).2 in
      disk w' !! cache_path id = None
      /\ fetch_count id (trace w') = fetch_count id (trace w) + 1
      /\ forall env' source',
           source_key source' = Some id ->
           fetch_count id (trace (acquire env' source' w').2)
           = fetch_count id (trace w') + 1).
Proof.
  split; [|split].
  - intros env [url|bytes] id w K Hd Hf; [|discriminate K]. simpl in K |- *.
    rewrite (download_run env url id w K).
    rewrite (bool_decide_eq_true_2 _ Hd), (bool_decide_eq_true_2 _ Hf).
    unfold extend. simpl. rewrite <- !app_assoc. reflexivity.
  - intros env [url|bytes] id w sources K w' Hf; [|discriminate K].
    simpl in K, w', Hf. split.
    + subst w'. rewrite (download_run env url id w K).
      destruct (bool_decide (is_Some (disk w !! cache_path id))); simpl.
      * rewrite !fetch_count_app. unfold fetch_count.
        destruct (bool_decide _); simpl; lia.
      * destruct (ydl env _ url); simpl; rewrite !fetch_count_app; unfold fetch_count at 2 3 4 5;
          destruct (bool_decide _); simpl;
          match goal with |- context [filter ?P [?e]] =>
            pose proof (length_filter P [e]) as Hl; simpl in Hl end; lia.
    + apply acquire_all_keeps_entry; [|exact Hf].
      subst w'. rewrite (download_run env url id w K) in *.
      destruct (bool_decide (is_Some (disk w !! "downloads"))) eqn:Ed.
      * apply bool_decide_eq_true in Ed.
        destruct (bool_decide (is_Some (disk w !! cache_path id))); simpl; [exact Ed|].
        destruct (ydl env _ url); simpl; [exact Ed|].
        rewrite lookup_insert_is_Some'; tauto.
      * destruct (bool_decide (is_Some (disk w !! cache_path id))); simpl.
        { rewrite lookup_insert_is_Some'; tauto. }
        destruct (ydl env _ url); simpl.
        { rewrite lookup_insert_is_Some'; tauto. }
        rewrite !lookup_insert_is_Some'; tauto.
  - intros env [url|bytes] id w msg K R w'; [|discriminate K]. simpl in K, R, w'.
    assert (Hmiss : disk w !! cache_path id = None).
    { rewrite (download_run env url id w K) in R.
      destruct (bool_decide (is_Some (disk w !! cache_path id))) eqn:E; [discriminate R|].
      apply bool_decide_eq_false in E.
      destruct (disk w !! cache_path id); [exfalso; apply E; eauto|reflexivity]. }
    assert (Hstill : disk w' !! cache_path id = None).
    { subst w'. rewrite (download_run env url id w K) in R |- *.
      rewrite (bool_decide_eq_false_2 (is_Some (disk w !! cache_path id))) in R |- *
        by (rewrite Hmiss; apply is_Some_None).
      destruct (ydl env _ url); [|discriminate R]. simpl.
      destruct (bool_decide _); [exact Hmiss|].
      rewrite lookup_insert_ne by (apply not_eq_sym, cache_path_not_dir). exact Hmiss. }
    split; [exact Hstill|]. split.
    + apply miss_fetches_once; assumption.
    + intros env' [url'|bytes'] K'; [|discriminate K']. simpl in K' |- *.
      apply miss_fetches_once; assumption.
Qed.

(** C2, witness: a hit on a disk that holds the file. *)
Lemma cache_hit_skips_fetch_witness :
  acquire mp4_env (YouTubeURL "https://youtu.be/dQw4w9WgXcQ") cached_world
  = (Ret "downloads/dQw4w9WgXcQ.mp4",
     extend cached_world
       [EExists "downloads"; EExists "downloads/dQw4w9WgXcQ.mp4";
        EToast "Found dQw4w9WgXcQ in cache. Skipping download!"]).
Proof.
  apply (proj1 cache_hit_skips_fetch mp4_env (YouTubeURL "https://youtu.be/dQw4w9WgXcQ")
           "dQw4w9WgXcQ" cached_world).
  - reflexivity.
  - exists Dir. vm_compute. reflexivity.
  - exists (File "old bytes"). vm_compute. reflexivity.
Defined.

(** C2, counterexample to the claim as stated: with a downloader that
    fails, two acquisitions with the key [dQw4w9WgXcQ], by two URLs, fetch
    twice. *)
Lemma failed_fetch_is_repeated :
  source_key (YouTubeURL "https://youtu.be/dQw4w9WgXcQ") = Some "dQw4w9WgXcQ"
  /\ source_key (YouTubeURL "https://www.youtube.com/watch?v=dQw4w9WgXcQ") = Some "dQw4w9WgXcQ"
  /\ fetch_count "dQw4w9WgXcQ"
       (trace (acquire_all failing_env
                 [YouTubeURL "https://youtu.be/dQw4w9WgXcQ";
                  YouTubeURL "https://www.youtube.com/watch?v=dQw4w9WgXcQ"] empty_world)) = 2.
Proof. vm_compute. repeat split; reflexivity. Qed.

(** C3.  A URL in which the pattern matches nowhere makes
    [download_youtube_video] raise [ValueError("Could not extract video ID
    from URL")] with the world as it was: the disk is unchanged and no
    call at all, to the disk or to the network, has been made.  The page
    then shows the error and does nothing else: no upload, no request. *)
Theorem no_identifier_no_effect (env : Env) (url : string) (w : World) :
  (forall pos id, ~ pattern_at (chars url) pos id) ->
  download_youtube_video env url w
  = (Raise (ValueError "Could not extract video ID from URL"), w)
  /\ forall fuel, url <> EmptyString ->
       page env fuel (YouTubeURL url) w
       = (Ret None,
          extend w [EError "Could not download video: Could not extract video ID from URL"]).
Proof.
  intros H.
  assert (D : download_youtube_video env url w
              = (Raise (ValueError "Could not extract video ID from URL"), w))
    by (apply download_no_key; apply derived_key_none, H).
  split; [exact D|].
  intros fuel Hne. apply String.eqb_neq in Hne.
  unfold page, input_logic, bind at 1. rewrite Hne.
  unfold try_except, bind at 1. rewrite D. reflexivity.
Qed.

(** C3, witness: an identifier of five characters. *)
Lemma no_identifier_no_effect_witness :
  download_youtube_video mp4_env "https://www.youtube.com/watch?v=short" empty_world
  = (Raise (ValueError "Could not extract video ID from URL"), empty_world).
Proof.
  apply (no_identifier_no_effect mp4_env "https://www.youtube.com/watch?v=short" empty_world).
  apply no_pattern_sound. vm_compute. reflexivity.
Defined.

(** C6, as amended.  No sequence of acquisitions, URLs and uploads mixed,
    changes an existing [downloads/key.mp4].  With a downloader that
    stores its file as [mp4], what a sequence changes on disk is the
    directory [downloads], the file [temp_upload.mp4] and files
    [downloads/key.mp4] for keys of its URLs; the file of a key is changed
    by at most one acquisition of the sequence, the one that creates it,
    and is there after every acquisition that returns its path.  An upload
    writes its bytes to [temp_upload.mp4] every time, over what was
    there. *)
Theorem cache_entries_are_never_overwritten :
  (forall env sources w k n,
      String.length k = 11 ->
      disk w !! cache_path k = Some n ->
      disk (acquire_all env sources w) !! cache_path k = Some n)
  /\ (forall env sources w p,
      stores_mp4 env ->
      disk (acquire_all env sources w) !! p <> disk w !! p ->
      p = "downloads" \/ p = "temp_upload.mp4"
      \/ exists source id,
           In source sources /\ source_key source = Some id /\ p = cache_path id)
  /\ (forall env sources w id,
      String.length id = 11 ->
      changes_at env (cache_path id) sources w <= 1)
  /\ (forall env url w p w',
      stores_mp4 env ->
      acquire env (YouTubeURL url) w = (Ret p, w') ->
      (exists id, derived_key url = Some id /\ p = cache_path id)
      /\ is_Some (disk w' !! p))
  /\ (forall env bytes w,
      disk w !! "temp_upload.mp4" <> Some Dir ->
      acquire env (FileUpload bytes) w
      = (Ret "temp_upload.mp4",
         {| disk := <["temp_upload.mp4" := File bytes]> (disk w);
            trace := trace w ++ [EWrite "temp_upload.mp4"] |})).
Proof.
  split; [|split; [|split; [|split]]].
  - intros env sources. induction sources as [|s rest IH]; intros w k n Hk Hn; simpl.
    + exact Hn.
    + apply IH; [exact Hk|]. apply acquire_keeps_cache_entry; assumption.
  - intros env sources w p Hmp4. apply acquire_all_touches_mp4, Hmp4.
  - intros env sources w id Hk. apply changes_at_most_once, Hk.
  - intros env url w p w' Hmp4 A. simpl in A. split.
    + eapply download_path, A.
    + eapply acquired_is_there; [exact Hmp4|exact A].
  - intros env bytes w H. simpl. unfold save_upload, bind, write_file, ret.
    destruct (disk w !! "temp_upload.mp4") as [[|c]|]; [congruence|reflexivity|reflexivity].
Qed.

(** C6, witness: with a downloader that stores [mp4] files, a hit, an
    upload and a download under another key; the cached file survives,
    and the one path changed under [downloads/] is that of the new key. *)
Lemma cache_entries_are_never_overwritten_witness :
  disk (acquire_all mp4_env
          [YouTubeURL "https://youtu.be/dQw4w9WgXcQ"; FileUpload "other";
           YouTubeURL "https://youtu.be/abcdefghijk"] cached_world)
    !! "downloads/dQw4w9WgXcQ.mp4" = Some (File "old bytes")
  /\ ("downloads/abcdefghijk.mp4" = "downloads" \/ "downloads/abcdefghijk.mp4" = "temp_upload.mp4"
      \/ exists source id,
           In source [YouTubeURL "https://youtu.be/dQw4w9WgXcQ"; FileUpload "other";
                      YouTubeURL "https://youtu.be/abcdefghijk"]
           /\ source_key source = Some id
           /\ "downloads/abcdefghijk.mp4" = cache_path id).
Proof.
  split.
  - apply (proj1 cache_entries_are_never_overwritten mp4_env _ cached_world "dQw4w9WgXcQ").
    + reflexivity.
    + vm_compute. reflexivity.
  - apply (proj1 (proj2 cache_entries_are_never_overwritten) mp4_env _ cached_world).
    + intros tr url ext content [= <- _]. reflexivity.
    + vm_compute. discriminate.
Defined.

(** C6, counterexample to the claim as stated: two uploads write
    [temp_upload.mp4], a file outside [downloads/], and the second
    replaces what the first left there. *)
Lemma upload_rewrites_its_file :
  disk (acquire mp4_env (FileUpload "first video") empty_world).2 !! "temp_upload.mp4"
  = Some (File "first video")
  /\ disk (acquire_all mp4_env [FileUpload "first video"; FileUpload "second video"] empty_world)
     !! "temp_upload.mp4"
  = Some (File "second video")
  /\ trace (acquire_all mp4_env [FileUpload "first video"; FileUpload "second video"] empty_world)
  = [EWrite "temp_upload.mp4"; EWrite "temp_upload.mp4"].
Proof. vm_compute. repeat split; reflexivity. Qed.

(** C10, as amended.  Any text in which eleven characters of
    [[A-Za-z0-9_-]] stand after [v=] or [/] and before [?], [&], [/] or
    the end is accepted, whatever its scheme or host: the lookup never
    raises the [ValueError], and the key is the identifier of the
    leftmost match of the pattern, which starts at or before the given
    token and is that token when it starts where the token does.
    [https://example.com/abcdefghijk] has the key [abcdefghijk]. *)
Theorem any_url_with_token_is_accepted :
  (forall (url tok : string) (pos : nat),
      token_at url pos tok ->
      (exists p' key,
          p' <= pos /\ pattern_at (chars url) p' (chars key)
          /\ (forall j id', j < p' -> ~ pattern_at (chars url) j id')
          /\ derived_key url = Some key
          /\ (p' = pos -> key = tok))
      /\ forall env w,
           (download_youtube_video env url w).1
           <> Raise (ValueError "Could not extract video ID from URL"))
  /\ derived_key "https://example.com/abcdefghijk" = Some "abcdefghijk".
Proof.
  split; [|reflexivity].
  intros url tok pos T. pose proof (token_pattern _ _ _ T) as P.
  destruct (derived_key url) as [key|] eqn:E.
  - pose proof E as E'. apply derived_key_some in E' as (p' & id & -> & Hp & Hl).
    split.
    + exists p', (text id). rewrite chars_text.
      split.
      { destruct (decide (p' <= pos)) as [|Hgt]; [assumption|].
        exfalso. apply (Hl pos (chars tok)); [lia|exact P]. }
      split; [exact Hp|]. split; [exact Hl|]. split; [reflexivity|].
      intros ->. rewrite (pattern_at_unique _ _ _ _ Hp P). apply text_chars.
    + intros env w. rewrite (download_run env url _ w E).
      destruct (bool_decide _); [discriminate|].
      destruct (ydl env _ url); discriminate.
  - exfalso. exact (proj1 (derived_key_none url) E pos (chars tok) P).
Qed.

(** C10, witness: a token in an [ftp] URL. *)
Lemma any_url_with_token_is_accepted_witness :
  exists key, derived_key "ftp://files.example.org/pub/abc-DEF_123?x=1" = Some key.
Proof.
  destruct (proj1 any_url_with_token_is_accepted
              "ftp://files.example.org/pub/abc-DEF_123?x=1" "abc-DEF_123" 27)
    as [(p' & key & _ & _ & _ & K & _) _].
  - exists (chars "ftp://files.example.org/pub"), (chars "/"), (chars "?x=1").
    repeat split; try reflexivity. right; reflexivity.
  - exists key. exact K.
Defined.

(** C10, counterexample to the claim as stated: the URL contains the
    token [ABCDEFGHIJK] after a [/] and up to the end, and the key is
    [abcdefghijk], the token that comes first. *)
Lemma later_token_is_not_the_key :
  token_at "https://example.com/abcdefghijk/ABCDEFGHIJK" 31 "ABCDEFGHIJK"
  /\ derived_key "https://example.com/abcdefghijk/ABCDEFGHIJK" = Some "abcdefghijk".
Proof.
  split; [|reflexivity].
  exists (chars "https://example.com/abcdefghijk"), (chars "/"), [].
  repeat split; try reflexivity. right; reflexivity.
Qed.

(** ** Ingestion *)

(** C4.  With a file store whose upload reports PROCESSING and whose
    status requests answer PROCESSING, PROCESSING, READY,
    [upload_to_gemini] sleeps one second before each of exactly three
    status requests and returns the READY handle.  If the answer of the
    upload is counted as the first of the three (PROCESSING from the
    upload, then PROCESSING and READY from status requests), three answers
    are read, two of them from status requests, and the READY handle is
    returned.  If the upload reports FAILED, [upload_to_gemini] raises
    [ValueError("Video processing failed at Google's end.")] at once: no
    sleep, no status request. *)
Theorem ingestion_state_machine :
  (forall env fuel file_path mt w f0 f1 f2 f3,
      files_upload env file_path = inr f0 -> state f0 = "PROCESSING" ->
      files_get env 0 (name f0) = inr f1 -> state f1 = "PROCESSING" ->
      files_get env 1 (name f1) = inr f2 -> state f2 = "PROCESSING" ->
      files_get env 2 (name f2) = inr f3 -> state f3 = "READY" ->
      3 <= fuel ->
      upload_to_gemini env fuel file_path mt w
      = (Ret f3, extend w (upload_events file_path ++
                           [ESleep 1; EGet (name f0); ESleep 1; EGet (name f1);
                            ESleep 1; EGet (name f2)])))
  /\ (forall env fuel file_path mt w f0 f1 f2,
      files_upload env file_path = inr f0 -> state f0 = "PROCESSING" ->
      files_get env 0 (name f0) = inr f1 -> state f1 = "PROCESSING" ->
      files_get env 1 (name f1) = inr f2 -> state f2 = "READY" ->
      2 <= fuel ->
      upload_to_gemini env fuel file_path mt w
      = (Ret f2, extend w (upload_events file_path ++
                           [ESleep 1; EGet (name f0); ESleep 1; EGet (name f1)])))
  /\ (forall env fuel file_path mt w f0,
      files_upload env file_path = inr f0 -> state f0 = "FAILED" ->
      upload_to_gemini env fuel file_path mt w
      = (Raise failed_error, extend w (upload_events file_path))).
Proof.
  split; [|split].
  - intros env fuel file_path mt w f0 f1 f2 f3 U S0 G0 S1 G1 S2 G2 S3 Hle.
    rewrite (upload_done env fuel file_path mt w f0 f3 3 U); try assumption.
    + simpl. rewrite G0. simpl. rewrite G1. simpl. rewrite G2. reflexivity.
    + intros [|[|[|i]]] Hi; simpl; [| rewrite G0 | rewrite G0, G1 | lia]; eauto.
    + simpl. rewrite G0, G1, G2. reflexivity.
    + rewrite S3. discriminate.
    + rewrite S3. discriminate.
  - intros env fuel file_path mt w f0 f1 f2 U S0 G0 S1 G1 S2 Hle.
    rewrite (upload_done env fuel file_path mt w f0 f2 2 U); try assumption.
    + simpl. rewrite G0. simpl. rewrite G1. reflexivity.
    + intros [|[|i]] Hi; simpl; [| rewrite G0 | lia]; eauto.
    + simpl. rewrite G0, G1. reflexivity.
    + rewrite S2. discriminate.
    + rewrite S2. discriminate.
  - intros env fuel file_path mt w f0 U S0.
    rewrite (upload_run env fuel file_path mt w f0 U).
    rewrite poll_stop by (rewrite S0; discriminate).
    rewrite S0. reflexivity.
Qed.

(** C4, witness: the scripted store, three turns of fuel. *)
Lemma ingestion_state_machine_witness :
  upload_to_gemini
    (scripted_env "PROCESSING" ["PROCESSING"; "PROCESSING"; "READY"]
       (FetchFailed "offline") (fun _ => GenFailed "offline"))
    3 "downloads/dQw4w9WgXcQ.mp4" "video/mp4" empty_world
  = (Ret (handle_in "READY"),
     extend empty_world
       (upload_events "downloads/dQw4w9WgXcQ.mp4" ++
        [ESleep 1; EGet "files/video"; ESleep 1; EGet "files/video";
         ESleep 1; EGet "files/video"])).
Proof.
  apply (proj1 ingestion_state_machine _ 3 _ _ empty_world
           (handle_in "PROCESSING") (handle_in "PROCESSING") (handle_in "PROCESSING")
           (handle_in "READY")); first [reflexivity | lia].
Defined.

(** C8.  There is no timeout in [upload_to_gemini]: against a store that
    answers PROCESSING to the upload and to every status request it is
    still running after any number [fuel] of turns of the loop, each turn
    being one [time.sleep(1)] followed by one status request.  When it
    does end, it ends on a handle whose state is no longer PROCESSING (and
    is not FAILED), on the failure raised for FAILED, or on an exception
    of the client. *)
Theorem polling_has_no_timeout :
  (forall env fuel file_path mt w f0,
      files_upload env file_path = inr f0 ->
      (forall n, still_processing env 0 f0 n) ->
      upload_to_gemini env fuel file_path mt w
      = (Running, extend w (upload_events file_path ++ poll_events env 0 f0 fuel))
      /\ exists names, length names = fuel
           /\ poll_events env 0 f0 fuel = flat_map (fun nm => [ESleep 1; EGet nm]) names)
  /\ (forall env fuel file_path mt w r w',
      upload_to_gemini env fuel file_path mt w = (r, w') ->
      match r with
      | Ret h => state h <> "PROCESSING" /\ state h <> "FAILED"
      | Raise e =>
          e = failed_error
          \/ files_upload env file_path = inl e
          \/ exists k nm, files_get env k nm = inl e
      | Running => True
      end).
Proof.
  split.
  - intros env fuel file_path mt w f0 U Hp. split.
    + rewrite (upload_run env fuel file_path mt w f0 U).
      rewrite (poll_running env fuel 0 f0 _ (Hp (S fuel))).
      rewrite extend_extend. reflexivity.
    + apply poll_events_shape, Hp.
  - intros env fuel file_path mt w r w'. apply upload_result.
Qed.

(** C8, witness: a thousand turns against a store that never finishes. *)
Lemma polling_has_no_timeout_witness :
  (upload_to_gemini
     (scripted_env "PROCESSING" [] (FetchFailed "offline") (fun _ => GenFailed "offline"))
     1000 "temp_upload.mp4" "video/mp4" empty_world).1 = Running.
Proof.
  destruct (proj1 polling_has_no_timeout
              (scripted_env "PROCESSING" [] (FetchFailed "offline") (fun _ => GenFailed "offline"))
              1000 "temp_upload.mp4" "video/mp4" empty_world (handle_in "PROCESSING"))
    as [-> _].
  - reflexivity.
  - intros n i _. exists (handle_in "PROCESSING"). split; [|reflexivity].
    generalize 0. induction i as [|i IH]; intros k; [reflexivity|].
    simpl. destruct k as [|k]; simpl; apply IH.
  - reflexivity.
Defined.

(** C9.  Whatever state the store reports once it stops reporting
    PROCESSING, if it is not FAILED then [upload_to_gemini] returns the
    handle that carries it, without error: READY is not asked for. *)
Theorem any_other_state_is_success
    (env : Env) (fuel : nat) (file_path mt : string) (w : World)
    (f0 h : FileObj) (n : nat) :
  files_upload env file_path = inr f0 ->
  still_processing env 0 f0 n ->
  observe env 0 f0 n = inr h ->
  state h <> "PROCESSING" ->
  state h <> "FAILED" ->
  n <= fuel ->
  upload_to_gemini env fuel file_path mt w
  = (Ret h, extend w (upload_events file_path ++ poll_events env 0 f0 n)).
Proof. apply upload_done. Qed.

(** C9, witness: a store that ends in the state STATE_UNSPECIFIED. *)
Lemma any_other_state_is_success_witness :
  (upload_to_gemini
     (scripted_env "PROCESSING" ["PROCESSING"; "STATE_UNSPECIFIED"]
        (FetchFailed "offline") (fun _ => GenFailed "offline"))
     5 "temp_upload.mp4" "video/mp4" empty_world).1
  = Ret (handle_in "STATE_UNSPECIFIED").
Proof.
  rewrite (any_other_state_is_success _ 5 "temp_upload.mp4" "video/mp4" empty_world
             (handle_in "PROCESSING") (handle_in "STATE_UNSPECIFIED") 2).
  - reflexivity.
  - reflexivity.
  - intros [|[|i]] Hi; [eexists; split; reflexivity..|lia].
  - reflexivity.
  - discriminate.
  - discriminate.
  - lia.
Defined.

(** ** Classification and the run of the page *)




(** C5, as amended.  For an answer with a text, a classifier makes its one
    request and gives what [json.loads] makes of the text: it fails when
    [json.loads] raises, with that exception, a [JSONDecodeError], a
    [ValueError] or a [RecursionError], and otherwise returns the decoded
    document whole, whatever its shape; nothing compares it with the
    schema.  The dashboard then reads a score that is missing from a
    decoded object as [0]. *)
Theorem classifiers_decode_without_validation :
  (forall env f w txt,
      generate_content env (trace w) VIDEO_MODEL_ID (uri f) visual_prompt = GenText (Some txt) ->
      analyze_visuals env f w = (Json.loads (json_depth env) txt, extend w [visual_call f]))
  /\ (forall env f w txt,
      generate_content env (trace w) AUDIO_MODEL_ID (uri f) audio_prompt = GenText (Some txt) ->
      analyze_audio env f w = (Json.loads (json_depth env) txt, extend w [audio_call f]))
  /\ (forall depth txt,
      (exists v, Json.loads depth txt = Ret v)
      \/ (exists msg pos, Json.loads depth txt = Raise (JSONDecodeError msg txt pos))
      \/ (exists msg, Json.loads depth txt = Raise (ValueError msg))
      \/ (exists msg, Json.loads depth txt = Raise (RecursionError msg)))
  /\ (forall items,
      Json.dict_lookup (Json.codes "visual_score") items = None ->
      v_score (Json.Dict items) = inr (Json.Int 0))
  /\ (forall items,
      Json.dict_lookup (Json.codes "audio_score") items = None ->
      a_score (Json.Dict items) = inr (Json.Int 0)).
Proof.
  split; [|split; [|split; [|split]]].
  - intros env f w txt G. rewrite analyze_visuals_run, G. reflexivity.
  - intros env f w txt G. rewrite analyze_audio_run, G. reflexivity.
  - intros depth txt.
    pose proof (JsonFacts.loads_ends depth txt) as He.
    pose proof (JsonFacts.loads_raises depth txt) as Hr.
    destruct (Json.loads depth txt) as [v|e|]; [eauto| |congruence].
    right. destruct (Hr e eq_refl) as [(msg & pos & ->)|[(msg & ->)|(msg & ->)]]; eauto.
  - intros items H. unfold v_score, py_get. rewrite H. reflexivity.
  - intros items H. unfold a_score, py_get. rewrite H. reflexivity.
Qed.

(** C5, witness: an empty object as the visual answer. *)
Lemma classifiers_decode_without_validation_witness :
  analyze_visuals unspecified_env (handle_in "ACTIVE") empty_world
  = (Ret (Json.Dict []), extend empty_world [visual_call (handle_in "ACTIVE")])
  /\ v_score (Json.Dict []) = inr (Json.Int 0).
Proof.
  split.
  - apply (proj1 classifiers_decode_without_validation unspecified_env
             (handle_in "ACTIVE") empty_world "{}"). reflexivity.
  - apply (proj1 (proj2 (proj2 (proj2 classifiers_decode_without_validation))) []). reflexivity.
Defined.

(** C5, counterexample to the claim as stated: the visual answer gives
    the score as a string, which no reading of the schema allows, and the
    audio answer is an empty object, with the score missing; both
    classifiers return the decoded document without error, and the
    dashboard reads the missing audio score as [0]. *)
Lemma schema_violation_is_returned :
  analyze_visuals sloppy_env (handle_in "ACTIVE") empty_world
  = (Ret (Json.Dict [(Json.codes "visual_score", Json.Str (Json.codes "high"))]),
     extend empty_world [visual_call (handle_in "ACTIVE")])
  /\ conforms false visual_schema
       (Json.Dict [(Json.codes "visual_score", Json.Str (Json.codes "high"))]) = false
  /\ analyze_audio sloppy_env (handle_in "ACTIVE") empty_world
     = (Ret (Json.Dict []), extend empty_world [audio_call (handle_in "ACTIVE")])
  /\ conforms true audio_schema (Json.Dict []) = false
  /\ a_score (Json.Dict []) = inr (Json.Int 0).
Proof. vm_compute. repeat split; reflexivity. Qed.

(** * Further properties *)

(** ** Helpers *)

Lemma word_or_dash_plain (c : ascii) :
  Re.word_or_dash c = true -> c <> "/"%char /\ c <> "."%char.
Proof.
  destruct c as [[] [] [] [] [] [] [] []]; vm_compute; intros H;
    first [discriminate H | repeat split; discriminate].
Qed.

Lemma cache_path_inj_ext (id ext : string) :
  "downloads/" +:+ id +:+ "." +:+ ext = cache_path id -> ext = "mp4".
Proof.
  unfold cache_path. intros H. apply append_inv_head in H.
  apply append_same_length in H as [_ H]; [|reflexivity].
  injection H as H. exact H.
Qed.

Lemma chars_append (a b : string) : chars (a +:+ b) = chars a ++ chars b.
Proof. induction a as [|c a IH]; simpl; [reflexivity|]. rewrite IH. reflexivity. Qed.

Lemma ends_id_extend (rest t : list ascii) (c : ascii) (r : list ascii) :
  t = c :: r -> starts_tail c = true ->
  ~ In "010"%char rest ->
  ends_id rest = true -> ends_id (rest ++ t) = true.
Proof.
  intros -> Hc Hn He. destruct rest as [|c0 r0]; simpl.
  - unfold starts_tail in Hc. rewrite Hc. reflexivity.
  - simpl in He. destruct (Ascii.eqb c0 "?" || Ascii.eqb c0 "&" || Ascii.eqb c0 "/") eqn:E;
      [reflexivity|].
    simpl in He. apply andb_prop in He as [He _]. apply Ascii.eqb_eq in He. subst c0.
    exfalso. apply Hn. left. reflexivity.
Qed.

Lemma ends_id_restrict (rest t : list ascii) :
  t <> [] -> ends_id (rest ++ t) = true -> ends_id rest = true.
Proof.
  intros Ht He. destruct rest as [|c0 r0]; [reflexivity|].
  simpl in *. destruct (Ascii.eqb c0 "?" || Ascii.eqb c0 "&" || Ascii.eqb c0 "/");
    [reflexivity|].
  simpl in He. apply andb_prop in He as [_ He]. apply bool_decide_eq_true in He.
  destruct r0; [destruct t; [congruence|discriminate]|discriminate].
Qed.

Lemma pattern_at_bound (s : list ascii) (pos : nat) (id : list ascii) :
  pattern_at s pos id -> pos + 12 <= length s.
Proof.
  intros (pre & sep & rest & -> & <- & Hsep & Hl & _).
  rewrite !length_app, Hl. destruct Hsep as [-> | ->]; simpl; lia.
Qed.

Section IngestionFacts.
Context (env : Env).

Lemma poll_raises (n : nat) :
  forall fuel k f w e,
    still_processing env k f (S n) ->
    observe env k f (S n) = inl e ->
    n < fuel ->
    poll env fuel k f w = (Raise e, extend w (poll_events env k f (S n))).
Proof.
  induction n as [|n IH]; intros fuel k f w e Hp Ho Hlt.
  - destruct fuel as [|fuel]; [lia|].
    destruct (Hp 0 (Nat.lt_0_succ _)) as (h & [= <-] & Hs).
    simpl in Ho. rewrite (poll_step env fuel k f w Hs). simpl.
    destruct (files_get env k (name f)) as [e'|f'] eqn:G; [|discriminate].
    injection Ho as ->. reflexivity.
  - destruct fuel as [|fuel]; [lia|].
    destruct (Hp 1) as (h1 & Ho1 & _); [lia|]. simpl in Ho1.
    destruct (files_get env k (name f)) as [e'|f'] eqn:G; [discriminate|].
    destruct (still_processing_step env k f f' (S n) G Hp) as [Hf Hp'].
    rewrite (poll_step env fuel k f w Hf), G.
    assert (Ho' : observe env (S k) f' (S n) = inl e).
    { change (observe env k f (S (S n))) with
        (match files_get env k (name f) with
         | inl e0 => inl e0 | inr f'0 => observe env (S k) f'0 (S n) end) in Ho.
      rewrite G in Ho. exact Ho. }
    rewrite (IH fuel (S k) f' _ e Hp' Ho') by lia.
    rewrite extend_extend.
    change (poll_events env k f (S (S n))) with
      (ESleep 1 :: EGet (name f) ::
       match files_get env k (name f) with
       | inl _ => [] | inr f'0 => poll_events env (S k) f'0 (S n) end).
    rewrite G. reflexivity.
Qed.

(** Every turn of the loop is a sleep of one second and then a status
    request; there are at most [fuel] turns. *)
Lemma poll_shape (fuel : nat) :
  forall k f w, exists names,
    length names <= fuel
    /\ (poll env fuel k f w).2 = extend w (flat_map (fun nm => [ESleep 1; EGet nm]) names).
Proof.
  induction fuel as [|fuel IH]; intros k f w.
  - exists []. split; [reflexivity|]. rewrite extend_nil.
    simpl. destruct (String.eqb _ _); reflexivity.
  - destruct (String.eqb (state f) "PROCESSING") eqn:E.
    + apply String.eqb_eq in E. rewrite (poll_step env fuel k f w E).
      destruct (files_get env k (name f)) as [e|f'].
      * exists [name f]. split; [simpl; lia|]. reflexivity.
      * destruct (IH (S k) f' (extend w [ESleep 1; EGet (name f)])) as (names & Hl & ->).
        exists (name f :: names). split; [simpl; lia|].
        rewrite extend_extend. reflexivity.
    + apply String.eqb_neq in E. rewrite (poll_stop env _ _ _ _ E).
      exists []. split; [simpl; lia|]. rewrite extend_nil. reflexivity.
Qed.

(** Once the loop has split; [reflexivity|split; discriminate], more fuel changes nothing. *)
Lemma poll_fuel (fuel : nat) :
  forall k f w extra,
    (poll env fuel k f w).1 <> Running ->
    poll env (fuel + extra) k f w = poll env fuel k f w.
Proof.
  induction fuel as [|fuel IH]; intros k f w extra H.
  - destruct (String.eqb (state f) "PROCESSING") eqn:E.
    + exfalso. apply H. simpl. rewrite E. reflexivity.
    + apply String.eqb_neq in E. rewrite !(poll_stop env _ _ _ _ E). reflexivity.
  - destruct (String.eqb (state f) "PROCESSING") eqn:E.
    + apply String.eqb_eq in E. simpl plus.
      rewrite (poll_step env fuel k f w E) in H.
      rewrite (poll_step env fuel k f w E), (poll_step env (fuel + extra) k f w E).
      destruct (files_get env k (name f)) as [e|f']; [reflexivity|].
      apply IH, H.
    + apply String.eqb_neq in E. rewrite !(poll_stop env _ _ _ _ E). reflexivity.
Qed.

End IngestionFacts.

Lemma dbind_all {A B} (P : widget -> bool) (c : Dash A) (k : A -> Dash B) :
  forallb P c.1 = true ->
  (forall a, forallb P (k a).1 = true) ->
  forallb P (dbind c k).1 = true.
Proof.
  intros Hc Hk. destruct c as [ws [e|a]]; simpl in *; [exact Hc|].
  specialize (Hk a). destruct (k a) as [ws' r]. simpl in *.
  rewrite forallb_app, Hc, Hk. reflexivity.
Qed.

Lemma for_each_all (P : widget -> bool) (items : list Json.value)
    (body : Json.value -> Dash unit) :
  (forall x, forallb P (body x).1 = true) ->
  forallb P (for_each items body).1 = true.
Proof.
  intros Hb. induction items as [|x rest IH]; simpl; [reflexivity|].
  apply dbind_all; [apply Hb|]. intros _. exact IH.
Qed.

Lemma eval_exn_all {A} (P : widget -> bool) (x : exn + A) : forallb P (eval_exn x).1 = true.
Proof. reflexivity. Qed.

Lemma eval_all {A} (P : widget -> bool) (x : raised + A) : forallb P (eval x).1 = true.
Proof. reflexivity. Qed.

Lemma gt_numeric (fl : Floats) (v : Json.value) (n : Z) (b : bool) :
  gt fl v n = inr b -> numeric v = true.
Proof. destruct v; simpl; intros H; first [reflexivity | discriminate H]. Qed.

Lemma score_then_all (P : widget -> bool) (fl : Floats) (title : string)
    (score : Json.value) (k : bool -> Dash unit) :
  (forall b, numeric score = true -> forallb P (k b).1 = true) ->
  forallb P (dbind (eval (gt fl score 80)) k).1 = true.
Proof.
  intros Hk. destruct (gt fl score 80) as [e|b] eqn:E; simpl; [reflexivity|].
  specialize (Hk b (gt_numeric _ _ _ _ E)). destruct (k b) as [ws r]. exact Hk.
Qed.

Lemma py_get_found items key default x :
  Json.dict_lookup (Json.codes key) items = Some x ->
  py_get (Json.Dict items) key default = inr x.
Proof. intros H. unfold py_get. rewrite H. reflexivity. Qed.

Lemma py_get_missing items key default :
  Json.dict_lookup (Json.codes key) items = None ->
  py_get (Json.Dict items) key default = inr default.
Proof. intros H. unfold py_get. rewrite H. reflexivity. Qed.

Lemma dbind_value {A B} (a : A) (k : A -> Dash B) : dbind ([], inr a) k = k a.
Proof. unfold dbind. destruct (k a). reflexivity. Qed.

Lemma dbind_show {B} (x : widget) (k : unit -> Dash B) :
  dbind (show x) k = (x :: (k tt).1, (k tt).2).
Proof. unfold dbind, show. destruct (k tt). reflexivity. Qed.

Lemma for_each_cons (x : Json.value) (rest : list Json.value)
    (body : Json.value -> Dash unit) :
  for_each (x :: rest) body = dbind (body x) (fun _ => for_each rest body).
Proof. reflexivity. Qed.

Lemma anomaly_loop_good (good : list Json.value) (ws : list widget) :
  Forall2 (fun a x => warning_of a = inr x) good ws ->
  forall rest,
    anomaly_loop (good ++ rest) = (ws ++ (anomaly_loop rest).1, (anomaly_loop rest).2).
Proof.
  induction 1 as [|a x good ws Ha _ IH]; intros rest.
  - simpl. destruct (anomaly_loop rest); reflexivity.
  - unfold anomaly_loop in *. rewrite <- app_comm_cons, for_each_cons. cbv beta.
    unfold warning_of in Ha.
    destruct (subscript a "time") as [e|t]; [discriminate|].
    destruct (subscript a "desc") as [e|d]; [discriminate|].
    injection Ha as <-.
    unfold eval. rewrite dbind_value. cbv beta. rewrite dbind_value. cbv beta.
    rewrite dbind_show. rewrite IH. reflexivity.
Qed.

Lemma anomaly_loop_bad (a : Json.value) (e : raised) (rest : list Json.value) :
  warning_of a = inl e -> anomaly_loop (a :: rest) = ([], inl e).
Proof.
  unfold anomaly_loop, warning_of. rewrite for_each_cons. cbv beta. intros H.
  destruct (subscript a "time") as [e1|t]; [injection H as ->; reflexivity|].
  destruct (subscript a "desc") as [e2|d]; [injection H as ->; reflexivity|discriminate].
Qed.

Lemma visual_report_anomalies (fl : Floats) (items : list (list N * Json.value))
    (z : Z) (verdict : Json.value) (a : Json.value) (more : list Json.value) :
  Json.dict_lookup (Json.codes "visual_score") items = Some (Json.Int z) ->
  py_get (Json.Dict items) "visual_verdict" Json.Null = inr verdict ->
  Json.dict_lookup (Json.codes "visual_anomalies") items = Some (Json.List (a :: more)) ->
  visual_report fl (Json.Dict items)
  = ([ScoreLine "Visual" (if (80 <? z)%Z then "green" else "red") (Json.Int z);
      Caption verdict] ++ (anomaly_loop (a :: more)).1,
     (anomaly_loop (a :: more)).2).
Proof.
  intros Hs Hv Ha. unfold visual_report, v_score.
  rewrite (py_get_found _ _ _ _ Hs), Hv, (py_get_found _ _ _ _ Ha).
  unfold eval_exn, eval, gt, truthy, iterate.
  repeat (first [rewrite dbind_value | rewrite dbind_show]; cbv beta iota).
  reflexivity.
Qed.

(** ** [download_youtube_video]: keys and files *)

(** X1.  A key is always eleven characters of the class [[\w-]] of the
    pattern, which holds more than the ASCII letters, digits, underscore
    and hyphen (the letter U+00E9 is in it) but neither [/] nor [.]: the
    path that [download_youtube_video] returns is [downloads/] followed by
    the key and [.mp4], a file directly inside the cache directory. *)
Theorem key_stays_in_downloads (url key : string) :
  derived_key url = Some key ->
  String.length key = 11
  /\ (forall c, In c (chars key) ->
        Re.word_or_dash c = true /\ c <> "/"%char /\ c <> "."%char)
  /\ forall env w w' p,
       download_youtube_video env url w = (Ret p, w') ->
       p = "downloads/" +:+ key +:+ ".mp4".
Proof.
  intros K. split; [eapply derived_key_length, K|]. split.
  - pose proof K as K'.
    apply derived_key_some in K' as (pos & id & -> & (pre & sep & rest & _ & _ & _ & _ & Hw & _) & _).
    rewrite chars_text. intros c Hc.
    rewrite forallb_forall in Hw. specialize (Hw c Hc).
    split; [exact Hw|]. apply word_or_dash_plain, Hw.
  - intros env w w' p D. apply download_path in D as (id & E & ->).
    unfold cache_path. congruence.
Qed.

(** X1, witness. *)
Lemma key_stays_in_downloads_witness :
  String.length "dQw4w9WgXcQ" = 11.
Proof.
  exact (proj1 (key_stays_in_downloads "https://youtu.be/dQw4w9WgXcQ" "dQw4w9WgXcQ" eq_refl)).
Defined.

(** X2.  In a URL without a line break, text added after the URL that
    starts with [?], [&] or [/] leaves the key as it was: a link with
    further parameters or a longer path is cached under the same file. *)
Theorem key_survives_suffix (url id : string) (c : ascii) (rest : string) :
  derived_key url = Some id ->
  starts_tail c = true ->
  ~ In "010"%char (chars url) ->
  derived_key (url +:+ String c rest) = Some id.
Proof.
  intros K Hc Hn.
  apply derived_key_some in K as (pos & idl & -> & Hp & Hl).
  apply derived_key_some. exists pos, idl. split; [reflexivity|].
  rewrite chars_append. set (t := chars (String c rest)).
  assert (Ht : t = c :: chars rest) by reflexivity.
  assert (Hne : t <> []) by (rewrite Ht; discriminate).
  split.
  - destruct Hp as (pre & sep & rest0 & Hs & Hpre & Hsep & Hlen & Hw & He).
    exists pre, sep, (rest0 ++ t). rewrite Hs, <- !app_assoc.
    split; [reflexivity|]. split; [exact Hpre|]. split; [exact Hsep|].
    split; [exact Hlen|]. split; [exact Hw|].
    eapply ends_id_extend; [exact Ht|exact Hc| |exact He].
    intros Hin. apply Hn. rewrite Hs. rewrite !in_app_iff. auto.
  - intros j id' Hj (pre' & sep' & rest' & Hs' & Hpre' & Hsep' & Hlen' & Hw' & He').
    pose proof (pattern_at_bound _ _ _ Hp) as Hb.
    set (A := pre' ++ sep' ++ id').
    assert (HA : length A <= length (chars url)).
    { unfold A. rewrite !length_app, Hpre', Hlen'.
      destruct Hsep' as [-> | ->]; simpl; lia. }
    assert (Hs'' : chars url ++ t = A ++ rest')
      by (unfold A; rewrite <- !app_assoc; exact Hs').
    assert (Htake : take (length A) (chars url) = A).
    { apply (f_equal (take (length A))) in Hs''.
      rewrite take_app_le in Hs'' by exact HA.
      rewrite take_app_length in Hs''. exact Hs''. }
    assert (Hdrop : rest' = drop (length A) (chars url) ++ t).
    { apply (f_equal (drop (length A))) in Hs''.
      rewrite drop_app_le in Hs'' by exact HA.
      rewrite drop_app_length in Hs''. symmetry. exact Hs''. }
    apply (Hl j id' Hj).
    exists pre', sep', (drop (length A) (chars url)).
    split.
    { rewrite <- (take_drop (length A) (chars url)) at 1. rewrite Htake.
      unfold A. rewrite <- !app_assoc. reflexivity. }
    split; [exact Hpre'|]. split; [exact Hsep'|]. split; [exact Hlen'|].
    split; [exact Hw'|].
    eapply ends_id_restrict; [exact Hne|]. rewrite <- Hdrop. exact He'.
Qed.

(** X2, witness. *)
Lemma key_survives_suffix_witness :
  derived_key ("https://youtu.be/dQw4w9WgXcQ" +:+ String "?" "si=abc&t=42") = Some "dQw4w9WgXcQ".
Proof.
  apply (key_survives_suffix "https://youtu.be/dQw4w9WgXcQ" "dQw4w9WgXcQ" "?" "si=abc&t=42").
  - reflexivity.
  - reflexivity.
  - vm_compute. intuition discriminate.
Defined.

(** X3.  When the file of the key is absent and the downloader stores an
    [.mp4], [download_youtube_video] returns the path of the key, the
    file at that path holds what the downloader delivered, nothing else
    on disk but the directory [downloads] has changed, and the next call
    for the same key, by any URL and with any downloader, is a hit that
    changes nothing on disk. *)
Theorem fetched_file_is_at_returned_path (env : Env) (url id content : string) (w : World) :
  derived_key url = Some id ->
  disk w !! cache_path id = None ->
  (forall tr, ydl env tr url = FetchSaved "mp4" content) ->
  let r := download_youtube_video env url w in
  r.1 = Ret (cache_path id)
  /\ disk r.2 !! cache_path id = Some (File content)
  /\ (forall p, p <> cache_path id -> p <> "downloads" -> disk r.2 !! p = disk w !! p)
  /\ forall env' url',
       derived_key url' = Some id ->
       download_youtube_video env' url' r.2
       = (Ret (cache_path id),
          extend r.2 [EExists "downloads"; EExists (cache_path id);
                      EToast ("Found " +:+ id +:+ " in cache. Skipping download!")]).
Proof.
  intros K Hn Hy r.
  assert (Hr : r = (Ret (cache_path id),
            {| disk := <[cache_path id := File content]>
                         (if bool_decide (is_Some (disk w !! "downloads")) then disk w
                          else <["downloads" := Dir]> (disk w));
               trace := ((trace w ++ [EExists "downloads"])
                          ++ (if bool_decide (is_Some (disk w !! "downloads")) then []
                              else [EMakedirs "downloads"])
                          ++ [EExists (cache_path id)])
                        ++ [EDownload url ("downloads/" +:+ id +:+ ".%(ext)s")] |})).
  { subst r. rewrite (download_run env url id w K).
    rewrite (bool_decide_eq_false_2 (is_Some (disk w !! cache_path id)))
      by (rewrite Hn; apply is_Some_None).
    rewrite Hy. reflexivity. }
  rewrite Hr. simpl. split; [reflexivity|]. split; [apply lookup_insert_eq|]. split.
  - intros p Hp Hd. rewrite lookup_insert_ne by congruence.
    destruct (bool_decide _); [reflexivity|]. apply lookup_insert_ne. congruence.
  - intros env' url' K'.
    rewrite (download_run env' url' id _ K'). simpl.
    assert (Hdir : is_Some ((<[cache_path id := File content]>
                (if bool_decide (is_Some (disk w !! "downloads")) then disk w
                 else <["downloads" := Dir]> (disk w))) !! "downloads")).
    { rewrite lookup_insert_is_Some'. right.
      destruct (bool_decide (is_Some (disk w !! "downloads"))) eqn:E.
      - apply bool_decide_eq_true in E. exact E.
      - rewrite lookup_insert_eq. eauto. }
    rewrite (bool_decide_eq_true_2 _ Hdir).
    rewrite bool_decide_eq_true_2 by (rewrite lookup_insert_eq; eauto).
    unfold extend. simpl. rewrite <- !app_assoc. reflexivity.
Qed.

(** X3, witness. *)
Lemma fetched_file_is_at_returned_path_witness :
  disk (download_youtube_video mp4_env "https://youtu.be/dQw4w9WgXcQ" empty_world).2
    !! "downloads/dQw4w9WgXcQ.mp4" = Some (File "mp4 bytes").
Proof.
  apply (fetched_file_is_at_returned_path mp4_env "https://youtu.be/dQw4w9WgXcQ"
           "dQw4w9WgXcQ" "mp4 bytes" empty_world); reflexivity.
Defined.

(** X4.  When the downloader stores the video under an extension other
    than [mp4], [download_youtube_video] still returns
    [downloads/key.mp4]: no file of that name exists afterwards, the
    video lies at [downloads/key.ext], and the next call for the key
    finds no cache entry and fetches once more. *)
Theorem other_extension_leaves_path_dangling (env : Env) (url id ext content : string) (w : World) :
  derived_key url = Some id ->
  disk w !! cache_path id = None ->
  ext <> "mp4" ->
  (forall tr, ydl env tr url = FetchSaved ext content) ->
  let r := download_youtube_video env url w in
  r.1 = Ret (cache_path id)
  /\ disk r.2 !! cache_path id = None
  /\ disk r.2 !! ("downloads/" +:+ id +:+ "." +:+ ext) = Some (File content)
  /\ forall env' url',
       derived_key url' = Some id ->
       fetch_count id (trace (download_youtube_video env' url' r.2).2)
       = fetch_count id (trace r.2) + 1.
Proof.
  intros K Hn Hext Hy r.
  assert (Hne : "downloads/" +:+ id +:+ "." +:+ ext <> cache_path id).
  { intros H. apply Hext. eapply cache_path_inj_ext, H. }
  assert (Hr : r.1 = Ret (cache_path id)
               /\ disk r.2 !! cache_path id = None
               /\ disk r.2 !! ("downloads/" +:+ id +:+ "." +:+ ext) = Some (File content)).
  { subst r. rewrite (download_run env url id w K).
    rewrite (bool_decide_eq_false_2 (is_Some (disk w !! cache_path id)))
      by (rewrite Hn; apply is_Some_None).
    rewrite Hy. simpl. split; [reflexivity|]. split; [|apply lookup_insert_eq].
    rewrite lookup_insert_ne by exact Hne.
    destruct (bool_decide _); [exact Hn|].
    rewrite lookup_insert_ne by (apply not_eq_sym, cache_path_not_dir). exact Hn. }
  destruct Hr as (H1 & H2 & H3). split; [exact H1|]. split; [exact H2|]. split; [exact H3|].
  intros env' url' K'.
  apply miss_fetches_once; assumption.
Qed.

(** X4, witness. *)
Lemma other_extension_leaves_path_dangling_witness :
  disk (download_youtube_video webm_env "https://youtu.be/dQw4w9WgXcQ" empty_world).2
    !! "downloads/dQw4w9WgXcQ.mp4" = None.
Proof.
  apply (other_extension_leaves_path_dangling webm_env "https://youtu.be/dQw4w9WgXcQ"
           "dQw4w9WgXcQ" "webm" "webm bytes" empty_world); try reflexivity.
  discriminate.
Defined.

(** X5.  When the downloader fails, [download_youtube_video] raises its
    error after having made sure that the directory [downloads] exists;
    nothing else on disk changes, and the page shows [Could not download
    video:] with the message and runs no analysis. *)
Theorem failed_download_is_reported (env : Env) (url id msg : string) (w : World) :
  derived_key url = Some id ->
  disk w !! cache_path id = None ->
  (forall tr, ydl env tr url = FetchFailed msg) ->
  let r := download_youtube_video env url w in
  r.1 = Raise (DownloadError msg)
  /\ is_Some (disk r.2 !! "downloads")
  /\ (forall p, p <> "downloads" -> disk r.2 !! p = disk w !! p)
  /\ forall fuel,
       page env fuel (YouTubeURL url) w
       = (Ret None, extend r.2 [EError ("Could not download video: " +:+ msg)]).
Proof.
  intros K Hn Hy r.
  assert (Hurl : String.eqb url EmptyString = false).
  { apply String.eqb_neq. intros ->. discriminate K. }
  assert (Hr : r = (Raise (DownloadError msg),
            {| disk := (if bool_decide (is_Some (disk w !! "downloads")) then disk w
                        else <["downloads" := Dir]> (disk w));
               trace := ((trace w ++ [EExists "downloads"])
                          ++ (if bool_decide (is_Some (disk w !! "downloads")) then []
                              else [EMakedirs "downloads"])
                          ++ [EExists (cache_path id)])
                        ++ [EDownload url ("downloads/" +:+ id +:+ ".%(ext)s")] |})).
  { subst r. rewrite (download_run env url id w K).
    rewrite (bool_decide_eq_false_2 (is_Some (disk w !! cache_path id)))
      by (rewrite Hn; apply is_Some_None).
    rewrite Hy. reflexivity. }
  split; [rewrite Hr; reflexivity|]. split; [|split].
  - rewrite Hr. simpl. destruct (bool_decide (is_Some (disk w !! "downloads"))) eqn:E.
    + apply bool_decide_eq_true in E. exact E.
    + rewrite lookup_insert_eq. eauto.
  - intros p Hp. rewrite Hr. simpl. destruct (bool_decide _); [reflexivity|].
    apply lookup_insert_ne. congruence.
  - intros fuel. unfold page, input_logic, bind at 1. rewrite Hurl.
    unfold try_except, bind at 1. fold r. rewrite Hr. reflexivity.
Qed.

(** X5, witness. *)
Lemma failed_download_is_reported_witness :
  page failing_env 5 (YouTubeURL "https://youtu.be/dQw4w9WgXcQ") empty_world
  = (Ret None,
     extend (download_youtube_video failing_env "https://youtu.be/dQw4w9WgXcQ" empty_world).2
       [EError "Could not download video: Video unavailable"]).
Proof.
  apply (failed_download_is_reported failing_env "https://youtu.be/dQw4w9WgXcQ"
           "dQw4w9WgXcQ" "Video unavailable" empty_world); reflexivity.
Defined.

(** ** [upload_to_gemini]: how the polling ends *)

(** X6.  If the store reports FAILED after any number [n] of PROCESSING
    answers, [upload_to_gemini] raises [ValueError("Video processing
    failed at Google's end.")] after exactly those [n] turns of the
    loop. *)
Theorem failure_after_polling_is_raised
    (env : Env) (fuel : nat) (file_path mt : string) (w : World)
    (f0 h : FileObj) (n : nat) :
  files_upload env file_path = inr f0 ->
  still_processing env 0 f0 n ->
  observe env 0 f0 n = inr h ->
  state h = "FAILED" ->
  n <= fuel ->
  upload_to_gemini env fuel file_path mt w
  = (Raise failed_error, extend w (upload_events file_path ++ poll_events env 0 f0 n)).
Proof.
  intros U Hp Ho Hf Hle.
  rewrite (upload_run env fuel file_path mt w f0 U).
  rewrite (poll_done env n fuel 0 f0 _ h Hp Ho) by (try rewrite Hf; first [discriminate | lia]).
  rewrite Hf. simpl. rewrite extend_extend. reflexivity.
Qed.

(** X6, witness. *)
Lemma failure_after_polling_is_raised_witness :
  (upload_to_gemini
     (scripted_env "PROCESSING" ["PROCESSING"; "FAILED"]
        (FetchFailed "offline") (fun _ => GenFailed "offline"))
     7 "temp_upload.mp4" "video/mp4" empty_world).1
  = Raise failed_error.
Proof.
  rewrite (failure_after_polling_is_raised _ 7 "temp_upload.mp4" "video/mp4" empty_world
             (handle_in "PROCESSING") (handle_in "FAILED") 2).
  - reflexivity.
  - reflexivity.
  - intros [|[|i]] Hi; [eexists; split; reflexivity..|lia].
  - reflexivity.
  - reflexivity.
  - lia.
Defined.

(** X7.  An exception of the client ends the ingestion with that
    exception and is not retried: raised by the upload, nothing follows
    the upload; raised by a status request after [n] PROCESSING answers,
    that request was the last of [n + 1]. *)
Theorem client_errors_end_ingestion :
  (forall env fuel file_path mt w e,
      files_upload env file_path = inl e ->
      upload_to_gemini env fuel file_path mt w
      = (Raise e, extend w (upload_events file_path)))
  /\ (forall env fuel file_path mt w f0 e n,
      files_upload env file_path = inr f0 ->
      still_processing env 0 f0 (S n) ->
      observe env 0 f0 (S n) = inl e ->
      n < fuel ->
      upload_to_gemini env fuel file_path mt w
      = (Raise e, extend w (upload_events file_path ++ poll_events env 0 f0 (S n)))
      /\ length (List.filter is_get (poll_events env 0 f0 (S n))) = S n).
Proof.
  split.
  - intros env fuel file_path mt w e U. apply upload_failed_call, U.
  - intros env fuel file_path mt w f0 e n U Hp Ho Hlt. split.
    + rewrite (upload_run env fuel file_path mt w f0 U).
      rewrite (poll_raises env n fuel 0 f0 _ e Hp Ho Hlt).
      rewrite extend_extend. reflexivity.
    + clear U Hlt w. revert Hp Ho. generalize 0 as k. revert f0.
      induction n as [|n IH]; intros f0 k Hp Ho.
      * simpl in *. destruct (files_get env k (name f0)); [reflexivity|discriminate].
      * destruct (Hp 1) as (h1 & Ho1 & _); [lia|]. simpl in Ho1.
        destruct (files_get env k (name f0)) as [e'|f'] eqn:G; [discriminate|].
        destruct (still_processing_step env k f0 f' (S n) G Hp) as [_ Hp'].
        change (poll_events env k f0 (S (S n))) with
          (ESleep 1 :: EGet (name f0) ::
           match files_get env k (name f0) with
           | inl _ => [] | inr f'0 => poll_events env (S k) f'0 (S n) end).
        change (observe env k f0 (S (S n))) with
          (match files_get env k (name f0) with
           | inl e0 => inl e0 | inr f'0 => observe env (S k) f'0 (S n) end) in Ho.
        rewrite G in Ho |- *. simpl. f_equal. apply (IH f' (S k) Hp' Ho).
Qed.

(** X7, witness. *)
Lemma client_errors_end_ingestion_witness :
  (upload_to_gemini flaky_env 9 "temp_upload.mp4" "video/mp4" empty_world).1
  = Raise (APIError "503 Service Unavailable").
Proof.
  destruct (proj2 client_errors_end_ingestion flaky_env 9 "temp_upload.mp4" "video/mp4"
              empty_world (handle_in "PROCESSING") (APIError "503 Service Unavailable") 1)
    as [-> _].
  - reflexivity.
  - intros [|[|i]] Hi; [eexists; split; reflexivity..|lia].
  - reflexivity.
  - lia.
  - reflexivity.
Defined.

(** X8.  In every run of [upload_to_gemini], whatever the store does and
    however the run ends, the disk is untouched and the calls made are the
    print, the upload, and then pairs of a one-second sleep followed by a
    status request: no request without a sleep before it, no sleep after
    the last answer. *)
Theorem ingestion_sleeps_before_each_request
    (env : Env) (fuel : nat) (file_path mt : string) (w : World) :
  exists names,
    length names <= fuel
    /\ (upload_to_gemini env fuel file_path mt w).2
       = extend w (upload_events file_path
                   ++ flat_map (fun nm => [ESleep 1; EGet nm]) names).
Proof.
  destruct (files_upload env file_path) as [e|f0] eqn:U.
  - rewrite (upload_failed_call env fuel file_path mt w e U).
    exists []. split; [simpl; lia|]. simpl flat_map. rewrite app_nil_r. reflexivity.
  - rewrite (upload_run env fuel file_path mt w f0 U).
    destruct (poll_shape env fuel 0 f0 (extend w (upload_events file_path)))
      as (names & Hl & He).
    exists names. split; [exact Hl|].
    change (extend w [EPrint ("Uploading " +:+ file_path +:+ "..."); EUpload file_path])
      with (extend w (upload_events file_path)).
    destruct (poll env fuel 0 f0 (extend w (upload_events file_path))) as [[h|e|] w1];
      simpl in He; subst w1; rewrite extend_extend.
    + destruct (String.eqb (state h) "FAILED"); reflexivity.
    + reflexivity.
    + reflexivity.
Qed.

(** The bound on the turns of the loop is no part of an outcome: once
    [upload_to_gemini] has split; [reflexivity|split; discriminate], with a handle or with an exception, its
    result and its calls are the same under every larger bound. *)
Theorem finished_ingestion_ignores_more_fuel
    (env : Env) (fuel extra : nat) (file_path mt : string) (w : World) :
  (upload_to_gemini env fuel file_path mt w).1 <> Running ->
  upload_to_gemini env (fuel + extra) file_path mt w
  = upload_to_gemini env fuel file_path mt w.
Proof.
  destruct (files_upload env file_path) as [e|f0] eqn:U.
  - intros _. rewrite !(upload_failed_call env _ file_path mt w e U). reflexivity.
  - rewrite !(upload_run env _ file_path mt w f0 U). intros H.
    rewrite poll_fuel; [reflexivity|].
    intros Hr. apply H.
    destruct (poll env fuel 0 f0 _) as [[h|e|] w1]; simpl in Hr; try discriminate.
    reflexivity.
Qed.

(** An instance. *)
Lemma finished_ingestion_ignores_more_fuel_witness :
  upload_to_gemini
    (scripted_env "PROCESSING" ["PROCESSING"; "ACTIVE"]
       (FetchFailed "offline") (fun _ => GenFailed "offline"))
    (2 + 40) "temp_upload.mp4" "video/mp4" empty_world
  = upload_to_gemini
      (scripted_env "PROCESSING" ["PROCESSING"; "ACTIVE"]
         (FetchFailed "offline") (fun _ => GenFailed "offline"))
      2 "temp_upload.mp4" "video/mp4" empty_world.
Proof.
  apply (finished_ingestion_ignores_more_fuel _ 2 40 "temp_upload.mp4" "video/mp4" empty_world).
  vm_compute. discriminate.
Defined.

(** ** The classifiers, the analysis block and the page *)

(** X10.  When [st.video] has shown the file and the upload has returned a
    handle, the analysis block gives both results or none: when the visual
    classification fails the audio request is never made, when the audio
    classification fails the visual result is dropped, and in both cases
    the page shows [Analysis failed:] with the text of the exception; only
    when both answers decode are the two results handed on. *)
Theorem no_partial_results
    (env : Env) (fuel : nat) (p : string) (w w1 : World) (f : FileObj) :
  is_file w p = true ->
  upload_to_gemini env fuel p "video/mp4" (extend w [EVideo p]) = (Ret f, w1) ->
  let visual :=
    decoded (json_depth env)
      (generate_content env (trace w1) VIDEO_MODEL_ID (uri f) visual_prompt) in
  let audio :=
    decoded (json_depth env)
      (generate_content env (trace w1 ++ [visual_call f]) AUDIO_MODEL_ID (uri f) audio_prompt) in
  (forall e, visual = Raise e ->
     analysis_logic env fuel p w
     = (Ret None, extend w1 [visual_call f; EError ("Analysis failed: " +:+ exn_str e)]))
  /\ (forall v e, visual = Ret v -> audio = Raise e ->
     analysis_logic env fuel p w
     = (Ret None, extend w1 [visual_call f; audio_call f;
                             EError ("Analysis failed: " +:+ exn_str e)]))
  /\ (forall v a, visual = Ret v -> audio = Ret a ->
     analysis_logic env fuel p w
     = (Ret (Some (v, a)), extend w1 [visual_call f; audio_call f])).
Proof.
  intros Hf U visual audio.
  rewrite analysis_logic_run, Hf, gather_run, U. fold visual audio.
  split; [|split].
  - intros e ->. rewrite extend_extend. reflexivity.
  - intros v e -> ->. rewrite extend_extend. reflexivity.
  - intros v a -> ->. reflexivity.
Qed.

(** X10, witness: the visual answer is two objects in a row; the page
    shows the message of the decoder and no audio request is made. *)
Lemma no_partial_results_witness :
  analysis_logic garbled_env 3 "downloads/dQw4w9WgXcQ.mp4" cached_world
  = (Ret None,
     extend cached_world
       [EVideo "downloads/dQw4w9WgXcQ.mp4";
        EPrint "Uploading downloads/dQw4w9WgXcQ.mp4..."; EUpload "downloads/dQw4w9WgXcQ.mp4";
        visual_call (handle_in "ACTIVE");
        EError "Analysis failed: Extra data: line 1 column 4 (char 3)"]).
Proof.
  rewrite (proj1 (no_partial_results garbled_env 3 "downloads/dQw4w9WgXcQ.mp4" cached_world
             (extend cached_world
                (EVideo "downloads/dQw4w9WgXcQ.mp4"
                 :: upload_events "downloads/dQw4w9WgXcQ.mp4"))
             (handle_in "ACTIVE") eq_refl eq_refl)
           (JSONDecodeError "Extra data" "{} {}" 3) eq_refl).
  reflexivity.
Defined.

(** X11.  The page hands the path it has just acquired to the analysis
    block.  After an upload that is the file just written, which
    [st.video] can read.  After a download it is [downloads/key.mp4]: if
    no file is there, the downloader having stored the video elsewhere,
    [st.video] raises [MediaFileStorageError] outside any [try] and the run
    ends before any upload.  An upload that cannot be written,
    [temp_upload.mp4] being a directory, ends the run with
    [IsADirectoryError] in the same way. *)
Theorem page_runs_analysis_on_acquired_file :
  (forall env fuel url w p w1,
      download_youtube_video env url w = (Ret p, w1) ->
      (exists id, derived_key url = Some id /\ p = cache_path id)
      /\ (is_file w1 p = false ->
          page env fuel (YouTubeURL url) w = (Raise (video_error p), extend w1 [EVideo p]))
      /\ (is_file w1 p = true ->
          page env fuel (YouTubeURL url) w
          = match gather env fuel p (extend w1 [EVideo p]) with
            | (Ret results, w2) => (Ret (Some results), w2)
            | (Raise e, w2) => (Ret None, extend w2 [EError ("Analysis failed: " +:+ exn_str e)])
            | (Running, w2) => (Running, w2)
            end))
  /\ (forall env fuel bytes w,
      disk w !! "temp_upload.mp4" <> Some Dir ->
      page env fuel (FileUpload bytes) w
      = match gather env fuel "temp_upload.mp4"
                {| disk := <["temp_upload.mp4" := File bytes]> (disk w);
                   trace := trace w ++ [EWrite "temp_upload.mp4"; EVideo "temp_upload.mp4"] |} with
        | (Ret results, w2) => (Ret (Some results), w2)
        | (Raise e, w2) => (Ret None, extend w2 [EError ("Analysis failed: " +:+ exn_str e)])
        | (Running, w2) => (Running, w2)
        end)
  /\ (forall env fuel bytes w,
      disk w !! "temp_upload.mp4" = Some Dir ->
      page env fuel (FileUpload bytes) w
      = (Raise (IsADirectoryError "temp_upload.mp4"), extend w [EWrite "temp_upload.mp4"])).
Proof.
  split; [|split].
  - intros env fuel url w p w1 D. split; [eapply download_path, D|].
    rewrite (page_after_download env fuel url p w w1 D), analysis_logic_run.
    split; intros ->; reflexivity.
  - intros env fuel bytes w H. rewrite page_after_upload.
    assert (E : analysis_logic env fuel "temp_upload.mp4"
                  {| disk := <["temp_upload.mp4" := File bytes]> (disk w);
                     trace := trace w ++ [EWrite "temp_upload.mp4"] |}
                = match gather env fuel "temp_upload.mp4"
                          {| disk := <["temp_upload.mp4" := File bytes]> (disk w);
                             trace := trace w ++ [EWrite "temp_upload.mp4";
                                                  EVideo "temp_upload.mp4"] |} with
                  | (Ret results, w2) => (Ret (Some results), w2)
                  | (Raise e, w2) =>
                      (Ret None, extend w2 [EError ("Analysis failed: " +:+ exn_str e)])
                  | (Running, w2) => (Running, w2)
                  end).
    { rewrite analysis_logic_run, is_file_written. unfold extend. simpl.
      rewrite <- app_assoc. reflexivity. }
    destruct (disk w !! "temp_upload.mp4") as [[|c]|]; [congruence|exact E|exact E].
  - intros env fuel bytes w H. rewrite page_after_upload, H. reflexivity.
Qed.

(** X11, witness: the downloader stores a [.webm]; the page ends at
    [st.video]. *)
Lemma page_runs_analysis_on_acquired_file_witness :
  page webm_env 3 (YouTubeURL "https://youtu.be/dQw4w9WgXcQ") empty_world
  = (Raise (MediaFileStorageError "Error opening 'downloads/dQw4w9WgXcQ.mp4'"),
     extend (download_youtube_video webm_env "https://youtu.be/dQw4w9WgXcQ" empty_world).2
       [EVideo "downloads/dQw4w9WgXcQ.mp4"]).
Proof.
  apply (proj1 (proj2 (proj1 page_runs_analysis_on_acquired_file webm_env 3
           "https://youtu.be/dQw4w9WgXcQ" empty_world "downloads/dQw4w9WgXcQ.mp4"
           (download_youtube_video webm_env "https://youtu.be/dQw4w9WgXcQ" empty_world).2
           eq_refl))).
  vm_compute. reflexivity.
Defined.

(** X12.  Nothing after the acquisition touches the disk: the analysis
    block, with or without the dashboard, leaves every file as it found
    it, so after a run of the page the disk is the one the acquisition
    left and the acquired file is still there. *)
Theorem acquired_file_outlives_the_run :
  (forall env fuel p w, disk (analysis_logic env fuel p w).2 = disk w)
  /\ (forall fl env fuel p w, disk (analysis_block fl env fuel p w).1.2 = disk w)
  /\ (forall env fuel source w p w1,
        acquire env source w = (Ret p, w1) ->
        disk (page env fuel source w).2 = disk w1
        /\ (forall n, disk w1 !! p = Some n ->
                      disk (page env fuel source w).2 !! p = Some n)).
Proof.
  assert (B : forall fl env fuel p w, disk (analysis_block fl env fuel p w).1.2 = disk w).
  { intros fl env fuel p w. rewrite analysis_block_run.
    destruct (is_file w p); [|reflexivity].
    pose proof (gather_disk env fuel p (extend w [EVideo p])) as D.
    destruct (gather env fuel p (extend w [EVideo p])) as [[[v a]|e|] w1]; simpl in D.
    - destruct (results_dashboard fl v a) as [ws [e|[]]]; exact D.
    - exact D.
    - exact D. }
  assert (P : forall env fuel source w p w1,
             acquire env source w = (Ret p, w1) ->
             disk (page env fuel source w).2 = disk w1).
  { intros env fuel source w p w1 A. destruct source as [url|bytes]; simpl in A.
    - rewrite (page_after_download env fuel url p w w1 A). apply analysis_disk.
    - unfold page, input_logic, bind at 1 2. rewrite A. apply analysis_disk. }
  split; [apply analysis_disk|]. split; [exact B|].
  intros env fuel source w p w1 A. split; [eapply P, A|].
  intros n Hn. rewrite (P env fuel source w p w1 A). exact Hn.
Qed.

(** X12, witness. *)
Lemma acquired_file_outlives_the_run_witness :
  disk (page mp4_env 4 (FileUpload "bytes") empty_world).2 !! "temp_upload.mp4"
  = Some (File "bytes").
Proof.
  apply (proj2 (proj2 (proj2 acquired_file_outlives_the_run) mp4_env 4 (FileUpload "bytes")
           empty_world "temp_upload.mp4"
           {| disk := <["temp_upload.mp4" := File "bytes"]> ∅;
              trace := [EWrite "temp_upload.mp4"] |} eq_refl)).
  vm_compute. reflexivity.
Defined.

(** ** The results dashboard *)

(** X14.  Whatever the two results are, every score that the dashboard
    writes into the HTML of a score line is a number, an [int], a [bool]
    or a [float]: a string or a container makes the comparison with 80
    raise before the line is written. *)
Theorem score_shown_is_a_number (fl : Floats) (visual_res audio_res : Json.value) :
  forallb score_is_numeric (results_dashboard fl visual_res audio_res).1 = true.
Proof.
  unfold results_dashboard.
  apply dbind_all; [reflexivity|]; intros _.
  apply dbind_all; [reflexivity|]; intros _.
  apply dbind_all; [|intros _].
  - unfold visual_report.
    apply dbind_all; [apply eval_exn_all|]; intros score.
    apply (score_then_all _ fl "Visual"); intros above Hn.
    apply dbind_all; [simpl; rewrite Hn; reflexivity|]; intros _.
    apply dbind_all; [apply eval_exn_all|]; intros verdict.
    apply dbind_all; [reflexivity|]; intros _.
    apply dbind_all; [apply eval_exn_all|]; intros anomalies.
    destruct (truthy fl anomalies); [|reflexivity].
    apply dbind_all; [apply eval_all|]; intros items.
    apply for_each_all. intros a.
    apply dbind_all; [apply eval_all|]; intros t.
    apply dbind_all; [apply eval_all|]; intros d. reflexivity.
  - unfold audio_report.
    apply dbind_all; [apply eval_exn_all|]; intros score.
    apply (score_then_all _ fl "Audio"); intros above Hn.
    apply dbind_all; [simpl; rewrite Hn; reflexivity|]; intros _.
    apply dbind_all; [apply eval_exn_all|]; intros verdict.
    apply dbind_all; [reflexivity|]; intros _.
    apply dbind_all; [apply eval_exn_all|]; intros analysis.
    apply dbind_all; [reflexivity|]; intros _.
    apply dbind_all; [apply eval_exn_all|]; intros issues.
    apply dbind_all; [apply eval_all|]; intros items.
    apply for_each_all. intros a. reflexivity.
Qed.

(** X15.  An integer score is shown in green when it is 81 or more and
    in red when it is 80 or less, in the visual and in the audio report. *)
Theorem colour_threshold (fl : Floats) (items : list (list N * Json.value)) (z : Z) :
  (Json.dict_lookup (Json.codes "visual_score") items = Some (Json.Int z) ->
   exists rest,
     (visual_report fl (Json.Dict items)).1
     = ScoreLine "Visual" (if decide (81 <= z)%Z then "green" else "red") (Json.Int z) :: rest)
  /\ (Json.dict_lookup (Json.codes "audio_score") items = Some (Json.Int z) ->
   exists rest,
     (audio_report fl (Json.Dict items)).1
     = ScoreLine "Audio" (if decide (81 <= z)%Z then "green" else "red") (Json.Int z) :: rest).
Proof.
  assert (Hc : (if (80 <? z)%Z then "green" else "red")
               = (if decide (81 <= z)%Z then "green" else "red")).
  { destruct (80 <? z)%Z eqn:E; destruct (decide (81 <= z)%Z); try reflexivity;
      [apply Z.ltb_lt in E | apply Z.ltb_ge in E]; lia. }
  split; intros H.
  - unfold visual_report, v_score. rewrite (py_get_found _ _ _ _ H).
    unfold eval_exn, eval, gt. rewrite !dbind_value, dbind_show, Hc. simpl. eauto.
  - unfold audio_report, a_score. rewrite (py_get_found _ _ _ _ H).
    unfold eval_exn, eval, gt. rewrite !dbind_value, dbind_show, Hc. simpl. eauto.
Qed.

(** X15, witness: 80 is red. *)
Lemma colour_threshold_witness :
  exists rest,
    (visual_report no_floats (Json.Dict [(Json.codes "visual_score", Json.Int 80)])).1
    = ScoreLine "Visual" "red" (Json.Int 80) :: rest.
Proof.
  exact (proj1 (colour_threshold no_floats [(Json.codes "visual_score", Json.Int 80)] 80) eq_refl).
Defined.

(** X16.  A result object without its fields is drawn in full and
    without error: the score is [0] and red, the verdict and the analysis
    are [None], there are no issues, and the visual report says that no
    anomalies were detected. *)
Theorem missing_fields_are_defaulted (fl : Floats) (items : list (list N * Json.value)) :
  (Json.dict_lookup (Json.codes "visual_score") items = None ->
   Json.dict_lookup (Json.codes "visual_verdict") items = None ->
   Json.dict_lookup (Json.codes "visual_anomalies") items = None ->
   visual_report fl (Json.Dict items)
   = ([ScoreLine "Visual" "red" (Json.Int 0); Caption Json.Null;
       Success "No visual anomalies detected."], inr tt))
  /\ (Json.dict_lookup (Json.codes "audio_score") items = None ->
   Json.dict_lookup (Json.codes "audio_verdict") items = None ->
   Json.dict_lookup (Json.codes "acoustic_analysis") items = None ->
   Json.dict_lookup (Json.codes "detected_issues") items = None ->
   audio_report fl (Json.Dict items)
   = ([ScoreLine "Audio" "red" (Json.Int 0); Caption Json.Null; Info Json.Null], inr tt)).
Proof.
  split.
  - intros H1 H2 H3. unfold visual_report, v_score.
    rewrite !py_get_missing by assumption. reflexivity.
  - intros H1 H2 H3 H4. unfold audio_report, a_score.
    rewrite !py_get_missing by assumption. reflexivity.
Qed.

(** X16, witness. *)
Lemma missing_fields_are_defaulted_witness :
  visual_report no_floats (Json.Dict [(Json.codes "note", Json.Str (Json.codes "n/a"))])
  = ([ScoreLine "Visual" "red" (Json.Int 0); Caption Json.Null;
      Success "No visual anomalies detected."], inr tt).
Proof.
  apply (proj1 (missing_fields_are_defaulted no_floats
                  [(Json.codes "note", Json.Str (Json.codes "n/a"))])); reflexivity.
Defined.

(** X17.  A visual result that is not an object, or whose score is not a
    number, stops the dashboard after the divider and the columns, with
    an [AttributeError] or a [TypeError]: nothing of either report is
    drawn, the audio report included. *)
Theorem bad_visual_result_stops_dashboard (fl : Floats) (visual_res audio_res : Json.value) :
  ((forall items, visual_res <> Json.Dict items) ->
   exists msg,
     results_dashboard fl visual_res audio_res
     = ([Divider; Columns 2], inl (Exn (AttributeError msg))))
  /\ (forall items score,
        visual_res = Json.Dict items ->
        Json.dict_lookup (Json.codes "visual_score") items = Some score ->
        numeric score = false ->
        exists msg,
          results_dashboard fl visual_res audio_res
          = ([Divider; Columns 2], inl (Exn (TypeError msg)))).
Proof.
  split.
  - intros H. unfold results_dashboard, visual_report, v_score.
    destruct visual_res; try (eexists; reflexivity).
    exfalso. eapply H. reflexivity.
  - intros items score -> Hs Hn.
    unfold results_dashboard, visual_report, v_score.
    rewrite (py_get_found _ _ _ _ Hs).
    destruct score; try discriminate Hn; eexists; reflexivity.
Qed.

(** X17, witness. *)
Lemma bad_visual_result_stops_dashboard_witness :
  exists msg,
    results_dashboard no_floats
      (Json.Dict [(Json.codes "visual_score", Json.Str (Json.codes "high"))]) (Json.Dict [])
    = ([Divider; Columns 2], inl (Exn (TypeError msg))).
Proof.
  apply (proj2 (bad_visual_result_stops_dashboard no_floats
                  (Json.Dict [(Json.codes "visual_score", Json.Str (Json.codes "high"))])
                  (Json.Dict []))
           [(Json.codes "visual_score", Json.Str (Json.codes "high"))]
           (Json.Str (Json.codes "high"))); reflexivity.
Defined.

(** X18.  With an integer score, a non-empty list of anomalies that all
    have a [time] and a [desc] gives one warning each, in order, and no
    success message.  If one of them lacks a field, the warnings of those
    before it are on the page, and the report stops there with the
    [KeyError] (or [TypeError]) of that subscript. *)
Theorem anomalies_become_warnings (fl : Floats) (items : list (list N * Json.value))
    (z : Z) (verdict : Json.value) (good : list Json.value) (ws : list widget) :
  Json.dict_lookup (Json.codes "visual_score") items = Some (Json.Int z) ->
  py_get (Json.Dict items) "visual_verdict" Json.Null = inr verdict ->
  Forall2 (fun a x => warning_of a = inr x) good ws ->
  (good <> [] ->
   Json.dict_lookup (Json.codes "visual_anomalies") items = Some (Json.List good) ->
   visual_report fl (Json.Dict items)
   = ([ScoreLine "Visual" (if (80 <? z)%Z then "green" else "red") (Json.Int z);
       Caption verdict] ++ ws, inr tt))
  /\ (forall bad e rest,
        warning_of bad = inl e ->
        Json.dict_lookup (Json.codes "visual_anomalies") items
        = Some (Json.List (good ++ bad :: rest)) ->
        visual_report fl (Json.Dict items)
        = ([ScoreLine "Visual" (if (80 <? z)%Z then "green" else "red") (Json.Int z);
            Caption verdict] ++ ws, inl e)).
Proof.
  intros Hs Hv Hg. split.
  - intros Hne Ha. destruct good as [|a more]; [congruence|].
    rewrite (visual_report_anomalies fl items z verdict a more Hs Hv Ha).
    pose proof (anomaly_loop_good _ _ Hg []) as H. rewrite app_nil_r in H.
    rewrite H. simpl. rewrite app_nil_r. reflexivity.
  - intros bad e rest Hb Ha.
    destruct (good ++ bad :: rest) as [|a more] eqn:E.
    { destruct good; discriminate E. }
    rewrite (visual_report_anomalies fl items z verdict a more Hs Hv Ha).
    rewrite <- E. rewrite (anomaly_loop_good _ _ Hg (bad :: rest)).
    rewrite (anomaly_loop_bad bad e rest Hb). simpl. rewrite app_nil_r. reflexivity.
Qed.

(** X18, witness. *)
Lemma anomalies_become_warnings_witness :
  visual_report no_floats
    (Json.Dict [(Json.codes "visual_score", Json.Int 35);
                (Json.codes "visual_anomalies",
                 Json.List [anomaly "00:03" "blink";
                            Json.Dict [(Json.codes "desc", Json.Str (Json.codes "shadow"))];
                            anomaly "00:09" "warp"])])
  = ([ScoreLine "Visual" "red" (Json.Int 35); Caption Json.Null;
      Warning (Json.Str (Json.codes "00:03")) (Json.Str (Json.codes "blink"))],
     inl (KeyError "time")).
Proof.
  apply (proj2 (anomalies_become_warnings no_floats
                  [(Json.codes "visual_score", Json.Int 35);
                   (Json.codes "visual_anomalies",
                    Json.List [anomaly "00:03" "blink";
                               Json.Dict [(Json.codes "desc", Json.Str (Json.codes "shadow"))];
                               anomaly "00:09" "warp"])]
                  35 Json.Null
                  [anomaly "00:03" "blink"]
                  [Warning (Json.Str (Json.codes "00:03")) (Json.Str (Json.codes "blink"))]
                  eq_refl eq_refl
                  ltac:(repeat constructor))
           (Json.Dict [(Json.codes "desc", Json.Str (Json.codes "shadow"))])
           (KeyError "time") [anomaly "00:09" "warp"]); reflexivity.
Defined.

(** X19.  After the score, the verdict and the analysis, the audio report
    goes through [detected_issues] as Python iterates it: one message per
    element of a list, one message per character when the value is a
    string, and a [TypeError] when it is [null]. *)
Theorem issues_are_iterated (fl : Floats) (items : list (list N * Json.value))
    (z : Z) (verdict analysis : Json.value) :
  Json.dict_lookup (Json.codes "audio_score") items = Some (Json.Int z) ->
  py_get (Json.Dict items) "audio_verdict" Json.Null = inr verdict ->
  py_get (Json.Dict items) "acoustic_analysis" Json.Null = inr analysis ->
  let head := [ScoreLine "Audio" (if (80 <? z)%Z then "green" else "red") (Json.Int z);
               Caption verdict; Info analysis] in
  (forall xs,
      Json.dict_lookup (Json.codes "detected_issues") items = Some (Json.List xs) ->
      audio_report fl (Json.Dict items) = (head ++ (Issue <$> xs), inr tt))
  /\ (forall s,
      Json.dict_lookup (Json.codes "detected_issues") items = Some (Json.Str s) ->
      audio_report fl (Json.Dict items)
      = (head ++ ((fun c => Issue (Json.Str [c])) <$> s), inr tt))
  /\ (Json.dict_lookup (Json.codes "detected_issues") items = Some Json.Null ->
      audio_report fl (Json.Dict items)
      = (head, inl (Exn (TypeError "'NoneType' object is not iterable")))).
Proof.
  intros Hs Hv Han head.
  assert (Loop : forall xs, for_each xs (fun issue => show (Issue issue))
                            = (Issue <$> xs, inr tt)).
  { induction xs as [|x xs IH]; [reflexivity|]. simpl. rewrite IH. reflexivity. }
  split; [|split].
  - intros xs Hi. unfold audio_report, a_score.
    rewrite (py_get_found _ _ _ _ Hs), Hv, Han, (py_get_found _ _ _ _ Hi).
    simpl. rewrite Loop. reflexivity.
  - intros s Hi. unfold audio_report, a_score.
    rewrite (py_get_found _ _ _ _ Hs), Hv, Han, (py_get_found _ _ _ _ Hi).
    simpl. rewrite Loop. rewrite <- list_fmap_compose. reflexivity.
  - intros Hi. unfold audio_report, a_score.
    rewrite (py_get_found _ _ _ _ Hs), Hv, Han, (py_get_found _ _ _ _ Hi).
    reflexivity.
Qed.

(** X19, witness. *)
Lemma issues_are_iterated_witness :
  audio_report no_floats
    (Json.Dict [(Json.codes "audio_score", Json.Int 40);
                (Json.codes "detected_issues", Json.Str (Json.codes "hum"))])
  = ([ScoreLine "Audio" "red" (Json.Int 40); Caption Json.Null; Info Json.Null;
      Issue (Json.Str (Json.codes "h")); Issue (Json.Str (Json.codes "u"));
      Issue (Json.Str (Json.codes "m"))], inr tt).
Proof.
  apply (proj1 (proj2 (issues_are_iterated no_floats
           [(Json.codes "audio_score", Json.Int 40);
            (Json.codes "detected_issues", Json.Str (Json.codes "hum"))]
           40 Json.Null Json.Null eq_refl eq_refl eq_refl)) (Json.codes "hum")).
  reflexivity.
Defined.

